(** * Nested-table PDF processor: a shallow embedding and its properties

    The development follows the Python sources module by module:

    - [Detector]  : [src/table_extraction/detector.py]  (containment test,
                    parent assignment, nesting-level fixpoint loop);
    - [DetectorFloat] : the containment test and the loop body that calls
                    it once more, on Python floats;
    - [Intent]    : [src/querying/intent_analysis.py]   (time-focus detection);
    - [Indexer]   : [src/vector_indexing/indexer.py]    (index build and search);
    - [Query]     : [src/querying/search.py]            (post-processing of
                    retrieved candidates).

    Each module of definitions is followed, in the second part of the file,
    by a module of facts about it ([DetectorFacts], [IntentFacts],
    [IndexerFacts], [QueryFacts]).

    Conventions.  A Python [str] is the list of its code points.  A Python
    exception is a value of [exn]; a computation that may raise returns a
    [result].  A [while] loop takes the number of iterations it may perform
    as fuel and answers [Diverge] when the fuel does not suffice.

    Numbers.  The code computes on Python floats, that is IEEE binary64
    numbers.  The vectors and scores of the index are modelled as such, and
    so is the containment test in [DetectorFloat], where rounding decides
    what the test answers and whether it raises.  In [Detector] the
    coordinates of a rectangle are exact rationals: what is proved there of
    the resolver is proved of the containment test in exact arithmetic.  The
    post-processing of search results is written over any type of scores
    with a multiplication and a comparison; what is said of its order is
    proved on floats. *)

From Stdlib Require Import ZArith QArith Qminmax List String Ascii PrimFloat Lia Lqa.
From Stdlib Require Import Permutation Sorted SpecFloat FloatOps FloatAxioms.
From Stdlib Require Import DecimalNat.
From stdpp Require Import gmap strings list fin_maps.

(** ** Python values shared by the modules *)

(** The exceptions the modelled code and the libraries it calls can raise. *)
Inductive exn : Set :=
| ValueError | KeyError | IndexError | RuntimeError | AttributeError
| TypeError | ZeroDivisionError.

Definition exn_name (e : exn) : string :=
  match e with
  | ValueError => "ValueError"
  | KeyError => "KeyError"
  | IndexError => "IndexError"
  | RuntimeError => "RuntimeError"
  | AttributeError => "AttributeError"
  | TypeError => "TypeError"
  | ZeroDivisionError => "ZeroDivisionError"
  end%string.

Inductive result (A : Type) : Type :=
| Ok (a : A)
| Raise (e : exn)
| Diverge.
Arguments Ok {A} a.
Arguments Raise {A} e.
Arguments Diverge {A}.

#[global] Instance result_ret : MRet result := @Ok.
#[global] Instance result_bind : MBind result := fun A B f m =>
  match m with
  | Ok a => f a
  | Raise e => Raise e
  | Diverge => Diverge
  end.

#[global] Instance result_fmap : FMap result := fun A B f m =>
  match m with
  | Ok a => Ok (f a)
  | Raise e => Raise e
  | Diverge => Diverge
  end.

(** A [for] loop whose body may raise: left fold in the [result] monad. *)
Fixpoint foldlM {A B : Type} (f : B -> A -> result B) (b : B) (l : list A)
  : result B :=
  match l with
  | [] => Ok b
  | x :: r => b' ← f b x; foldlM f b' r
  end.

(** [enumerate(l)]. *)
Definition enumerate {A : Type} (l : list A) : list (nat * A) := imap pair l.

(** *** Strings *)

Definition pystr : Set := list N.

(** Decoding of a UTF-8 literal into code points, so that Python literals can
    be written as they stand in the sources. *)
Fixpoint utf8_decode (fuel : nat) (bs : list N) : pystr :=
  match fuel with
  | O => []
  | S fuel' =>
    match bs with
    | [] => []
    | b0 :: r0 =>
      if (b0 <? 128)%N then b0 :: utf8_decode fuel' r0
      else if (b0 <? 224)%N then
        match r0 with
        | b1 :: r1 =>
            ((b0 - 192) * 64 + (b1 - 128))%N :: utf8_decode fuel' r1
        | _ => []
        end
      else if (b0 <? 240)%N then
        match r0 with
        | b1 :: b2 :: r2 =>
            ((b0 - 224) * 4096 + (b1 - 128) * 64 + (b2 - 128))%N
              :: utf8_decode fuel' r2
        | _ => []
        end
      else
        match r0 with
        | b1 :: b2 :: b3 :: r3 =>
            ((b0 - 240) * 262144 + (b1 - 128) * 4096 + (b2 - 128) * 64
             + (b3 - 128))%N :: utf8_decode fuel' r3
        | _ => []
        end
    end
  end.

Definition py (s : string) : pystr :=
  let bs := map (fun b => N.of_nat (Byte.to_nat b)) (list_byte_of_string s) in
  utf8_decode (List.length bs) bs.
Arguments py s%_string.

(** [needle in haystack] on strings. *)
Fixpoint starts_with (p s : pystr) : bool :=
  match p, s with
  | [], _ => true
  | _ :: _, [] => false
  | a :: p', b :: s' => (a =? b)%N && starts_with p' s'
  end.

Fixpoint str_in (needle hay : pystr) : bool :=
  starts_with needle hay ||
  match hay with
  | [] => false
  | _ :: hay' => str_in needle hay'
  end.

(** *** [list.sort(key=..., reverse=True)]

    Python's sort is stable, and stays so with [reverse=True]: the result is
    in descending key order and elements with equal keys keep their original
    relative order.  It compares keys with [<] only.  That determines the
    result when [<] is a strict weak order on the keys at hand, and there
    the insertion sort below gives it; on other keys (floats with a NaN
    among them) only the fact that the result is a permutation is used. *)
Section PySort.
Context {A K : Type} (lt : K -> K -> bool) (key : A -> K).

Fixpoint insert_desc (x : A) (l : list A) : list A :=
  match l with
  | [] => [x]
  | y :: r => if lt (key x) (key y) then y :: insert_desc x r else x :: l
  end.

Definition sort_reverse (l : list A) : list A := foldr insert_desc [] l.
End PySort.

(** ** The table detector *)
Module Detector.

(** A bounding box [(x1, y1, x2, y2)]. *)
Definition rect : Set := (Q * Q * Q * Q)%type.

(** The dictionary both region providers create for a detected table; the
    [confidence] entry of the model-based provider is never read. *)
Record table : Set := mk_table {
  page : nat;
  bbox : rect;
  table_id : pystr;
  parent_id : option pystr;
  nesting_level : nat
}.

Definition set_parent_id (pid : pystr) (t : table) : table :=
  {| page := page t; bbox := bbox t; table_id := table_id t;
     parent_id := Some pid; nesting_level := nesting_level t |}.

Definition set_nesting_level (n : nat) (t : table) : table :=
  {| page := page t; bbox := bbox t; table_id := table_id t;
     parent_id := parent_id t; nesting_level := n |}.

(** Comparisons and the built-ins [max] and [min] on two arguments: the
    first argument is returned unless the second is strictly better. *)
Definition Qltb (x y : Q) : bool := negb (Qle_bool y x).
Definition py_max (a b : Q) : Q := if Qltb a b then b else a.
Definition py_min (a b : Q) : Q := if Qltb b a then b else a.

(** [a / b]: raises on a zero divisor. *)
Definition py_div (a b : Q) : result Q :=
  if Qeq_bool b 0 then Raise ZeroDivisionError else Ok (a / b)%Q.

Definition _calculate_area (b : rect) : Q :=
  let '(x1, y1, x2, y2) := b in ((x2 - x1) * (y2 - y1))%Q.

Definition _is_contained (inner_bbox outer_bbox : rect) (threshold : Q)
  : result bool :=
  let '(ix1, iy1, ix2, iy2) := inner_bbox in
  let '(ox1, oy1, ox2, oy2) := outer_bbox in
  let intersection_x1 := py_max ix1 ox1 in
  let intersection_y1 := py_max iy1 oy1 in
  let intersection_x2 := py_min ix2 ox2 in
  let intersection_y2 := py_min iy2 oy2 in
  if Qle_bool intersection_x2 intersection_x1
     || Qle_bool intersection_y2 intersection_y1
  then Ok false
  else
    let intersection_area :=
      ((intersection_x2 - intersection_x1)
       * (intersection_y2 - intersection_y1))%Q in
    let inner_area := ((ix2 - ix1) * (iy2 - iy1))%Q in
    contained_ratio ← py_div intersection_area inner_area;
    area_ratio ← py_div inner_area (_calculate_area outer_bbox);
    Ok (Qltb threshold contained_ratio && Qltb area_ratio 0.9).

(** The default value of [threshold]. *)
Definition default_threshold : Q := 0.85.

(** [tables_info] is a list of dictionaries that are mutated in place; the
    per-page lists hold references to the same dictionaries.  The store is
    the list [tables_info]; a reference is the position of the dictionary in
    it, paired with the dictionary as it was read (only [bbox] and
    [table_id], which nothing ever writes, are read through a reference). *)
Abbreviation store := (list table) (only parsing).
Abbreviation ref := (nat * table)%type (only parsing).

(** The dictionary [tables_by_page], in insertion order of its keys. *)
Fixpoint group_add (p : nat) (r : ref) (g : list (nat * list ref))
  : list (nat * list ref) :=
  match g with
  | [] => [(p, [r])]
  | (q, l) :: g' =>
      if (p =? q)%nat then (q, l ++ [r]) :: g' else (q, l) :: group_add p r g'
  end.

Definition tables_by_page (tables_info : store) : list (nat * list ref) :=
  foldl (fun g r => group_add (page r.2) r g) [] (enumerate tables_info).

(** The body of the two nested loops, for [outer] at position [i] and
    [inner] at position [j] of the sorted page list. *)
Definition relate (st : store) (outer inner : nat * ref) : result store :=
  let '(i, (_, o)) := outer in
  let '(j, (k, n)) := inner in
  if bool_decide (i <> j) then
    c ← _is_contained (bbox n) (bbox o) default_threshold;
    Ok (if c : bool then alter (set_parent_id (table_id o)) k st else st)
  else Ok st.

Definition relate_page (page_tables : list ref) (st : store) : result store :=
  foldlM (fun st outer =>
            foldlM (fun st inner => relate st outer inner) st
                   (enumerate page_tables))
         st (enumerate page_tables).

(** [page_tables.sort(key=area, reverse=True)]. *)
Definition sort_by_area (page_tables : list ref) : list ref :=
  sort_reverse Qltb (fun r : ref => _calculate_area (bbox r.2)) page_tables.

(** One iteration of the [for] loop inside the [while] loop, on the table
    at position [i]. *)
Definition nesting_step (table_id_to_index : gmap pystr nat)
    (acc : store * bool) (i : nat) : result (store * bool) :=
  let '(st, changed) := acc in
  match st !! i with
  | None => Raise IndexError
  | Some t =>
    match parent_id t with
    | None => Ok acc
    | Some pid =>
      match table_id_to_index !! pid with
      | None => Raise KeyError
      | Some parent_idx =>
        match st !! parent_idx with
        | None => Raise IndexError
        | Some parent =>
          if (nesting_level t <=? nesting_level parent)%nat
          then Ok (<[i := set_nesting_level (nesting_level parent + 1) t]> st,
                   true)
          else Ok acc
        end
      end
    end
  end.

(** A full pass of the [for] loop, with [changed] reset before it. *)
Definition nesting_pass (table_id_to_index : gmap pystr nat) (st : store)
  : result (store * bool) :=
  foldlM (nesting_step table_id_to_index) (st, false) (seq 0 (length st)).

(** The [while changed] loop; [fuel] bounds the number of passes. *)
Fixpoint nesting_loop (table_id_to_index : gmap pystr nat) (fuel : nat)
    (st : store) : result store :=
  match fuel with
  | O => Diverge
  | S fuel' =>
      r ← nesting_pass table_id_to_index st;
      if r.2 : bool then nesting_loop table_id_to_index fuel' r.1
      else Ok r.1
  end.

(** The dictionary comprehension: a later table with the same id wins. *)
Definition build_table_id_to_index (tables_info : store) : gmap pystr nat :=
  foldl (fun m r => <[table_id r.2 := r.1]> m) ∅ (enumerate tables_info).

Definition _calculate_nesting_levels (fuel : nat) (tables_info : store)
  : result store :=
  let table_id_to_index := build_table_id_to_index tables_info in
  let st := set_nesting_level 0 <$> tables_info in
  nesting_loop table_id_to_index fuel st.

Definition _detect_nested_relationships (fuel : nat) (tables_info : store)
  : result store :=
  st ← foldlM (fun st g => relate_page (sort_by_area g.2) st)
              tables_info (tables_by_page tables_info);
  _calculate_nesting_levels fuel st.

(** The scenario of the specification: [A = (0,0,100,100)] and
    [B = (10,10,90,90)] on page 0. *)
Definition region (p : nat) (b : rect) (id : string) : table :=
  {| page := p; bbox := b; table_id := py id; parent_id := None;
     nesting_level := 0 |}.
Arguments region p b id%_string.

Definition table_A : table := region 0 (0, 0, 100, 100)%Q "page_0_table_0".
Definition table_B : table := region 0 (10, 10, 90, 90)%Q "page_0_table_1".

(** *** The containment test written after the specification

    The intersection rectangle of [A] and [B]; it is non-empty when it has
    positive width and height. *)
Definition spec_intersection (A B : rect) : rect :=
  let '(ax1, ay1, ax2, ay2) := A in
  let '(bx1, by1, bx2, by2) := B in
  (Qmax ax1 bx1, Qmax ay1 by1, Qmin ax2 bx2, Qmin ay2 by2).

Definition spec_nonempty (r : rect) : Prop :=
  let '(x1, y1, x2, y2) := r in (x1 < x2 /\ y1 < y2)%Q.

(** [B] is a child of [A]: [contained_ratio > 0.85] and [area_ratio < 0.9]. *)
Definition spec_child_of (A B : rect) : Prop :=
  spec_nonempty (spec_intersection A B) /\
  (0.85 < _calculate_area (spec_intersection A B) / _calculate_area B)%Q /\
  (_calculate_area B / _calculate_area A < 0.9)%Q.

(** *** The region providers *)

(** [str(n)] for a non-negative integer: its decimal digits. *)
Fixpoint uint_codes (u : Decimal.uint) : pystr :=
  match u with
  | Decimal.Nil => []
  | Decimal.D0 u => 48%N :: uint_codes u
  | Decimal.D1 u => 49%N :: uint_codes u
  | Decimal.D2 u => 50%N :: uint_codes u
  | Decimal.D3 u => 51%N :: uint_codes u
  | Decimal.D4 u => 52%N :: uint_codes u
  | Decimal.D5 u => 53%N :: uint_codes u
  | Decimal.D6 u => 54%N :: uint_codes u
  | Decimal.D7 u => 55%N :: uint_codes u
  | Decimal.D8 u => 56%N :: uint_codes u
  | Decimal.D9 u => 57%N :: uint_codes u
  end.

Definition str_of_nat (n : nat) : pystr := uint_codes (Nat.to_uint n).

(** The dictionary both providers append for box [i] of page [page_num],
    with the id [f"page_{page_num}_table_{i}"]. *)
Definition detected_table (page_num i : nat) (b : rect) : table :=
  {| page := page_num; bbox := b;
     table_id := py "page_" ++ str_of_nat page_num ++ py "_table_"
                 ++ str_of_nat i;
     parent_id := None; nesting_level := 0 |}.

(** [_detect_with_pdfplumber] and [_detect_with_transformer], given the
    boxes the library or the model found on each page: the two nested
    [enumerate] loops. *)
Definition detected (pages : list (list rect)) : list table :=
  mjoin (imap (fun page_num tables =>
                 imap (fun i b => detected_table page_num i b) tables)
              pages).

(** [detect_tables], from the boxes found on each page. *)
Definition detect_tables (fuel : nat) (pages : list (list rect))
  : result store :=
  _detect_nested_relationships fuel (detected pages).

End Detector.

(** ** The table detector on Python floats

    The coordinates of a bounding box are Python floats, that is IEEE
    binary64 numbers: the containment test and the loop body that calls it
    are given here with the arithmetic of the interpreter, rounding,
    infinities and NaN included. *)
Module DetectorFloat.

(** A bounding box [(x1, y1, x2, y2)]. *)
Definition rect : Set := (float * float * float * float)%type.

Record table : Set := mk_table {
  page : nat;
  bbox : rect;
  table_id : pystr;
  parent_id : option pystr;
  nesting_level : nat
}.

Definition set_parent_id (pid : pystr) (t : table) : table :=
  {| page := page t; bbox := bbox t; table_id := table_id t;
     parent_id := Some pid; nesting_level := nesting_level t |}.

(** The built-ins [max] and [min] on two arguments: the first argument is
    returned unless the second is strictly better, so also when one of them
    is NaN. *)
Definition py_max (a b : float) : float := if PrimFloat.ltb a b then b else a.
Definition py_min (a b : float) : float := if PrimFloat.ltb b a then b else a.

(** [a / b]: raises on a divisor equal to zero, of either sign. *)
Definition py_div (a b : float) : result float :=
  if PrimFloat.eqb b 0 then Raise ZeroDivisionError else Ok (a / b)%float.

Definition _calculate_area (b : rect) : float :=
  let '(x1, y1, x2, y2) := b in ((x2 - x1) * (y2 - y1))%float.

#[warnings="-inexact-float"]
Definition _is_contained (inner_bbox outer_bbox : rect) (threshold : float)
  : result bool :=
  let '(ix1, iy1, ix2, iy2) := inner_bbox in
  let '(ox1, oy1, ox2, oy2) := outer_bbox in
  let intersection_x1 := py_max ix1 ox1 in
  let intersection_y1 := py_max iy1 oy1 in
  let intersection_x2 := py_min ix2 ox2 in
  let intersection_y2 := py_min iy2 oy2 in
  if PrimFloat.leb intersection_x2 intersection_x1
     || PrimFloat.leb intersection_y2 intersection_y1
  then Ok false
  else
    let intersection_area :=
      ((intersection_x2 - intersection_x1)
       * (intersection_y2 - intersection_y1))%float in
    let inner_area := ((ix2 - ix1) * (iy2 - iy1))%float in
    contained_ratio ← py_div intersection_area inner_area;
    area_ratio ← py_div inner_area (_calculate_area outer_bbox);
    Ok (PrimFloat.ltb threshold contained_ratio
        && PrimFloat.ltb area_ratio 0.9).

(** The default value of [threshold]. *)
#[warnings="-inexact-float"]
Definition default_threshold : float := 0.85%float.

(** The body of the two nested loops, for [outer] at position [i] and
    [inner] at position [j] of the sorted page list; [k] is the position of
    [inner] in [tables_info]. *)
Definition relate (st : list table) (outer inner : nat * (nat * table))
  : result (list table) :=
  let '(i, (_, o)) := outer in
  let '(j, (k, n)) := inner in
  if bool_decide (i <> j) then
    c ← _is_contained (bbox n) (bbox o) default_threshold;
    Ok (if c : bool then alter (set_parent_id (table_id o)) k st else st)
  else Ok st.

(** *** The containment test written after the specification *)

(** A valid rectangle has positive width and height. *)
Definition valid_rect (r : rect) : Prop :=
  let '(x1, y1, x2, y2) := r in
  PrimFloat.ltb x1 x2 = true /\ PrimFloat.ltb y1 y2 = true.

(** The intersection rectangle of [B] and [A]. *)
Definition spec_intersection (B A : rect) : rect :=
  let '(bx1, by1, bx2, by2) := B in
  let '(ax1, ay1, ax2, ay2) := A in
  (py_max bx1 ax1, py_max by1 ay1, py_min bx2 ax2, py_min by2 ay2).

(** [B] is a child of [A]: the intersection rectangle is non-empty,
    [contained_ratio > 0.85] and [area_ratio < 0.9], the areas and the
    ratios being the rounded ones. *)
#[warnings="-inexact-float"]
Definition spec_child_of (A B : rect) : Prop :=
  valid_rect (spec_intersection B A) /\
  PrimFloat.ltb 0.85
    (_calculate_area (spec_intersection B A) / _calculate_area B) = true /\
  PrimFloat.ltb (_calculate_area B / _calculate_area A) 0.9 = true.

(** The divisions of the test fail: the intersection rectangle is
    non-empty and the rounded area of [B] or of [A] is zero. *)
Definition spec_divides_by_zero (A B : rect) : Prop :=
  valid_rect (spec_intersection B A) /\
  (PrimFloat.eqb (_calculate_area B) 0 = true \/
   PrimFloat.eqb (_calculate_area A) 0 = true).

(** The value of a float as a rational number (0 for what has none). *)
Definition to_Q (x : float) : Q :=
  match Prim2SF x with
  | S754_finite s m e =>
      ((if s then -1 else 1) * inject_Z (Z.pos m) * Qpower 2 e)%Q
  | _ => 0%Q
  end.

(** The area of a box in exact arithmetic. *)
Definition exact_area (b : rect) : Q :=
  let '(x1, y1, x2, y2) := b in
  ((to_Q x2 - to_Q x1) * (to_Q y2 - to_Q y1))%Q.

End DetectorFloat.

(** ** The query intent analyzer *)
Module Intent.

(** What [_detect_time_focus] returns: a list of strings, one string, or
    [None]. *)
Inductive time_focus : Set :=
| Years (years : list pystr)
| Relative (time_type : pystr)
| NoFocus.

Section TimeFocus.
(** In a [str] pattern [\d] matches every Unicode decimal digit; the digits
    beyond ASCII come from the Unicode tables of the interpreter. *)
Variable unicode_digit : N -> bool.

Definition is_digit (c : N) : bool :=
  ((48 <=? c) && (c <=? 57))%N || ((127 <? c)%N && unicode_digit c).

(** A match of [(19|20)\d{2}] at the head of [s]: the text of group 1. *)
Definition match_year (s : pystr) : option pystr :=
  match s with
  | c1 :: c2 :: c3 :: c4 :: _ =>
      if (starts_with (py "19") s || starts_with (py "20") s)
         && is_digit c3 && is_digit c4
      then Some [c1; c2] else None
  | _ => None
  end.

(** [re.findall(year_pattern, query)]: the pattern has one group, so the
    list holds the text of that group for each match, scanning from left to
    right without overlap; [skip] counts the characters of the current match
    still to be passed. *)
Fixpoint findall_year (skip : nat) (s : pystr) : list pystr :=
  match s with
  | [] => []
  | _ :: rest =>
      match skip with
      | S k => findall_year k rest
      | O =>
          match match_year s with
          | Some g => g :: findall_year 3 rest
          | None => findall_year 0 rest
          end
      end
  end.

Definition relative_time_terms : list (pystr * list pystr) :=
  [ (py "current",
     [py "今年"; py "本年"; py "当前"; py "现在"; py "current"; py "this year"]);
    (py "previous",
     [py "去年"; py "上年"; py "上一年"; py "last year"; py "previous year"]);
    (py "next", [py "明年"; py "下一年"; py "next year"]);
    (py "recent", [py "近年"; py "最近"; py "近期"; py "recent"; py "lately"]) ].

Definition _detect_time_focus (query : pystr) : time_focus :=
  let years := findall_year 0 query in
  match years with
  | _ :: _ => Years years
  | [] =>
      match List.find (fun e : pystr * list pystr =>
                         existsb (fun term => str_in term query) e.2)
                      relative_time_terms with
      | Some e => Relative e.1
      | None => NoFocus
      end
  end.

End TimeFocus.
End Intent.

(** ** The vector index *)
Module Indexer.

Abbreviation vector := (list float) (only parsing).

(** A value stored in a [metadata] dictionary: the chunk generator stores
    strings and integers. *)
Inductive value : Set :=
| VStr (s : pystr)
| VInt (z : Z).

#[global] Instance value_eq_dec : EqDecision value.
Proof. solve_decision. Defined.

#[global] Instance value_countable : Countable value :=
  inj_countable'
    (fun v => match v with VStr s => inl s | VInt z => inr z end)
    (fun x => match x with inl s => VStr s | inr z => VInt z end)
    (fun v => match v with VStr _ => eq_refl | VInt _ => eq_refl end).

(** One element of the list given to [build_index]. *)
Record embedding_data : Type := {
  embedding : vector;
  table_idx : nat;
  chunk_type : pystr;
  content : pystr;
  metadata : gmap pystr value
}.

(** One entry of [id_to_data]. *)
Record chunk_data : Type := {
  d_table_idx : nat;
  d_chunk_type : pystr;
  d_content : pystr;
  d_metadata : gmap pystr value
}.

Definition data_of (e : embedding_data) : chunk_data :=
  {| d_table_idx := table_idx e; d_chunk_type := chunk_type e;
     d_content := content e; d_metadata := metadata e |}.

(** *** The array library *)

(** [np.array(vectors)] on a list of vectors: a two-dimensional array when
    all have one length, [ValueError] (inhomogeneous shape) otherwise.  This
    is numpy 1.24 and later; earlier versions make an array of objects of a
    ragged list. *)
Definition np_array (vectors : list vector) : result (list vector) :=
  match vectors with
  | [] => Ok []
  | v :: r =>
      if forallb (fun w => (length w =? length v)%nat) r then Ok vectors
      else Raise ValueError
  end.

(** The inner product, summed from left to right (the library may sum in
    another order, which can change the last bits of a result). *)
Definition dot (a b : vector) : float :=
  foldl (fun acc xy => (acc + xy.1 * xy.2)%float) 0%float (zip a b).

(** [np.dot(matrix, vector)]: the shapes must agree. *)
Definition np_dot (m : list vector) (q : vector) : result vector :=
  if forallb (fun row => (length row =? length q)%nat) m
  then Ok (map (fun row => dot row q) m)
  else Raise ValueError.

(** [np.linalg.norm] of a vector. *)
Definition norm (a : vector) : float :=
  PrimFloat.sqrt (foldl (fun acc x => (acc + x * x)%float) 0%float a).

(** The order [np.argsort] sorts floats by: NaN comes last. *)
Definition np_lt (a b : float) : bool :=
  PrimFloat.ltb a b || (PrimFloat.is_nan b && negb (PrimFloat.is_nan a)).

Fixpoint insert_asc (x : nat * float) (l : list (nat * float))
  : list (nat * float) :=
  match l with
  | [] => [x]
  | y :: r => if np_lt y.2 x.2 then y :: insert_asc x r else x :: l
  end.

(** [np.argsort]; among equal keys the earlier position comes first (the
    library's default sort promises no order among equal keys). *)
Definition np_argsort (xs : vector) : list nat :=
  map fst (foldr insert_asc [] (enumerate xs)).

(** The slice [l[:k]]. *)
Definition slice_to {A : Type} (k : Z) (l : list A) : list A :=
  if (k <? 0)%Z then take (length l - Z.to_nat (- k)) l
  else take (Z.to_nat k) l.

(** *** The builder *)

(** The graph index of [hnswlib], as far as the builder sees it: its
    dimension and the vectors added, labelled by their positions. *)
Record hnsw : Type := { hnsw_dim : nat; hnsw_items : list vector }.

Inductive index_obj : Type :=
| HnswIndex (h : hnsw)
| ArrayIndex (a : list vector).

Record builder : Type := {
  use_hnsw : bool;
  index : option index_obj;
  id_to_data : gmap nat chunk_data;
  embedding_size : option nat
}.

(** The dictionary [build_index] returns. *)
Record built : Type := {
  b_index : index_obj;
  b_id_to_data : gmap nat chunk_data;
  b_embedding_size : nat;
  b_index_type : pystr
}.

(** One search result. *)
Record hit : Type := {
  id : nat;
  distance : float;
  score : float;
  rank : nat;
  data : chunk_data
}.

Fixpoint mapM {A B : Type} (f : A -> result B) (l : list A)
  : result (list B) :=
  match l with
  | [] => Ok []
  | x :: r => y ← f x; ys ← mapM f r; Ok (y :: ys)
  end.

Section Builder.
(** Whether [import hnswlib] succeeded. *)
Variable HNSW_AVAILABLE : bool.
(** [Index.knn_query(query, k)] of [hnswlib]: the first row of the labels
    and of the distances.  The search is approximate, so its answer is not
    a function of the model [hnsw] alone; it is taken as given. *)
Variable knn_query : hnsw -> vector -> Z -> result (list nat * list float).

Definition __init__ (use_hnsw : bool) : builder :=
  {| use_hnsw := use_hnsw && HNSW_AVAILABLE; index := None;
     id_to_data := ∅; embedding_size := None |}.

Definition _build_hnsw_index (dim : nat) (vectors : list vector)
  : result hnsw :=
  items ← np_array vectors;
  Ok {| hnsw_dim := dim; hnsw_items := items |}.

Definition build_index (self : builder) (embeddings : list embedding_data)
  : builder * result (option built) :=
  match embeddings with
  | [] => (self, Ok None)
  | e0 :: _ =>
      let vectors := map embedding embeddings in
      let size := length (embedding e0) in
      let self1 :=
        {| use_hnsw := use_hnsw self; index := index self;
           id_to_data := id_to_data self; embedding_size := Some size |} in
      let made :=
        if use_hnsw self
        then h ← _build_hnsw_index size vectors; Ok (HnswIndex h)
        else a ← np_array vectors; Ok (ArrayIndex a) in
      match made with
      | Ok ix =>
          let table :=
            foldl (fun m e => <[e.1 := data_of e.2]> m) (id_to_data self)
                  (enumerate embeddings) in
          ({| use_hnsw := use_hnsw self; index := Some ix;
              id_to_data := table; embedding_size := Some size |},
           Ok (Some {| b_index := ix; b_id_to_data := table;
                       b_embedding_size := size;
                       b_index_type :=
                         if use_hnsw self then py "hnsw"
                         else py "brute_force" |}))
      | Raise e => (self1, Raise e)
      | Diverge => (self1, Diverge)
      end
  end.

Definition lookup_data (self : builder) (idx : nat) : result chunk_data :=
  match id_to_data self !! idx with
  | Some d => Ok d
  | None => Raise KeyError
  end.

Definition search (self : builder) (query_vector : vector) (top_k : Z)
  : result (list hit) :=
  match index self with
  | None => Ok []
  | Some ix =>
      if use_hnsw self then
        match ix with
        | HnswIndex h =>
            r ← knn_query h query_vector top_k;
            mapM (fun e : nat * (nat * float) =>
                    d ← lookup_data self e.2.1;
                    Ok {| id := e.2.1; distance := e.2.2;
                          score := (1 - e.2.2)%float; rank := e.1;
                          data := d |})
                 (enumerate (zip r.1 r.2))
        | ArrayIndex _ => Raise AttributeError
        end
      else
        match ix with
        | ArrayIndex a =>
            dots ← np_dot a query_vector;
            let norms :=
              map (fun row => (norm row * norm query_vector)%float) a in
            let cosine_similarities :=
              zip_with PrimFloat.div dots norms in
            let top_indices :=
              slice_to top_k
                (np_argsort (map PrimFloat.opp cosine_similarities)) in
            mapM (fun e : nat * nat =>
                    match cosine_similarities !! e.2 with
                    | None => Raise IndexError
                    | Some c =>
                        d ← lookup_data self e.2;
                        Ok {| id := e.2; distance := (1 - c)%float;
                              score := c; rank := e.1; data := d |}
                    end)
                 (enumerate top_indices)
        | HnswIndex _ => Raise TypeError
        end
  end.

End Builder.

(** A stand-in for [hnswlib]'s [knn_query], for running examples: exact
    cosine distances over the stored items, nearest first.  Like the
    library, it raises [RuntimeError] when it cannot return [k] results. *)
Definition knn_query_exact (h : hnsw) (q : vector) (k : Z)
  : result (list nat * list float) :=
  let dist :=
    map (fun row => (1 - dot row q / (norm row * norm q))%float)
        (hnsw_items h) in
  let order := np_argsort dist in
  if (Z.of_nat (length order) <? k)%Z || (k <? 0)%Z then Raise RuntimeError
  else
    let ids := take (Z.to_nat k) order in
    Ok (ids, map (fun i => default 0%float (dist !! i)) ids).

End Indexer.

(** ** The query processor *)
Module Query.
Import Indexer.

(** The arithmetic the post-processing needs of a score: multiplication by
    the four literals and the comparison the sort uses. *)
Class Score (F : Type) : Type := {
  fmul : F -> F -> F;
  flt : F -> F -> bool;
  lit_1_1 : F;
  lit_1_2 : F;
  lit_1_3 : F;
  lit_1_15 : F
}.

(** Python floats. *)
#[global, warnings="-inexact-float"]
Instance float_score : Score float := {|
  fmul := PrimFloat.mul; flt := PrimFloat.ltb;
  lit_1_1 := 1.1%float; lit_1_2 := 1.2%float; lit_1_3 := 1.3%float;
  lit_1_15 := 1.15%float
|}.

(** Exact scores, without rounding and without NaN, for examples whose
    outcome does not depend on the arithmetic. *)
#[global] Instance Q_score : Score Q := {|
  fmul := Qmult; flt := Detector.Qltb;
  lit_1_1 := 1.1%Q; lit_1_2 := 1.2%Q; lit_1_3 := 1.3%Q; lit_1_15 := 1.15%Q
|}.

(** The intent dictionary. *)
Record intent : Type := {
  data_type : pystr;
  granularity : pystr;
  time_focus : Intent.time_focus;
  comparison : bool;
  calculation : bool;
  original_query : pystr
}.

(** What [_post_process_results] reads of a search result. *)
Record raw_result (F : Type) : Type := {
  raw_score : F;
  raw_rank : nat;
  raw_data : chunk_data
}.
Arguments raw_score {F} _.
Arguments raw_rank {F} _.
Arguments raw_data {F} _.

Definition of_hit (h : hit) : raw_result float :=
  {| raw_score := Indexer.score h; raw_rank := Indexer.rank h;
     raw_data := Indexer.data h |}.

(** The dictionary built for each kept result.  Its entry
    [relevance_explanation], a text for the reader that nothing here
    examines, is left out. *)
Record enhanced_result (F : Type) : Type := {
  score : F;
  rank : nat;
  content : pystr;
  chunk_type : pystr;
  metadata : gmap pystr value;
  table_idx : nat
}.
Arguments score {F} _.
Arguments rank {F} _.
Arguments content {F} _.
Arguments chunk_type {F} _.
Arguments metadata {F} _.
Arguments table_idx {F} _.

Section PostProcess.
Context {F : Type} `{Score F}.
(** [str.lower], which follows the Unicode tables of the interpreter. *)
Variable str_lower : pystr -> pystr.

Definition scale (c : F) (r : enhanced_result F) : enhanced_result F :=
  {| score := fmul (score r) c; rank := rank r; content := content r;
     chunk_type := chunk_type r; metadata := metadata r;
     table_idx := table_idx r |}.

Definition set_rank (n : nat) (r : enhanced_result F) : enhanced_result F :=
  {| score := score r; rank := n; content := content r;
     chunk_type := chunk_type r; metadata := metadata r;
     table_idx := table_idx r |}.

Definition str_eqb (a b : pystr) : bool := bool_decide (a = b).

Definition any_in (terms : list pystr) (text : pystr) : bool :=
  existsb (fun term => str_in term text) terms.

Definition _extract_table_type (res : enhanced_result F) : option value :=
  match metadata res !! py "table_type" with
  | Some v => Some v
  | None =>
      let content_lower := str_lower (content res) in
      if any_in [py "资产负债表"; py "balance sheet"; py "资产"; py "负债"]
                content_lower
      then Some (VStr (py "balance_sheet"))
      else if any_in [py "损益表"; py "income statement"; py "利润";
                      py "收入"] content_lower
      then Some (VStr (py "income_statement"))
      else if any_in [py "现金流量表"; py "cash flow"; py "现金"]
                     content_lower
      then Some (VStr (py "cash_flow"))
      else None
  end.

Definition _adjust_by_intent (res : enhanced_result F) (i : intent)
  : result (enhanced_result F) :=
  let ct := chunk_type res in
  let r1 :=
    if str_eqb (granularity i) (py "overview")
       && (str_eqb ct (py "table_full")
           || str_eqb ct (py "table_description"))
    then scale lit_1_2 res
    else if str_eqb (granularity i) (py "specific")
            && (str_eqb ct (py "table_row") || str_eqb ct (py "table_column"))
    then scale lit_1_2 res
    else if str_eqb (granularity i) (py "metric")
            && str_eqb ct (py "table_metric")
    then scale lit_1_3 res
    else res in
  let r2 :=
    if calculation i && str_eqb ct (py "table_metric")
    then scale lit_1_2 r1 else r1 in
  if negb (str_eqb (data_type i) (py "unknown")) then
    match _extract_table_type r2 with
    | None => Ok r2
    | Some (VStr t) =>
        match t with
        | [] => Ok r2
        | _ :: _ =>
            if str_in (data_type i) t then Ok (scale lit_1_15 r2) else Ok r2
        end
    | Some (VInt z) =>
        (* a non-zero integer is true, and [in] cannot search it *)
        if (z =? 0)%Z then Ok r2 else Raise TypeError
    end
  else Ok r2.

(** The result built from one candidate, with its adjusted score. *)
Definition enhance (raw : raw_result F) (i : intent)
  : result (enhanced_result F) :=
  let result_data := raw_data raw in
  let enhanced :=
    {| score := raw_score raw; rank := raw_rank raw;
       content := d_content result_data;
       chunk_type := d_chunk_type result_data;
       metadata := d_metadata result_data;
       table_idx := d_table_idx result_data |} in
  let enhanced :=
    if str_eqb (d_chunk_type result_data) (py "table_full")
    then scale lit_1_1 enhanced else enhanced in
  _adjust_by_intent enhanced i.

(** The body of the first loop: [acc] holds [processed_results] and
    [seen_table_ids]. *)
Definition process_one (i : intent)
    (acc : list (enhanced_result F) * gset (option value))
    (raw : raw_result F)
  : result (list (enhanced_result F) * gset (option value)) :=
  let table_id := d_metadata (raw_data raw) !! py "table_id" in
  enhanced ← enhance raw i;
  if bool_decide (table_id ∉ acc.2)
     || negb (str_eqb (chunk_type enhanced) (py "table_full"))
  then
    Ok (acc.1 ++ [enhanced],
        if str_eqb (chunk_type enhanced) (py "table_full")
        then {[table_id]} ∪ acc.2 else acc.2)
  else Ok acc.

(** The first loop. *)
Definition collect (raw_results : list (raw_result F)) (i : intent)
  : result (list (enhanced_result F)) :=
  acc ← foldlM (process_one i) ([], ∅) raw_results;
  Ok acc.1.

Definition _post_process_results (raw_results : list (raw_result F))
    (i : intent) : result (list (enhanced_result F)) :=
  processed_results ← collect raw_results i;
  let sorted := sort_reverse flt score processed_results in
  Ok (imap (fun n r => set_rank (n + 1) r) sorted).

(** The chunk a result stands for. *)
Definition payload (r : enhanced_result F) : chunk_data :=
  {| d_table_idx := table_idx r; d_chunk_type := chunk_type r;
     d_content := content r; d_metadata := metadata r |}.

End PostProcess.

Definition is_full (d : chunk_data) : Prop := d_chunk_type d = py "table_full".
Definition chunk_table_id (d : chunk_data) : option value :=
  d_metadata d !! py "table_id".

#[global] Instance is_full_dec (d : chunk_data) : Decision (is_full d).
Proof. unfold is_full. apply _. Defined.

(** [sep.join(parts)]. *)
Fixpoint str_join (sep : pystr) (parts : list pystr) : pystr :=
  match parts with
  | [] => []
  | [p] => p
  | p :: rest => p ++ sep ++ str_join sep rest
  end.

(** The truth value of [intent['time_focus']]: an empty list, an empty
    string and [None] are false. *)
Definition time_focus_truthy (t : Intent.time_focus) : bool :=
  match t with
  | Intent.Years [] => false
  | Intent.Years (_ :: _) => true
  | Intent.Relative [] => false
  | Intent.Relative (_ :: _) => true
  | Intent.NoFocus => false
  end.

Definition _enhance_query (query : pystr) (i : intent) : pystr :=
  let enhanced_parts := [query] in
  let enhanced_parts :=
    if str_eqb (data_type i) (py "balance_sheet")
    then enhanced_parts ++ [py "资产负债表 资产 负债 权益 balance sheet"]
    else if str_eqb (data_type i) (py "income_statement")
    then enhanced_parts
           ++ [py "损益表 收入 利润 盈利 income statement profit revenue"]
    else if str_eqb (data_type i) (py "cash_flow")
    then enhanced_parts ++ [py "现金流量表 现金流 经营活动 cash flow statement"]
    else enhanced_parts in
  let enhanced_parts :=
    if str_eqb (granularity i) (py "overview")
    then enhanced_parts ++ [py "整体 概览 总体 summary overview"]
    else if str_eqb (granularity i) (py "specific")
    then enhanced_parts ++ [py "具体 详细 明细 specific details"]
    else if str_eqb (granularity i) (py "metric")
    then enhanced_parts ++ [py "指标 比率 占比 ratio percentage"]
    else enhanced_parts in
  let enhanced_parts :=
    if comparison i
    then enhanced_parts ++ [py "对比 比较 差异 变化 comparison difference"]
    else enhanced_parts in
  let enhanced_parts :=
    if calculation i
    then enhanced_parts ++ [py "计算 总计 计算结果 calculation total"]
    else enhanced_parts in
  let enhanced_parts :=
    if time_focus_truthy (time_focus i) then
      match time_focus i with
      | Intent.Years years =>
          let years_str := str_join (py " ") years in
          enhanced_parts ++ [py "年份 " ++ years_str ++ py " year"]
      | Intent.Relative t =>
          enhanced_parts ++ [py "时间 " ++ t ++ py " time period"]
      | Intent.NoFocus => enhanced_parts
      end
    else enhanced_parts in
  str_join (py " ") enhanced_parts.

Section ProcessQuery.
Variable knn_query : hnsw -> list float -> Z -> result (list nat * list float).
(** [embedder.encode], the sentence-embedding model. *)
Variable encode : pystr -> list float.
Variable str_lower : pystr -> pystr.

(** [self_index] is the index builder the processor was created with. *)
Definition process_query (self_index : builder) (query : pystr) (i : intent)
    (top_k : Z) : result (list (enhanced_result float)) :=
  let enhanced_query := _enhance_query query i in
  let query_vector := encode enhanced_query in
  raw_results ← search knn_query self_index query_vector top_k;
  _post_process_results str_lower (of_hit <$> raw_results) i.

End ProcessQuery.

End Query.

(** ** The query intent analyzer: the intent dictionary *)
Module Analyzer.
Import Intent Query.

Definition financial_terms : list (pystr * list pystr) :=
  [ (py "balance_sheet",
     [py "资产负债表"; py "资产"; py "负债"; py "权益"; py "balance sheet";
      py "asset"; py "liability"; py "equity"]);
    (py "income_statement",
     [py "损益表"; py "利润表"; py "收入"; py "支出"; py "盈利"; py "利润";
      py "income statement"; py "profit"; py "revenue"; py "expense"]);
    (py "cash_flow",
     [py "现金流量表"; py "现金流"; py "经营活动"; py "投资活动"; py "筹资活动";
      py "cash flow"; py "operating"; py "investing"; py "financing"]) ].

Definition granularity_terms : list (pystr * list pystr) :=
  [ (py "overview",
     [py "整体"; py "概览"; py "概述"; py "总体"; py "全部"; py "overview";
      py "summary"; py "entire"]);
    (py "specific",
     [py "具体"; py "详细"; py "明细"; py "详情"; py "specific"; py "detail";
      py "detailed"]);
    (py "metric",
     [py "指标"; py "比率"; py "占比"; py "比例"; py "百分比"; py "ratio";
      py "percentage"; py "proportion"]) ].

Definition comparison_terms : list pystr :=
  [py "对比"; py "比较"; py "差异"; py "变化"; py "增长"; py "下降";
   py "compare"; py "comparison"; py "difference"; py "growth";
   py "decrease"].

Definition calculation_terms : list pystr :=
  [py "计算"; py "求"; py "多少"; py "总计"; py "总额"; py "总数";
   py "calculate"; py "compute"; py "sum"; py "total"].

(** The first key of a keyword table one of whose terms occurs in the
    text: the [for ... in d.items()] loops with [any]. *)
Definition first_label (table : list (pystr * list pystr)) (text : pystr)
  : option pystr :=
  match List.find (fun e : pystr * list pystr => any_in e.2 text) table with
  | Some e => Some e.1
  | None => None
  end.

Definition _detect_data_type (query_lower : pystr) : pystr :=
  match first_label financial_terms query_lower with
  | Some data_type => data_type
  | None => py "unknown"
  end.

Definition _detect_granularity (query_lower : pystr) : pystr :=
  match first_label granularity_terms query_lower with
  | Some granularity => granularity
  | None =>
      if any_in [py "多少"; py "多大"; py "多么"; py "是什么"; py "how much";
                 py "what is"] query_lower
      then py "metric" else py "specific"
  end.

(** The patterns handed to [re.search]: plain text, or two characters with
    [.*] between them. *)
Inductive pattern : Set :=
| Lit (text : pystr)
| DotStar (a b : N).

(** [c] occurs in [s] before any line feed: [.] matches every character but
    the line feed. *)
Fixpoint on_line (c : N) (s : pystr) : bool :=
  match s with
  | [] => false
  | x :: r => (x =? c)%N || (negb (x =? 10)%N && on_line c r)
  end.

Fixpoint search_dot_star (a b : N) (s : pystr) : bool :=
  match s with
  | [] => false
  | x :: r => ((x =? a)%N && on_line b r) || search_dot_star a b r
  end.

(** Whether [re.search(pattern, text)] finds a match. *)
Definition re_search (p : pattern) (text : pystr) : bool :=
  match p with
  | Lit t => str_in t text
  | DotStar a b => search_dot_star a b text
  end.

(** The code point of a one-character literal. *)
Definition chr (s : pystr) : N := List.hd 0%N s.

Definition comparison_patterns : list pattern :=
  [ DotStar (chr (py "比")) (chr (py "多"));
    DotStar (chr (py "比")) (chr (py "少"));
    Lit (py "高于"); Lit (py "低于"); Lit (py "大于"); Lit (py "小于");
    Lit (py "超过"); Lit (py "不如"); Lit (py "胜过"); Lit (py "不及");
    Lit (py "增长"); Lit (py "下降"); Lit (py "rise"); Lit (py "drop");
    Lit (py "higher than"); Lit (py "lower than"); Lit (py "more than");
    Lit (py "less than") ].

Definition calculation_patterns : list pattern :=
  [ Lit (py "百分之"); Lit (py "占比"); Lit (py "比例"); Lit (py "总和");
    Lit (py "平均"); Lit (py "增长率"); Lit (py "下降率"); Lit (py "平均值");
    Lit (py "总计"); Lit (py "percentage"); Lit (py "ratio"); Lit (py "sum");
    Lit (py "average"); Lit (py "growth rate"); Lit (py "decline rate");
    Lit (py "total") ].

Definition _detect_comparison (query_lower : pystr) : bool :=
  if any_in comparison_terms query_lower then true
  else existsb (fun p => re_search p query_lower) comparison_patterns.

Definition _detect_calculation (query_lower : pystr) : bool :=
  if any_in calculation_terms query_lower then true
  else existsb (fun p => re_search p query_lower) calculation_patterns.

Section Analyze.
Variable unicode_digit : N -> bool.
Variable str_lower : pystr -> pystr.

Definition analyze_intent (query : pystr) : intent :=
  let query_lower := str_lower query in
  {| data_type := _detect_data_type query_lower;
     granularity := _detect_granularity query_lower;
     time_focus := _detect_time_focus unicode_digit query;
     comparison := _detect_comparison query_lower;
     calculation := _detect_calculation query_lower;
     original_query := query |}.

End Analyze.

End Analyzer.

(** * Properties *)

(** ** Loops and sorting *)
Module LoopFacts.

(** *** Loops in the [result] monad *)

Lemma foldlM_invariant {A B : Type} (f : B -> A -> result B)
    (I : B -> Prop) (P : A -> Prop) (l : list A) (b : B) :
  (forall b x, I b -> P x -> exists b', f b x = Ok b' /\ I b') ->
  I b -> Forall P l -> exists b', foldlM f b l = Ok b' /\ I b'.
Proof.
  intros Hstep. revert b. induction l as [|x l IH]; intros b Hb Hl.
  - exists b. split; [reflexivity | exact Hb].
  - apply Forall_cons in Hl. destruct Hl as [Hx Hl].
    destruct (Hstep b x Hb Hx) as (b' & Hf & Hb').
    cbn. rewrite Hf. cbn. apply IH; assumption.
Qed.

Lemma foldlM_cons {A B : Type} (f : B -> A -> result B) (b : B) (x : A)
    (l : list A) :
  foldlM f b (x :: l) = f b x ≫= fun b' => foldlM f b' l.
Proof. reflexivity. Qed.

Lemma bind_Ok {A B : Type} (a : A) (f : A -> result B) : Ok a ≫= f = f a.
Proof. reflexivity. Qed.

Lemma elem_of_enumerate {A : Type} (l : list A) (i : nat) (x : A) :
  (i, x) ∈ enumerate l <-> l !! i = Some x.
Proof.
  unfold enumerate. rewrite elem_of_lookup_imap. split.
  - intros (j & y & Heq & Hl). injection Heq as -> ->. exact Hl.
  - intros Hl. exists i, x. split; [reflexivity | exact Hl].
Qed.

(** *** The sort is a permutation *)

Lemma insert_desc_perm {A K : Type} (lt : K -> K -> bool) (key : A -> K)
    (x : A) (l : list A) :
  insert_desc lt key x l ≡ₚ x :: l.
Proof.
  induction l as [|y l IH]; cbn; [reflexivity|].
  destruct (lt (key x) (key y)); [|reflexivity].
  rewrite IH. apply Permutation_swap.
Qed.

Lemma sort_reverse_perm {A K : Type} (lt : K -> K -> bool) (key : A -> K)
    (l : list A) :
  sort_reverse lt key l ≡ₚ l.
Proof.
  induction l as [|x l IH]; cbn; [reflexivity|].
  rewrite insert_desc_perm. rewrite IH. reflexivity.
Qed.

(** *** The sort under a strict weak order *)
Section SortOrder.
Context {A K : Type} (lt : K -> K -> bool) (key : A -> K).

(** The comparison is a strict weak order: what [<] is on numbers that are
    not NaN. *)
Definition strict_weak : Prop :=
  (forall a, lt a a = false) /\
  (forall a b c, lt a b = true -> lt b c = true -> lt a c = true) /\
  (forall a b c, lt a b = false -> lt b c = false -> lt a c = false).

(** [x] may stand before [y] in descending order. *)
Definition desc (x y : A) : Prop := lt (key x) (key y) = false.

(** [x] has a key equal to [s]. *)
Definition tied (s : K) (x : A) : bool :=
  negb (lt s (key x)) && negb (lt (key x) s).

Hypothesis order : strict_weak.

Lemma lt_asym (a b : K) : lt a b = true -> lt b a = false.
Proof.
  destruct order as (Hirr & Htr & _). intros Hab.
  destruct (lt b a) eqn:E; [|reflexivity].
  rewrite <- (Hirr a). symmetry. eapply Htr; eassumption.
Qed.

Lemma insert_desc_sorted (x : A) (l : list A) :
  StronglySorted desc l -> StronglySorted desc (insert_desc lt key x l).
Proof.
  destruct order as (Hirr & Htr & Hneg).
  induction l as [|y l IH]; intros Hs; cbn.
  - repeat constructor.
  - apply StronglySorted_inv in Hs. destruct Hs as [Hl Hy].
    destruct (lt (key x) (key y)) eqn:E.
    + constructor; [apply IH; exact Hl|].
      rewrite insert_desc_perm. constructor; [|exact Hy].
      apply lt_asym. exact E.
    + constructor; [constructor; assumption|].
      constructor; [exact E|].
      apply Forall_forall. intros z Hz. rewrite Forall_forall in Hy.
      eapply Hneg; [exact E|]. apply Hy. exact Hz.
Qed.

Lemma sort_reverse_sorted (l : list A) :
  StronglySorted desc (sort_reverse lt key l).
Proof.
  induction l as [|x l IH]; cbn; [constructor|].
  apply insert_desc_sorted. exact IH.
Qed.

Lemma tied_passes (s : K) (x y : A) :
  tied s x = true -> lt (key x) (key y) = true -> tied s y = false.
Proof.
  destruct order as (Hirr & Htr & Hneg). unfold tied.
  rewrite andb_true_iff, !negb_true_iff. intros [H1 H2] Hxy.
  apply andb_false_iff. rewrite !negb_false_iff.
  destruct (lt s (key y)) eqn:E; [left; reflexivity|].
  exfalso. rewrite (Hneg _ _ _ H2 E) in Hxy. discriminate.
Qed.

Lemma insert_desc_filter (s : K) (x : A) (l : list A) :
  List.filter (tied s) (insert_desc lt key x l)
  = if tied s x then x :: List.filter (tied s) l else List.filter (tied s) l.
Proof.
  induction l as [|y l IH]; cbn.
  - destruct (tied s x); reflexivity.
  - destruct (lt (key x) (key y)) eqn:E; cbn.
    + rewrite IH. destruct (tied s x) eqn:Ex.
      * rewrite (tied_passes s x y Ex E). reflexivity.
      * reflexivity.
    + destruct (tied s x); reflexivity.
Qed.

(** Stability: the elements of one key keep their order. *)
Lemma sort_reverse_stable (s : K) (l : list A) :
  List.filter (tied s) (sort_reverse lt key l) = List.filter (tied s) l.
Proof.
  unfold sort_reverse. induction l as [|x l IH]; [reflexivity|].
  cbn [foldr List.filter]. rewrite insert_desc_filter, IH. reflexivity.
Qed.

End SortOrder.

Lemma strongly_sorted_lookup {A : Type} (R : A -> A -> Prop) (l : list A)
    (i j : nat) (a b : A) :
  StronglySorted R l -> i < j -> l !! i = Some a -> l !! j = Some b ->
  R a b.
Proof.
  intros Hs. revert i j. induction Hs as [|x l Hl IH Hx]; intros i j Hij Hi Hj.
  - rewrite lookup_nil in Hi. discriminate.
  - destruct j as [|j]; [lia|]. cbn in Hj. destruct i as [|i].
    + cbn in Hi. injection Hi as <-. rewrite Forall_forall in Hx.
      apply Hx. eapply list_elem_of_lookup_2. exact Hj.
    + cbn in Hi. apply (IH i j); [lia|assumption|assumption].
Qed.

End LoopFacts.

(** ** The table detector *)
Module DetectorFacts.
Import Detector LoopFacts.

Example detect_A_B :
  _detect_nested_relationships 2 [table_A; table_B]
  = Ok [table_A;
        set_nesting_level 1 (set_parent_id (py "page_0_table_0") table_B)].
Proof. vm_compute. reflexivity. Qed.

(** *** Arithmetic of the containment test *)

Lemma Qltb_lt (x y : Q) : Qltb x y = true <-> (x < y)%Q.
Proof.
  unfold Qltb. rewrite negb_true_iff. split.
  - intros H. apply Qnot_le_lt. intros Hle.
    apply Qle_bool_iff in Hle. congruence.
  - intros H. destruct (Qle_bool y x) eqn:E; [|reflexivity].
    apply Qle_bool_iff in E. exfalso. exact (Qlt_not_le _ _ H E).
Qed.

Lemma Qltb_ge (x y : Q) : Qltb x y = false <-> (y <= x)%Q.
Proof.
  unfold Qltb. rewrite negb_false_iff. apply Qle_bool_iff.
Qed.

Lemma py_max_Qmax (a b : Q) : (py_max a b == Qmax a b)%Q.
Proof.
  unfold py_max. destruct (Qltb a b) eqn:E.
  - apply Qltb_lt in E. symmetry. apply Q.max_r. lra.
  - apply Qltb_ge in E. symmetry. apply Q.max_l. lra.
Qed.

Lemma py_min_Qmin (a b : Q) : (py_min a b == Qmin a b)%Q.
Proof.
  unfold py_min. destruct (Qltb b a) eqn:E.
  - apply Qltb_lt in E. symmetry. apply Q.min_r. lra.
  - apply Qltb_ge in E. symmetry. apply Q.min_l. lra.
Qed.

Lemma py_max_bounds (a b : Q) : (a <= py_max a b /\ b <= py_max a b)%Q.
Proof.
  unfold py_max. destruct (Qltb a b) eqn:E.
  - apply Qltb_lt in E. lra.
  - apply Qltb_ge in E. lra.
Qed.

Lemma py_min_bounds (a b : Q) : (py_min a b <= a /\ py_min a b <= b)%Q.
Proof.
  unfold py_min. destruct (Qltb b a) eqn:E.
  - apply Qltb_lt in E. lra.
  - apply Qltb_ge in E. lra.
Qed.

Lemma py_div_pos (a b : Q) : (0 < b)%Q -> py_div a b = Ok (a / b)%Q.
Proof.
  intros Hb. unfold py_div. destruct (Qeq_bool b 0) eqn:E; [|reflexivity].
  apply Qeq_bool_eq in E. lra.
Qed.

Lemma Qdiv_lt_shrinks (a b : Q) : (0 < b -> a / b < 0.9 -> a < b)%Q.
Proof.
  intros Hb Hr.
  assert (Ha : (a == b * (a / b))%Q) by (symmetry; apply Qmult_div_r; lra).
  rewrite Ha. set (r := (a / b)%Q) in *. nra.
Qed.

(** The intersection the code computes, and its test as one boolean. *)
Definition code_intersection (inner outer : rect) : rect :=
  let '(ix1, iy1, ix2, iy2) := inner in
  let '(ox1, oy1, ox2, oy2) := outer in
  (py_max ix1 ox1, py_max iy1 oy1, py_min ix2 ox2, py_min iy2 oy2).

Definition nonempty_b (r : rect) : bool :=
  let '(x1, y1, x2, y2) := r in Qltb x1 x2 && Qltb y1 y2.

Lemma nonempty_areas (inner outer : rect) :
  nonempty_b (code_intersection inner outer) = true ->
  (0 < _calculate_area inner /\ 0 < _calculate_area outer)%Q.
Proof.
  destruct inner as [[[ix1 iy1] ix2] iy2], outer as [[[ox1 oy1] ox2] oy2].
  cbn. rewrite andb_true_iff, !Qltb_lt. intros [Hx Hy].
  pose proof (py_max_bounds ix1 ox1). pose proof (py_max_bounds iy1 oy1).
  pose proof (py_min_bounds ix2 ox2). pose proof (py_min_bounds iy2 oy2).
  split; apply Qmult_lt_0_compat; lra.
Qed.

(** On rationals the test does not raise: both divisors are positive once
    the intersection is not empty.  (On floats an area can round to zero,
    see [DetectorFloat].) *)
Lemma is_contained_eq (inner outer : rect) (threshold : Q) :
  _is_contained inner outer threshold =
  Ok (nonempty_b (code_intersection inner outer)
      && (Qltb threshold (_calculate_area (code_intersection inner outer)
                          / _calculate_area inner)
          && Qltb (_calculate_area inner / _calculate_area outer) 0.9)).
Proof.
  destruct (nonempty_b (code_intersection inner outer)) eqn:E.
  - destruct (nonempty_areas _ _ E) as [Hi Ho].
    destruct inner as [[[ix1 iy1] ix2] iy2], outer as [[[ox1 oy1] ox2] oy2].
    cbn in *. apply andb_true_iff in E. destruct E as [Ex Ey].
    unfold Qltb in Ex, Ey. apply negb_true_iff in Ex, Ey.
    rewrite Ex, Ey. cbn.
    rewrite (py_div_pos _ _ Hi). cbn. rewrite (py_div_pos _ _ Ho). reflexivity.
  - destruct inner as [[[ix1 iy1] ix2] iy2], outer as [[[ox1 oy1] ox2] oy2].
    cbn in *. apply andb_false_iff in E. unfold Qltb in E.
    rewrite !negb_false_iff in E.
    destruct E as [E|E]; rewrite E; [reflexivity|].
    rewrite orb_true_r. reflexivity.
Qed.

Lemma is_contained_total (inner outer : rect) (threshold : Q) :
  exists b, _is_contained inner outer threshold = Ok b.
Proof. rewrite is_contained_eq. eauto. Qed.

(** A region that passes the test is strictly smaller than the outer one. *)
Lemma is_contained_area (inner outer : rect) (threshold : Q) :
  _is_contained inner outer threshold = Ok true ->
  (_calculate_area inner < _calculate_area outer)%Q.
Proof.
  rewrite is_contained_eq. intros H. injection H as H.
  apply andb_true_iff in H. destruct H as [Hne H].
  apply andb_true_iff in H. destruct H as [_ Hr].
  destruct (nonempty_areas _ _ Hne) as [_ Ho].
  apply Qltb_lt in Hr. exact (Qdiv_lt_shrinks _ _ Ho Hr).
Qed.

Lemma code_intersection_spec (A B : rect) :
  let '(x1, y1, x2, y2) := code_intersection B A in
  let '(sx1, sy1, sx2, sy2) := spec_intersection A B in
  (x1 == sx1 /\ y1 == sy1 /\ x2 == sx2 /\ y2 == sy2)%Q.
Proof.
  destruct A as [[[ax1 ay1] ax2] ay2], B as [[[bx1 by1] bx2] by2]. cbn.
  rewrite !py_max_Qmax, !py_min_Qmin.
  rewrite (Q.max_comm bx1), (Q.max_comm by1), (Q.min_comm bx2),
    (Q.min_comm by2).
  repeat split; reflexivity.
Qed.

(** *** Parent assignment *)

Definition static_eq (a b : table) : Prop :=
  page a = page b /\ bbox a = bbox b /\ table_id a = table_id b.

(** What the assignment loops maintain about the store [st] they reach from
    [ts]: tables are only touched in their [parent_id], and a new parent is
    a table of the list that passed the containment test. *)
Definition assigned (ts st : store) : Prop :=
  length st = length ts /\
  forall k t', st !! k = Some t' ->
    exists t, ts !! k = Some t /\ static_eq t t' /\
      nesting_level t' = nesting_level t /\
      (parent_id t' = parent_id t \/
       exists o, o ∈ ts /\ parent_id t' = Some (table_id o) /\
         _is_contained (bbox t) (bbox o) default_threshold = Ok true).

Lemma assigned_refl (ts : store) : assigned ts ts.
Proof.
  split; [reflexivity|]. intros k t' Hk. exists t'.
  repeat split; auto.
Qed.

Definition valid_ref (ts : store) (r : ref) : Prop := ts !! r.1 = Some r.2.

Lemma relate_assigned (ts st : store) (outer inner : nat * ref) :
  assigned ts st -> valid_ref ts outer.2 -> valid_ref ts inner.2 ->
  exists st', relate st outer inner = Ok st' /\ assigned ts st'.
Proof.
  destruct outer as [i [ko o]], inner as [j [k n]]. unfold valid_ref. cbn.
  intros [Hlen Hst] Ho Hn. unfold relate.
  destruct (bool_decide (i <> j)); [|exists st; split; [reflexivity|split; auto]].
  destruct (is_contained_total (bbox n) (bbox o) default_threshold) as [c Hc].
  rewrite Hc. cbn. destruct c; [|exists st; split; [reflexivity|split; auto]].
  exists (alter (set_parent_id (table_id o)) k st).
  split; [reflexivity|]. split.
  - rewrite length_alter. exact Hlen.
  - intros k' t'. destruct (decide (k = k')) as [<-|Hne].
    + rewrite list_lookup_alter_eq. intros Hk.
      destruct (st !! k) as [t0|] eqn:E; [|discriminate].
      cbn in Hk. injection Hk as <-.
      destruct (Hst k t0 E) as (t & Ht & (Hp & Hb & Hid) & Hlvl & _).
      exists t. split; [exact Ht|]. split; [repeat split; assumption|].
      split; [exact Hlvl|]. right. exists o. split.
      * eapply list_elem_of_lookup_2. exact Ho.
      * split; [reflexivity|]. congruence.
    + rewrite list_lookup_alter_ne by exact Hne. apply Hst.
Qed.

Lemma relate_page_assigned (ts st : store) (page_tables : list ref) :
  assigned ts st -> Forall (valid_ref ts) page_tables ->
  exists st', relate_page page_tables st = Ok st' /\ assigned ts st'.
Proof.
  intros Hst Hrefs. unfold relate_page.
  assert (Henum : Forall (fun r : nat * ref => valid_ref ts r.2)
                    (enumerate page_tables)).
  { apply Forall_forall. intros [i r] Hin. apply elem_of_enumerate in Hin.
    rewrite Forall_forall in Hrefs. apply Hrefs.
    eapply list_elem_of_lookup_2. exact Hin. }
  apply (foldlM_invariant _ (assigned ts)
           (fun r : nat * ref => valid_ref ts r.2)); [|exact Hst|exact Henum].
  intros st1 outer Hst1 Houter.
  apply (foldlM_invariant _ (assigned ts)
           (fun r : nat * ref => valid_ref ts r.2)); [|exact Hst1|exact Henum].
  intros st2 inner Hst2 Hinner. apply relate_assigned; assumption.
Qed.

(** The references held by [tables_by_page] point into [tables_info]. *)
Lemma group_add_refs (P : ref -> Prop) (p : nat) (r : ref)
    (g : list (nat * list ref)) :
  P r -> Forall (fun e => Forall P e.2) g ->
  Forall (fun e => Forall P e.2) (group_add p r g).
Proof.
  intros Hr. induction g as [|[q l] g IH]; cbn; intros Hg.
  - repeat constructor. exact Hr.
  - apply Forall_cons in Hg. destruct Hg as [Hl Hg]. cbn in Hl.
    destruct (p =? q)%nat.
    + constructor; [|exact Hg]. cbn. apply Forall_app. split; [exact Hl|].
      repeat constructor. exact Hr.
    + constructor; [exact Hl|]. apply IH. exact Hg.
Qed.

Lemma tables_by_page_refs (ts : store) :
  Forall (fun e => Forall (valid_ref ts) e.2) (tables_by_page ts).
Proof.
  unfold tables_by_page.
  assert (H : forall (l : list ref) g,
             Forall (valid_ref ts) l ->
             Forall (fun e => Forall (valid_ref ts) e.2) g ->
             Forall (fun e => Forall (valid_ref ts) e.2)
               (foldl (fun g r => group_add (page r.2) r g) g l)).
  { induction l as [|r l IH]; cbn; intros g Hl Hg; [exact Hg|].
    apply Forall_cons in Hl. destruct Hl as [Hr Hl].
    apply IH; [exact Hl|]. apply group_add_refs; assumption. }
  apply H; [|constructor].
  apply Forall_forall. intros [k t] Hin. apply elem_of_enumerate in Hin.
  exact Hin.
Qed.

Lemma assignment_total (ts : store) :
  exists st,
    foldlM (fun st g => relate_page (sort_by_area g.2) st) ts
           (tables_by_page ts) = Ok st /\ assigned ts st.
Proof.
  apply (foldlM_invariant _ (assigned ts)
           (fun e : nat * list ref => Forall (valid_ref ts) e.2)).
  - intros st g Hst Hg. apply relate_page_assigned; [exact Hst|].
    unfold sort_by_area. rewrite sort_reverse_perm. exact Hg.
  - apply assigned_refl.
  - apply tables_by_page_refs.
Qed.

(** *** The dictionary from table ids to positions *)

Lemma enumerate_snoc {A : Type} (l : list A) (x : A) :
  enumerate (l ++ [x]) = enumerate l ++ [(length l, x)].
Proof.
  unfold enumerate. rewrite imap_app. cbn. rewrite Nat.add_0_r. reflexivity.
Qed.

Lemma build_index_snoc (ts : store) (t : table) :
  build_table_id_to_index (ts ++ [t])
  = <[table_id t := length ts]> (build_table_id_to_index ts).
Proof.
  unfold build_table_id_to_index. rewrite enumerate_snoc, foldl_app.
  reflexivity.
Qed.

Lemma index_lookup_sound (ts : store) (id : pystr) (i : nat) :
  build_table_id_to_index ts !! id = Some i ->
  exists t, ts !! i = Some t /\ table_id t = id.
Proof.
  induction ts as [|t ts IH] using rev_ind.
  - unfold build_table_id_to_index. cbn. rewrite lookup_empty. discriminate.
  - rewrite build_index_snoc, lookup_insert. case_decide as Heq.
    + intros H. injection H as <-. exists t. split; [|exact Heq].
      rewrite lookup_app_r by lia. rewrite Nat.sub_diag. reflexivity.
    + intros H. destruct (IH H) as (t' & Ht' & Hid). exists t'.
      split; [|exact Hid]. rewrite lookup_app_l; [exact Ht'|].
      eapply lookup_lt_Some. exact Ht'.
Qed.

Lemma index_lookup_complete (ts : store) (t : table) :
  t ∈ ts -> is_Some (build_table_id_to_index ts !! table_id t).
Proof.
  induction ts as [|t' ts IH] using rev_ind.
  - intros H. inversion H.
  - intros H. rewrite build_index_snoc, lookup_insert. case_decide; [eauto|].
    apply elem_of_app in H. destruct H as [H|H]; [apply IH; exact H|].
    apply list_elem_of_singleton in H. congruence.
Qed.

Lemma index_lookup_unique (ts : store) (t : table) (i : nat) :
  NoDup (table_id <$> ts) -> ts !! i = Some t ->
  build_table_id_to_index ts !! table_id t = Some i.
Proof.
  intros Hnd Hi.
  destruct (index_lookup_complete ts t) as [j Hj].
  { eapply list_elem_of_lookup_2. exact Hi. }
  rewrite Hj. f_equal.
  destruct (index_lookup_sound _ _ _ Hj) as (t' & Ht' & Hid).
  eapply (NoDup_lookup _ _ _ _ Hnd).
  - rewrite list_lookup_fmap, Ht'. cbn. rewrite Hid. reflexivity.
  - rewrite list_lookup_fmap, Hi. reflexivity.
Qed.

(** *** The fixpoint loop as a relaxation

    [st0] is the list when the loop starts, [idx] the id dictionary, and
    [d i] the depth of position [i] in the parent relation. *)
Section Relaxation.
Variables (idx : gmap pystr nat) (st0 : list table) (d : nat -> nat).

Definition par (i : nat) : option nat :=
  t ← st0 !! i; pid ← parent_id t; idx !! pid.

Hypothesis resolved : forall i t pid,
  st0 !! i = Some t -> parent_id t = Some pid ->
  exists p, idx !! pid = Some p /\ p < length st0.
Hypothesis d_child : forall i p, par i = Some p -> d i = S (d p).
Hypothesis d_root : forall i, par i = None -> d i = 0.
Hypothesis d_bound : forall i, i < length st0 -> d i < length st0.

(** The loop only writes [nesting_level]. *)
Definition shape (st : list table) : Prop :=
  length st = length st0 /\
  forall i t, st !! i = Some t ->
    exists t0, st0 !! i = Some t0 /\ t = set_nesting_level (nesting_level t) t0.

Definition lv (st : list table) (i : nat) : nat :=
  match st !! i with Some t => nesting_level t | None => 0 end.

Definition upper (st : list table) : Prop := forall i, lv st i <= d i.
Definition lower (k : nat) (st : list table) : Prop :=
  forall i, Nat.min (d i) k <= lv st i.
Definition stable (st : list table) (i : nat) : Prop :=
  forall p, par i = Some p -> lv st p < lv st i.

Lemma par_None_ge (i : nat) : length st0 <= i -> par i = None.
Proof.
  intros H. unfold par. rewrite (lookup_ge_None_2 st0 i H). reflexivity.
Qed.

Lemma shape_refl : shape st0.
Proof.
  split; [reflexivity|]. intros i t Hi. exists t. split; [exact Hi|].
  destruct t; reflexivity.
Qed.

Lemma nesting_step_spec (st : list table) (ch : bool) (i : nat) :
  shape st -> upper st -> i < length st0 ->
  exists st' ch',
    nesting_step idx (st, ch) i = Ok (st', ch') /\
    shape st' /\ upper st' /\
    (forall j, lv st j <= lv st' j) /\
    (forall k, lower k st -> Nat.min (d i) (S k) <= lv st' i) /\
    (stable st i -> st' = st /\ ch' = ch) /\
    ((st' = st /\ ch' = ch /\ stable st i) \/ ch' = true).
Proof.
  intros [Hlen Hsh] Hub Hi. unfold nesting_step.
  destruct (lookup_lt_is_Some_2 st i) as [t Ht]; [lia|]. rewrite Ht.
  destruct (Hsh i t Ht) as (t0 & Ht0 & Heq).
  assert (Hpid : parent_id t = parent_id t0) by (rewrite Heq; reflexivity).
  assert (Hlvi : lv st i = nesting_level t) by (unfold lv; rewrite Ht; reflexivity).
  destruct (parent_id t0) as [pid|] eqn:Ep; rewrite Hpid.
  - destruct (resolved i t0 pid Ht0 Ep) as (p & Hp & Hpn). rewrite Hp.
    assert (Hpar : par i = Some p).
    { unfold par. rewrite Ht0. cbn. rewrite Ep. cbn. exact Hp. }
    destruct (lookup_lt_is_Some_2 st p) as [tp Htp]; [lia|]. rewrite Htp.
    assert (Hlvp : lv st p = nesting_level tp) by (unfold lv; rewrite Htp; reflexivity).
    pose proof (d_child i p Hpar) as Hd.
    destruct (nesting_level t <=? nesting_level tp)%nat eqn:Ecmp.
    + apply Nat.leb_le in Ecmp.
      exists (<[i := set_nesting_level (nesting_level tp + 1) t]> st), true.
      assert (Hnew : lv (<[i := set_nesting_level (nesting_level tp + 1) t]> st) i
                     = nesting_level tp + 1).
      { unfold lv. rewrite list_lookup_insert_eq by lia. reflexivity. }
      assert (Hother : forall j, j <> i ->
                lv (<[i := set_nesting_level (nesting_level tp + 1) t]> st) j
                = lv st j).
      { intros j Hj. unfold lv. rewrite list_lookup_insert_ne by congruence.
        reflexivity. }
      split; [reflexivity|]. split.
      { split; [rewrite length_insert; exact Hlen|].
        intros j t' Hj. destruct (decide (i = j)) as [<-|Hne].
        - rewrite list_lookup_insert_eq in Hj by lia. injection Hj as <-.
          exists t0. split; [exact Ht0|]. rewrite Heq. reflexivity.
        - rewrite list_lookup_insert_ne in Hj by exact Hne. apply Hsh, Hj. }
      split.
      { intros j. destruct (decide (j = i)) as [->|Hne].
        - rewrite Hnew, Hd. specialize (Hub p). lia.
        - rewrite (Hother j Hne). apply Hub. }
      split.
      { intros j. destruct (decide (j = i)) as [->|Hne].
        - rewrite Hnew. lia.
        - rewrite (Hother j Hne). lia. }
      split.
      { intros k Hk. rewrite Hnew, Hd. specialize (Hk p). lia. }
      split; [|right; reflexivity].
      intros Hs. specialize (Hs p Hpar). lia.
    + apply Nat.leb_gt in Ecmp. exists st, ch.
      assert (Hs : stable st i).
      { intros p' Hp'. rewrite Hpar in Hp'. injection Hp' as <-. lia. }
      split; [reflexivity|]. split; [split; assumption|].
      split; [exact Hub|]. split; [intros j; lia|]. split.
      { intros k Hk. rewrite Hd. specialize (Hk p). lia. }
      split; [intros _; split; reflexivity|]. left. repeat split. exact Hs.
  - assert (Hpar : par i = None).
    { unfold par. rewrite Ht0. cbn. rewrite Ep. reflexivity. }
    exists st, ch.
    assert (Hs : stable st i).
    { intros p' Hp'. rewrite Hpar in Hp'. discriminate. }
    split; [reflexivity|]. split; [split; assumption|].
    split; [exact Hub|]. split; [intros j; lia|]. split.
    { intros k _. rewrite (d_root i Hpar). cbn. lia. }
    split; [intros _; split; reflexivity|]. left. repeat split. exact Hs.
Qed.

Lemma lower_mono (k : nat) (st st' : list table) :
  (forall j, lv st j <= lv st' j) -> lower k st -> lower k st'.
Proof. intros Hm Hl i. specialize (Hm i). specialize (Hl i). lia. Qed.

(** The [for] loop over a list [ixs] of positions. *)
Lemma nesting_steps_spec (ixs : list nat) (st : list table) (ch : bool) :
  shape st -> upper st -> Forall (fun i => i < length st0) ixs ->
  exists st' ch',
    foldlM (nesting_step idx) (st, ch) ixs = Ok (st', ch') /\
    shape st' /\ upper st' /\
    (forall j, lv st j <= lv st' j) /\
    (forall k, lower k st ->
       Forall (fun i => Nat.min (d i) (S k) <= lv st' i) ixs) /\
    (Forall (stable st) ixs -> st' = st /\ ch' = ch) /\
    (ch' = false -> ch = false /\ st' = st /\ Forall (stable st) ixs).
Proof.
  revert st ch. induction ixs as [|i ixs IH]; intros st ch Hsh Hub His.
  - exists st, ch. cbn. split; [reflexivity|]. split; [exact Hsh|].
    split; [exact Hub|]. split; [intros j; lia|].
    split; [intros k _; constructor|]. split; [intros _; split; reflexivity|].
    intros ->. repeat split. constructor.
  - apply Forall_cons in His. destruct His as [Hi His].
    destruct (nesting_step_spec st ch i Hsh Hub Hi)
      as (st1 & ch1 & Hstep & Hsh1 & Hub1 & Hm1 & Hlo1 & Hst1 & Hfl1).
    destruct (IH st1 ch1 Hsh1 Hub1 His)
      as (st' & ch' & Hfold & Hsh' & Hub' & Hm' & Hlo' & Hst' & Hfl').
    exists st', ch'. rewrite foldlM_cons, Hstep, bind_Ok.
    split; [exact Hfold|]. split; [exact Hsh'|]. split; [exact Hub'|].
    split; [intros j; specialize (Hm1 j); specialize (Hm' j); lia|].
    split.
    { intros k Hk. constructor.
      - specialize (Hlo1 k Hk). specialize (Hm' i). lia.
      - apply Hlo'. eapply lower_mono; eassumption. }
    split.
    { intros Hall. apply Forall_cons in Hall. destruct Hall as [Hsi Hall].
      destruct (Hst1 Hsi) as [-> ->]. apply Hst'. exact Hall. }
    intros Hch. destruct (Hfl' Hch) as (Hch1 & -> & Hall).
    destruct Hfl1 as [(-> & -> & Hsi)|Htrue]; [|congruence].
    repeat split; [exact Hch1|]. constructor; assumption.
Qed.

Lemma nesting_pass_spec (st : list table) :
  shape st -> upper st ->
  exists st' ch',
    nesting_pass idx st = Ok (st', ch') /\
    shape st' /\ upper st' /\
    (forall k, lower k st -> lower (S k) st') /\
    ((forall i, stable st i) -> st' = st /\ ch' = false) /\
    (ch' = false -> st' = st /\ forall i, stable st i).
Proof.
  intros Hsh Hub. pose proof Hsh as [Hlen _].
  assert (His : Forall (fun i => i < length st0) (seq 0 (length st))).
  { apply Forall_forall. intros i Hin. apply elem_of_seq in Hin. lia. }
  destruct (nesting_steps_spec _ st false Hsh Hub His)
    as (st' & ch' & Hfold & Hsh' & Hub' & Hm & Hlo & Hst & Hfl).
  exists st', ch'. split; [exact Hfold|]. split; [exact Hsh'|].
  split; [exact Hub'|]. split.
  { intros k Hk i. destruct (decide (i < length st0)) as [Hi|Hi].
    - specialize (Hlo k Hk). rewrite Forall_forall in Hlo. apply Hlo.
      apply elem_of_seq. lia.
    - rewrite (d_root i) by (apply par_None_ge; lia). cbn. lia. }
  split.
  { intros Hall. apply Hst. apply Forall_forall. intros i _. apply Hall. }
  intros Hch. destruct (Hfl Hch) as (_ & -> & Hall). split; [reflexivity|].
  intros i. destruct (decide (i < length st0)) as [Hi|Hi].
  - rewrite Forall_forall in Hall. apply Hall. apply elem_of_seq. lia.
  - intros p Hp. rewrite par_None_ge in Hp by lia. discriminate.
Qed.

(** Once every level has reached its depth, nothing moves. *)
Lemma settled_stable (st : list table) :
  upper st -> lower (length st0 - 1) st -> forall i, stable st i.
Proof.
  intros Hub Hlo i p Hp.
  pose proof (d_child i p Hp) as Hd.
  destruct (decide (i < length st0)) as [Hi|Hi];
    [|rewrite par_None_ge in Hp by lia; discriminate].
  assert (Hpn : p < length st0).
  { unfold par in Hp. destruct (st0 !! i) as [t|] eqn:Et; [|discriminate].
    cbn in Hp. destruct (parent_id t) as [pid|] eqn:Ep; [|discriminate].
    cbn in Hp. destruct (resolved i t pid Et Ep) as (p' & Hp' & Hlt).
    congruence. }
  pose proof (d_bound i Hi). pose proof (d_bound p Hpn).
  pose proof (Hub i). pose proof (Hub p).
  pose proof (Hlo i). pose proof (Hlo p). lia.
Qed.

(** The [while] loop: started after [k] passes, it needs at most
    [length st0 - k] further passes, the last of which changes nothing. *)
Lemma nesting_loop_spec (fuel k : nat) (st : list table) :
  shape st -> upper st -> lower k st ->
  1 <= fuel -> length st0 <= k + fuel ->
  exists r,
    nesting_loop idx fuel st = Ok r /\ shape r /\ upper r /\
    nesting_pass idx r = Ok (r, false) /\ forall i, stable r i.
Proof.
  revert k st. induction fuel as [|fuel IH]; intros k st Hsh Hub Hlo Hf Hk;
    [lia|].
  destruct (nesting_pass_spec st Hsh Hub)
    as (st' & ch' & Hpass & Hsh' & Hub' & Hlo' & Hst & Hfl).
  cbn. rewrite Hpass. cbn. destruct ch'.
  - destruct fuel as [|fuel].
    + assert (Hall : forall i, stable st i).
      { apply settled_stable; [exact Hub|].
        intros i. specialize (Hlo i). lia. }
      destruct (Hst Hall) as [_ Hch]. discriminate.
    + apply (IH (S k)); [exact Hsh'|exact Hub'|apply Hlo'; exact Hlo|lia|lia].
  - destruct (Hfl eq_refl) as [-> Hall]. exists st.
    split; [reflexivity|]. split; [exact Hsh|]. split; [exact Hub|].
    split; [exact Hpass|exact Hall].
Qed.

End Relaxation.

(** The loop's answer does not depend on spare fuel. *)
Lemma nesting_loop_fuel_mono (idx : gmap pystr nat) (fuel fuel' : nat)
    (st r : list table) :
  fuel <= fuel' -> nesting_loop idx fuel st = Ok r ->
  nesting_loop idx fuel' st = Ok r.
Proof.
  revert fuel' st. induction fuel as [|fuel IH]; intros fuel' st Hle H;
    [discriminate|].
  destruct fuel' as [|fuel']; [lia|]. cbn in *.
  destruct (nesting_pass idx st) as [[st' ch']| |]; cbn in *;
    try discriminate.
  destruct ch'; [|exact H]. apply IH; [lia|exact H].
Qed.

(** *** Depth of a table in a parent relation that follows areas *)

Definition area_of (t : table) : Q := _calculate_area (bbox t).

(** Every [parent_id] names a table of the list with a larger area: what
    the containment test guarantees. *)
Definition parents_larger (ts : list table) : Prop :=
  forall t pid, t ∈ ts -> parent_id t = Some pid ->
    exists q, q ∈ ts /\ table_id q = pid /\ (area_of t < area_of q)%Q.

(** The number of tables strictly larger than [t]. *)
Definition rank (ts : list table) (t : table) : nat :=
  length (List.filter (fun q => Qltb (area_of t) (area_of q)) ts).

Definition rank_at (ts : list table) (i : nat) : nat :=
  match ts !! i with Some t => rank ts t | None => 0 end.

Fixpoint depth (idx : gmap pystr nat) (st0 : list table) (fuel i : nat)
  : nat :=
  match fuel with
  | O => 0
  | S fuel' =>
      match par idx st0 i with
      | Some p => S (depth idx st0 fuel' p)
      | None => 0
      end
  end.

Lemma filter_length_le {A : Type} (f g : A -> bool) (l : list A) :
  (forall x, f x = true -> g x = true) ->
  length (List.filter f l) <= length (List.filter g l).
Proof.
  intros Hfg. induction l as [|x l IH]; cbn; [lia|].
  destruct (f x) eqn:Ef.
  - rewrite (Hfg x Ef). cbn. lia.
  - destruct (g x); cbn; lia.
Qed.

Lemma filter_length_lt {A : Type} (f g : A -> bool) (l : list A) (y : A) :
  (forall x, f x = true -> g x = true) ->
  y ∈ l -> f y = false -> g y = true ->
  length (List.filter f l) < length (List.filter g l).
Proof.
  intros Hfg Hin Hf Hg. induction l as [|x l IH]; [inversion Hin|].
  apply elem_of_cons in Hin. cbn. destruct Hin as [<-|Hin].
  - rewrite Hf, Hg. cbn. pose proof (filter_length_le f g l Hfg). lia.
  - specialize (IH Hin). destruct (f x) eqn:Ef.
    + rewrite (Hfg x Ef). cbn. lia.
    + destruct (g x); cbn; lia.
Qed.

Lemma filter_length_drop {A : Type} (f : A -> bool) (l : list A) (y : A) :
  y ∈ l -> f y = false -> length (List.filter f l) < length l.
Proof.
  intros Hin Hf. induction l as [|x l IH]; [inversion Hin|].
  apply elem_of_cons in Hin. cbn. destruct Hin as [<-|Hin].
  - rewrite Hf. pose proof (List.filter_length_le f l). lia.
  - specialize (IH Hin). destruct (f x); cbn; lia.
Qed.

Lemma rank_lt_length (ts : list table) (t : table) :
  t ∈ ts -> rank ts t < length ts.
Proof.
  intros Hin. unfold rank. apply (filter_length_drop _ ts t Hin).
  apply Qltb_ge. apply Qle_refl.
Qed.

Lemma rank_larger (ts : list table) (t q : table) :
  q ∈ ts -> (area_of t < area_of q)%Q -> rank ts q < rank ts t.
Proof.
  intros Hin Hlt. unfold rank.
  apply (filter_length_lt _ _ ts q); [|exact Hin| |].
  - intros x Hx. apply Qltb_lt in Hx. apply Qltb_lt. lra.
  - apply Qltb_ge. apply Qle_refl.
  - apply Qltb_lt. exact Hlt.
Qed.

(** The invariant of the data model. *)
Definition nesting_invariant (r : list table) : Prop :=
  forall t, t ∈ r ->
    match parent_id t with
    | None => nesting_level t = 0
    | Some pid =>
        exists p, p ∈ r /\ table_id p = pid /\
                  nesting_level p < nesting_level t
    end.

Section Levels.
Variable ts : list table.
Hypothesis ids_unique : NoDup (table_id <$> ts).
Hypothesis larger : parents_larger ts.

Local Abbreviation idx := (build_table_id_to_index ts).
Local Abbreviation st0 := (set_nesting_level 0 <$> ts).
Local Abbreviation n := (length ts).

Lemma st0_lookup (i : nat) (t0 : table) :
  st0 !! i = Some t0 ->
  exists t, ts !! i = Some t /\ t0 = set_nesting_level 0 t.
Proof.
  rewrite list_lookup_fmap. destruct (ts !! i) as [t|]; [|discriminate].
  cbn. intros H. injection H as <-. eauto.
Qed.

Lemma parent_position (t : table) (pid : pystr) :
  t ∈ ts -> parent_id t = Some pid ->
  exists p q, idx !! pid = Some p /\ ts !! p = Some q /\
              table_id q = pid /\ (area_of t < area_of q)%Q.
Proof.
  intros Hin Hp. destruct (larger t pid Hin Hp) as (q & Hq & Hid & Hlt).
  apply list_elem_of_lookup_1 in Hq. destruct Hq as [p Hq].
  exists p, q. rewrite <- Hid.
  split; [apply index_lookup_unique; assumption|]. auto.
Qed.

Lemma par_spec (i p : nat) :
  par idx st0 i = Some p ->
  exists t q, ts !! i = Some t /\ ts !! p = Some q /\
              (area_of t < area_of q)%Q.
Proof.
  unfold par. destruct (st0 !! i) as [t0|] eqn:E0; [|discriminate].
  destruct (st0_lookup i t0 E0) as (t & Ht & ->). cbn.
  destruct (parent_id t) as [pid|] eqn:Ep; [|discriminate]. cbn.
  intros Hp.
  destruct (parent_position t pid) as (p' & q & Hp' & Hq & _ & Hlt);
    [eapply list_elem_of_lookup_2; exact Ht|exact Ep|].
  assert (p' = p) as -> by congruence. eauto.
Qed.

Lemma levels_resolved (i : nat) (t0 : table) (pid : pystr) :
  st0 !! i = Some t0 -> parent_id t0 = Some pid ->
  exists p, idx !! pid = Some p /\ p < length st0.
Proof.
  intros H0 Hp. destruct (st0_lookup i t0 H0) as (t & Ht & ->).
  destruct (parent_position t pid) as (p & q & Hidx & Hq & _);
    [eapply list_elem_of_lookup_2; exact Ht|exact Hp|].
  exists p. split; [exact Hidx|]. rewrite length_fmap.
  eapply lookup_lt_Some. exact Hq.
Qed.

Lemma par_rank (i p : nat) :
  par idx st0 i = Some p -> rank_at ts p < rank_at ts i /\ rank_at ts i < n.
Proof.
  intros H. destruct (par_spec i p H) as (t & q & Ht & Hq & Hlt).
  unfold rank_at. rewrite Ht, Hq. split.
  - apply rank_larger; [eapply list_elem_of_lookup_2; exact Hq|exact Hlt].
  - apply rank_lt_length. eapply list_elem_of_lookup_2. exact Ht.
Qed.

Lemma depth_stable (fuel i : nat) :
  rank_at ts i < fuel -> depth idx st0 fuel i = depth idx st0 (S fuel) i.
Proof.
  revert i. induction fuel as [|fuel IH]; intros i Hr; [lia|].
  cbn [depth]. destruct (par idx st0 i) as [p|] eqn:Ep; [|reflexivity].
  f_equal. apply IH. destruct (par_rank i p Ep). lia.
Qed.

Lemma depth_le_rank (fuel i : nat) : depth idx st0 fuel i <= rank_at ts i.
Proof.
  revert i. induction fuel as [|fuel IH]; intros i; cbn [depth]; [lia|].
  destruct (par idx st0 i) as [p|] eqn:Ep; [|lia].
  destruct (par_rank i p Ep). specialize (IH p). lia.
Qed.

Lemma depth_child (i p : nat) :
  par idx st0 i = Some p -> depth idx st0 n i = S (depth idx st0 n p).
Proof.
  intros Hp. destruct (par_rank i p Hp) as [Hlt Hn].
  destruct n as [|m] eqn:En; [lia|]. cbn [depth]. rewrite Hp. f_equal.
  apply depth_stable. lia.
Qed.

Lemma depth_root (i : nat) :
  par idx st0 i = None -> depth idx st0 n i = 0.
Proof. intros Hp. destruct n; cbn [depth]; [reflexivity|]. rewrite Hp. reflexivity. Qed.

Lemma depth_bound (i : nat) :
  i < length st0 -> depth idx st0 n i < length st0.
Proof.
  rewrite length_fmap. intros Hi. pose proof (depth_le_rank n i).
  destruct (lookup_lt_is_Some_2 ts i Hi) as [t Ht].
  assert (rank_at ts i < n); [|lia].
  unfold rank_at. rewrite Ht. apply rank_lt_length.
  eapply list_elem_of_lookup_2. exact Ht.
Qed.

(** The loop reaches its fixpoint within [max 1 n] passes, and the levels
    it leaves satisfy the invariant. *)
Lemma calculate_levels_spec :
  exists r,
    (forall fuel, Nat.max 1 n <= fuel ->
       _calculate_nesting_levels fuel ts = Ok r) /\
    nesting_pass idx r = Ok (r, false) /\
    nesting_invariant r /\
    length r = n /\
    (forall i t', r !! i = Some t' ->
       exists t, ts !! i = Some t /\
                 t' = set_nesting_level (nesting_level t') t).
Proof.
  destruct (nesting_loop_spec idx st0 (depth idx st0 n)
              levels_resolved depth_child depth_root depth_bound
              (Nat.max 1 n) 0 st0)
    as (r & Hloop & [Hlen Hsh] & Hub & Hfix & Hst).
  - apply shape_refl.
  - intros i. unfold lv. rewrite list_lookup_fmap.
    destruct (ts !! i); cbn; lia.
  - intros i. lia.
  - lia.
  - rewrite length_fmap. lia.
  - rewrite length_fmap in Hlen.
    assert (Hback : forall i t', r !! i = Some t' ->
              exists t, ts !! i = Some t /\
                        t' = set_nesting_level (nesting_level t') t).
    { intros i t' Hi. destruct (Hsh i t' Hi) as (t0 & H0 & Heq).
      destruct (st0_lookup i t0 H0) as (t & Ht & ->).
      exists t. split; [exact Ht|]. rewrite Heq. reflexivity. }
    exists r. split.
    { intros fuel Hf. unfold _calculate_nesting_levels.
      eapply nesting_loop_fuel_mono; [exact Hf|exact Hloop]. }
    split; [exact Hfix|]. split; [|split; [exact Hlen|exact Hback]].
    intros t' Hin. apply list_elem_of_lookup_1 in Hin.
    destruct Hin as [i Hi].
    destruct (Hback i t' Hi) as (t & Ht & Heq).
    assert (Hpid : parent_id t' = parent_id t) by (rewrite Heq; reflexivity).
    assert (H0 : st0 !! i = Some (set_nesting_level 0 t)).
    { rewrite list_lookup_fmap, Ht. reflexivity. }
    assert (Hlvi : lv r i = nesting_level t').
    { unfold lv. rewrite Hi. reflexivity. }
    rewrite Hpid. destruct (parent_id t) as [pid|] eqn:Ep.
    + destruct (levels_resolved i _ pid H0 Ep) as (p & Hp & Hpn).
      rewrite length_fmap in Hpn.
      assert (Hpar : par idx st0 i = Some p).
      { unfold par. rewrite H0. cbn. rewrite Ep. cbn. exact Hp. }
      destruct (lookup_lt_is_Some_2 r p) as [tp Htp]; [lia|].
      exists tp. split; [eapply list_elem_of_lookup_2; exact Htp|].
      split.
      * destruct (Hback p tp Htp) as (q & Hq & Heqp).
        destruct (index_lookup_sound _ _ _ Hp) as (q' & Hq' & Hid).
        rewrite Heqp. cbn. congruence.
      * specialize (Hst i p Hpar). unfold lv in Hst at 1.
        rewrite Htp in Hst. lia.
    + assert (Hpar : par idx st0 i = None).
      { unfold par. rewrite H0. cbn. rewrite Ep. reflexivity. }
      specialize (Hub i). rewrite (depth_root i Hpar) in Hub. lia.
Qed.

End Levels.

(** *** From the assignment loops to the fixpoint loop *)

Lemma assigned_lookup (ts st : list table) (k : nat) (t : table) :
  assigned ts st -> ts !! k = Some t ->
  exists t', st !! k = Some t' /\ static_eq t t'.
Proof.
  intros [Hlen Hst] Hk.
  destruct (lookup_lt_is_Some_2 st k) as [t' Ht'].
  { rewrite Hlen. eapply lookup_lt_Some. exact Hk. }
  destruct (Hst k t' Ht') as (t1 & Ht1 & Hs & _).
  exists t'. split; [exact Ht'|]. congruence.
Qed.

Lemma assigned_ids (ts st : list table) :
  assigned ts st -> table_id <$> st = table_id <$> ts.
Proof.
  intros Ha. pose proof Ha as [Hlen Hst]. apply list_eq. intros k.
  rewrite !list_lookup_fmap. destruct (st !! k) as [t'|] eqn:E.
  - destruct (Hst k t' E) as (t & Ht & (_ & _ & Hid) & _).
    rewrite Ht. cbn. congruence.
  - apply lookup_ge_None_1 in E. rewrite lookup_ge_None_2 by lia.
    reflexivity.
Qed.

Lemma assigned_parents_larger (ts st : list table) :
  Forall (fun t => parent_id t = None) ts ->
  assigned ts st -> parents_larger st.
Proof.
  intros Hnone Ha t' pid Hin Hp. pose proof Ha as [Hlen Hst].
  apply list_elem_of_lookup_1 in Hin. destruct Hin as [k Hk].
  destruct (Hst k t' Hk) as (t & Ht & (_ & Hb & _) & _ & Hpar).
  rewrite Forall_forall in Hnone.
  assert (Htn : parent_id t = None).
  { apply Hnone. eapply list_elem_of_lookup_2. exact Ht. }
  destruct Hpar as [Hsame|(o & Ho & Hpo & Hc)]; [congruence|].
  apply list_elem_of_lookup_1 in Ho. destruct Ho as [j Hj].
  destruct (assigned_lookup ts st j o Ha Hj) as (o' & Ho' & _ & Hbo & Hid).
  exists o'. split; [eapply list_elem_of_lookup_2; exact Ho'|].
  split; [congruence|]. unfold area_of. rewrite <- Hb, <- Hbo.
  eapply is_contained_area. exact Hc.
Qed.

(** The tight case of the pass bound: three nested tables listed innermost
    first need three passes, the last one to see that nothing changes. *)
Definition chain_a : table := region 0 (0, 0, 100, 100)%Q "a".
Definition chain_b : table :=
  set_parent_id (py "a") (region 0 (10, 10, 90, 90)%Q "b").
Definition chain_c : table :=
  set_parent_id (py "b") (region 0 (20, 20, 80, 80)%Q "c").
Definition chain3 : list table := [chain_c; chain_b; chain_a].

Example chain3_two_passes : _calculate_nesting_levels 2 chain3 = Diverge.
Proof. vm_compute. reflexivity. Qed.

Example chain3_three_passes :
  match _calculate_nesting_levels 3 chain3 with
  | Ok r => Some (map nesting_level r)
  | _ => None
  end = Some [2; 1; 0].
Proof. vm_compute. reflexivity. Qed.

(** *** The claims about the detector *)

Lemma is_contained_spec (A B : rect) :
  _is_contained B A default_threshold = Ok true <-> spec_child_of A B.
Proof.
  rewrite is_contained_eq.
  destruct A as [[[ax1 ay1] ax2] ay2], B as [[[bx1 by1] bx2] by2].
  unfold spec_child_of.
  cbn [code_intersection spec_intersection spec_nonempty nonempty_b
       _calculate_area].
  assert (Hx1 : (py_max bx1 ax1 == Qmax ax1 bx1)%Q)
    by (rewrite py_max_Qmax; apply Q.max_comm).
  assert (Hy1 : (py_max by1 ay1 == Qmax ay1 by1)%Q)
    by (rewrite py_max_Qmax; apply Q.max_comm).
  assert (Hx2 : (py_min bx2 ax2 == Qmin ax2 bx2)%Q)
    by (rewrite py_min_Qmin; apply Q.min_comm).
  assert (Hy2 : (py_min by2 ay2 == Qmin ay2 by2)%Q)
    by (rewrite py_min_Qmin; apply Q.min_comm).
  split.
  - intros H. injection H as H.
    rewrite !andb_true_iff, !Qltb_lt in H.
    destruct H as [[Hx Hy] [Hc Hr]].
    rewrite <- Hx1, <- Hy1, <- Hx2, <- Hy2. auto.
  - intros [[Hx Hy] [Hc Hr]]. f_equal.
    rewrite !andb_true_iff, !Qltb_lt. rewrite Hx1, Hy1, Hx2, Hy2. auto.
Qed.

Lemma is_contained_not_spec (A B : rect) :
  ~ spec_child_of A B -> _is_contained B A default_threshold = Ok false.
Proof.
  intros Hn. destruct (is_contained_total B A default_threshold) as [c Hc].
  destruct c; [|exact Hc]. apply is_contained_spec in Hc. contradiction.
Qed.

Lemma chain3_ids : NoDup (table_id <$> chain3).
Proof. apply (bool_decide_unpack _). vm_compute. exact I. Defined.

Lemma chain3_parents_larger : parents_larger chain3.
Proof.
  intros t pid Hin Hp. unfold chain3 in Hin.
  repeat (apply elem_of_cons in Hin; destruct Hin as [->|Hin]);
    [| | discriminate Hp | inversion Hin].
  - injection Hp as <-. exists chain_b. split; [|split; [reflexivity|]].
    + apply list_elem_of_In. right. left. reflexivity.
    + vm_compute. reflexivity.
  - injection Hp as <-. exists chain_a. split; [|split; [reflexivity|]].
    + apply list_elem_of_In. right. right. left. reflexivity.
    + vm_compute. reflexivity.
Defined.

(** The resolver end to end: the store [st] the assignment loops reach,
    and the list [r] the fixpoint loop makes of it. *)
Lemma resolver_spec (ts : list table) :
  NoDup (table_id <$> ts) -> Forall (fun t => parent_id t = None) ts ->
  exists st r,
    assigned ts st /\
    (forall fuel, Nat.max 1 (length ts) <= fuel ->
       _detect_nested_relationships fuel ts = Ok r) /\
    nesting_invariant r /\
    length r = length ts /\
    (forall i t', r !! i = Some t' ->
       exists t, st !! i = Some t /\
                 t' = set_nesting_level (nesting_level t') t).
Proof.
  intros Hnd Hnone.
  destruct (assignment_total ts) as (st & Hassign & Ha).
  pose proof (assigned_ids ts st Ha) as Hids.
  assert (Hnd' : NoDup (table_id <$> st)) by (rewrite Hids; exact Hnd).
  pose proof (assigned_parents_larger ts st Hnone Ha) as Hpl.
  destruct (calculate_levels_spec st Hnd' Hpl)
    as (r & Hrun & _ & Hinv & Hlen & Hback).
  pose proof Ha as [Hlen' _].
  exists st, r. split; [exact Ha|]. split.
  { intros fuel Hf. unfold _detect_nested_relationships.
    rewrite Hassign, bind_Ok. apply Hrun. lia. }
  split; [exact Hinv|]. split; [lia|exact Hback].
Qed.

(** In what the resolver returns, a region whose [parent_id] names [a] is a
    child of [a] in the sense of the specification: the area ratio of a
    parent/child pair is below 0.9. *)
Lemma resolver_parents_are_children (ts : list table) :
  NoDup (table_id <$> ts) -> Forall (fun t => parent_id t = None) ts ->
  exists r,
    (forall fuel, Nat.max 1 (length ts) <= fuel ->
       _detect_nested_relationships fuel ts = Ok r) /\
    forall a b, a ∈ r -> b ∈ r -> parent_id b = Some (table_id a) ->
      spec_child_of (bbox a) (bbox b).
Proof.
  intros Hnd Hnone.
  destruct (resolver_spec ts Hnd Hnone)
    as (st & r & Ha & Hrun & _ & _ & Hback).
  exists r. split; [exact Hrun|]. intros a b Hina Hinb Hpar.
  destruct Ha as [_ Hst].
  assert (Horigin : forall x, x ∈ r ->
            exists k t0 t, ts !! k = Some t0 /\ st !! k = Some t /\
              static_eq t0 t /\ parent_id x = parent_id t /\
              bbox x = bbox t0 /\ table_id x = table_id t0).
  { intros x Hx. apply list_elem_of_lookup_1 in Hx. destruct Hx as [k Hk].
    destruct (Hback k x Hk) as (t & Ht & Heq).
    destruct (Hst k t Ht) as (t0 & Ht0 & Hs & _).
    pose proof Hs as (_ & Hb & Hid).
    exists k, t0, t. rewrite Heq. cbn. auto 10. }
  destruct (Horigin a Hina) as (ka & a0 & _ & Ha0 & _ & _ & _ & Hba & Hida).
  destruct (Horigin b Hinb) as (kb & b0 & tb & Hb0 & Htb & _ & Hpb & Hbb & _).
  destruct (Hst kb tb Htb) as (b0' & Hb0' & _ & _ & Hcase).
  assert (b0' = b0) as -> by congruence.
  rewrite Forall_forall in Hnone.
  assert (Hfresh : parent_id b0 = None).
  { apply Hnone. eapply list_elem_of_lookup_2. exact Hb0. }
  destruct Hcase as [Hsame|(o & Ho & Hpo & Hc)]; [congruence|].
  assert (o = a0) as ->.
  { apply list_elem_of_lookup_1 in Ho. destruct Ho as [j Hj].
    assert (j = ka).
    { eapply (NoDup_lookup _ _ _ _ Hnd).
      - rewrite list_lookup_fmap, Hj. reflexivity.
      - rewrite list_lookup_fmap, Ha0. cbn. f_equal. congruence. }
    congruence. }
  rewrite Hba, Hbb. apply is_contained_spec. exact Hc.
Qed.


(** Unique ids are needed: when an inner table repeats the id of an outer
    one, the id dictionary resolves the parent of the middle table to the
    inner one, the parent relation has a cycle, and the loop does not
    stop. *)
Example repeated_id_diverges :
  _detect_nested_relationships 40
    [ region 0 (0, 0, 100, 100)%Q "a"; region 0 (10, 10, 90, 90)%Q "b";
      region 0 (20, 20, 80, 80)%Q "a" ] = Diverge.
Proof. vm_compute. reflexivity. Qed.




End DetectorFacts.

(** ** The query intent analyzer *)
Module IntentFacts.
Import Intent.

Lemma starts_with_two (a b : N) (s : pystr) :
  starts_with [a; b] s = true -> exists r, s = a :: b :: r.
Proof.
  destruct s as [|c1 [|c2 r]]; cbn; try discriminate.
  - rewrite andb_false_r. discriminate.
  - rewrite andb_true_r. intros H. apply andb_true_iff in H.
    destruct H as [H1 H2]. apply N.eqb_eq in H1, H2. subst. eauto.
Qed.

Lemma match_year_group (unicode_digit : N -> bool) (s g : pystr) :
  match_year unicode_digit s = Some g -> g = py "19" \/ g = py "20".
Proof.
  destruct s as [|c1 [|c2 [|c3 [|c4 s]]]]; try discriminate.
  unfold match_year.
  change (py "19") with [49; 57]%N. change (py "20") with [50; 48]%N.
  destruct (starts_with [49; 57]%N (c1 :: c2 :: c3 :: c4 :: s)) eqn:E19.
  - intros H. destruct (_ && _ && _); [|discriminate]. injection H as <-.
    left. apply starts_with_two in E19. destruct E19 as [r Hr].
    injection Hr as -> -> _. reflexivity.
  - destruct (starts_with [50; 48]%N (c1 :: c2 :: c3 :: c4 :: s)) eqn:E20;
      [|cbn; discriminate].
    intros H. destruct (_ && _ && _); [|discriminate]. injection H as <-.
    right. apply starts_with_two in E20. destruct E20 as [r Hr].
    injection Hr as -> -> _. reflexivity.
Qed.

(** Whatever the query, [findall] yields the two-character text of the
    group, never a four-digit year. *)
Lemma findall_year_groups (unicode_digit : N -> bool) (skip : nat)
    (s : pystr) :
  Forall (fun g => g = py "19" \/ g = py "20")
         (findall_year unicode_digit skip s).
Proof.
  revert skip. induction s as [|c s IH]; intros skip; [constructor|].
  cbn [findall_year]. destruct skip as [|k]; [|apply IH].
  destruct (match_year unicode_digit (c :: s)) as [g|] eqn:E; [|apply IH].
  constructor; [|apply IH]. eapply match_year_group. exact E.
Qed.

(** C6.  On the query of the specification the time focus is the list
    ["20"], not ["2022"]: the year pattern has a capturing group, and
    [findall] returns the text of the group.  For every query the years
    returned are "19" or "20". *)
Theorem detect_time_focus_2022 (unicode_digit : N -> bool) :
  _detect_time_focus unicode_digit (py "2022年的总资产是多少?")
  = Years [py "20"] /\
  forall query years,
    _detect_time_focus unicode_digit query = Years years ->
    Forall (fun g => g = py "19" \/ g = py "20") years.
Proof.
  split; [vm_compute; reflexivity|].
  intros query years. unfold _detect_time_focus.
  pose proof (findall_year_groups unicode_digit 0 query) as Hall.
  destruct (findall_year unicode_digit 0 query) as [|g gs].
  - destruct (List.find _ _); discriminate.
  - intros Heq. injection Heq as <-. exact Hall.
Qed.

End IntentFacts.

(** ** The vector index *)
Module IndexerFacts.
Import Indexer LoopFacts.

Definition chunk_of (v : list float) : embedding_data :=
  {| embedding := v; table_idx := 0; chunk_type := py "table_full";
     content := py "table"; metadata := ∅ |}.

(** What a search answered: for each result its id, its rank, and whether
    its score is NaN and whether it lies in [-1, 1]. *)
Definition summary (r : result (list hit))
  : option (list (nat * nat * bool * bool)) :=
  match r with
  | Ok hits =>
      Some (map (fun h => (id h, rank h, PrimFloat.is_nan (score h),
                           (PrimFloat.leb (-1) (score h)
                            && PrimFloat.leb (score h) 1)%float)) hits)
  | _ => None
  end.

(** C10.  The exact search divides by the product of the norms without
    looking at it.  With a stored vector of zeros, that vector's score is
    NaN and lies outside [-1, 1]; with a query of zeros every score is. *)
Theorem exact_search_zero_vector_nan (HNSW_AVAILABLE : bool)
    (knn_query : hnsw -> list float -> Z -> result (list nat * list float)) :
  let self :=
    (build_index (__init__ HNSW_AVAILABLE false)
                 [chunk_of [0; 0]%float; chunk_of [1; 2]%float]).1 in
  use_hnsw self = false /\
  summary (search knn_query self [1; 0]%float 5)
  = Some [(1, 0, false, true); (0, 1, true, false)] /\
  summary (search knn_query self [0; 0]%float 5)
  = Some [(0, 0, true, false); (1, 1, true, false)].
Proof.
  cbn zeta. split; [reflexivity|]. split; vm_compute; reflexivity.
Qed.

(** C9, as the code has it.  Building from the empty list returns [None]
    without raising and leaves the builder as it was, so a search after it
    answers as a search before it.  On a builder that holds no index, as a
    new one does, every search then returns the empty list; an index built
    earlier stays in place and goes on answering. *)
Theorem build_empty_then_search
    (knn_query : hnsw -> list float -> Z -> result (list nat * list float))
    (self : builder) (query_vector : list float) (top_k : Z) :
  build_index self [] = (self, Ok None) /\
  search knn_query (build_index self []).1 query_vector top_k
  = search knn_query self query_vector top_k /\
  (index self = None ->
   search knn_query (build_index self []).1 query_vector top_k = Ok []).
Proof.
  split; [reflexivity|]. split; [reflexivity|].
  intros Hnone. cbn. unfold search. rewrite Hnone. reflexivity.
Qed.

Lemma build_empty_then_search_witness :
  build_index (__init__ true true) [] = (__init__ true true, Ok None) /\
  search knn_query_exact (build_index (__init__ true true) []).1
         [1; 0]%float 5
  = search knn_query_exact (__init__ true true) [1; 0]%float 5 /\
  search knn_query_exact (build_index (__init__ true true) []).1
         [1; 0]%float 5 = Ok [].
Proof.
  destruct (build_empty_then_search knn_query_exact (__init__ true true)
              [1; 0]%float 5) as (Hbuild & Hsame & Hempty).
  split; [exact Hbuild|]. split; [exact Hsame|]. exact (Hempty eq_refl).
Defined.

(** An empty build on a builder that already holds an index is as
    harmless, and leaves that index in place: the search after it returns
    the chunk stored before, not zero results. *)
Lemma build_empty_keeps_index :
  exists h,
    (build_index
       (build_index (__init__ false false) [chunk_of [1; 2]%float]).1 []).2
    = Ok None /\
    search knn_query_exact
      (build_index
         (build_index (__init__ false false) [chunk_of [1; 2]%float]).1 []).1
      [1; 0]%float 5 = Ok [h] /\
    id h = 0 /\ data h = data_of (chunk_of [1; 2]%float).
Proof.
  eexists. split; [reflexivity|]. split; [vm_compute; reflexivity|].
  split; reflexivity.
Qed.

(** The array constructor rejects vectors of differing lengths (numpy 1.24
    and later). *)
Lemma np_array_ragged (vectors : list (list float)) (v w : list float) :
  v ∈ vectors -> w ∈ vectors -> length v <> length w ->
  np_array vectors = Raise ValueError.
Proof.
  intros Hv Hw Hne. destruct vectors as [|v0 r]; [inversion Hv|].
  unfold np_array.
  destruct (forallb (fun w => (length w =? length v0)%nat) r) eqn:E;
    [|reflexivity].
  exfalso. rewrite forallb_forall in E.
  assert (Hall : forall x, x ∈ v0 :: r -> length x = length v0).
  { intros x Hx. apply elem_of_cons in Hx. destruct Hx as [->|Hx];
      [reflexivity|].
    apply Nat.eqb_eq. apply E. apply list_elem_of_In. exact Hx. }
  rewrite (Hall v Hv), (Hall w Hw) in Hne. congruence.
Qed.

(** C8, as the code has it, with numpy 1.24 or later.  When two of the
    vectors differ in length the build aborts: the array constructor raises
    [ValueError], in either mode, before an index is stored.  The index and
    the id table of the builder are as before; only [embedding_size] has
    been set, to the length of the first vector. *)
Theorem build_mixed_dimensions_aborts (self : builder)
    (embeddings : list embedding_data) (e1 e2 : embedding_data) :
  e1 ∈ embeddings -> e2 ∈ embeddings ->
  length (embedding e1) <> length (embedding e2) ->
  (build_index self embeddings).2 = Raise ValueError /\
  index (build_index self embeddings).1 = index self /\
  id_to_data (build_index self embeddings).1 = id_to_data self /\
  use_hnsw (build_index self embeddings).1 = use_hnsw self /\
  embedding_size (build_index self embeddings).1
  = (fun e => length (embedding e)) <$> head embeddings.
Proof.
  intros H1 H2 Hne.
  assert (Hrag : np_array (map embedding embeddings) = Raise ValueError).
  { apply (np_array_ragged _ (embedding e1) (embedding e2));
      [apply list_elem_of_fmap_2; exact H1
      |apply list_elem_of_fmap_2; exact H2|exact Hne]. }
  destruct embeddings as [|e0 r]; [inversion H1|].
  unfold build_index, _build_hnsw_index. rewrite Hrag.
  destruct (use_hnsw self); cbn; auto 6.
Qed.

Definition ragged : list embedding_data :=
  [chunk_of [1]%float; chunk_of [1; 2]%float].

Lemma build_mixed_dimensions_aborts_witness :
  (build_index (__init__ false false) ragged).2 = Raise ValueError /\
  index (build_index (__init__ false false) ragged).1
  = index (__init__ false false) /\
  id_to_data (build_index (__init__ false false) ragged).1
  = id_to_data (__init__ false false) /\
  use_hnsw (build_index (__init__ false false) ragged).1
  = use_hnsw (__init__ false false) /\
  embedding_size (build_index (__init__ false false) ragged).1
  = (fun e => length (embedding e)) <$> head ragged.
Proof.
  apply (build_mixed_dimensions_aborts (__init__ false false) ragged
           (chunk_of [1]%float) (chunk_of [1; 2]%float)).
  - apply list_elem_of_In. left. reflexivity.
  - apply list_elem_of_In. right. left. reflexivity.
  - cbn. lia.
Defined.

(** The error of a mixed-dimension build is [ValueError] of the array
    library; no error called DimensionMismatch exists in the code. *)
Lemma build_mixed_dimensions_error :
  exists e,
    (build_index (__init__ false false) ragged).2 = Raise e /\
    String.eqb (exn_name e) "DimensionMismatch" = false.
Proof. exists ValueError. split; reflexivity. Qed.

(** *** Searching with [top_k] above the number of entries *)

Lemma mapM_length {A B : Type} (f : A -> result B) (l : list A)
    (ys : list B) :
  mapM f l = Ok ys -> length ys = length l.
Proof.
  revert ys. induction l as [|x l IH]; intros ys; cbn.
  - intros H. injection H as <-. reflexivity.
  - destruct (f x) as [y| |]; cbn; try discriminate.
    destruct (mapM f l) as [ys'| |]; cbn; try discriminate.
    intros H. injection H as <-. cbn. f_equal. apply IH. reflexivity.
Qed.

Lemma mapM_ok {A B : Type} (f : A -> result B) (P : A -> B -> Prop)
    (l : list A) :
  (forall x, x ∈ l -> exists y, f x = Ok y /\ P x y) ->
  exists ys, mapM f l = Ok ys /\ Forall2 P l ys.
Proof.
  induction l as [|x l IH]; intros Hall.
  - exists []. split; [reflexivity|constructor].
  - destruct (Hall x) as (y & Hy & HP); [left|].
    destruct IH as (ys & Hys & HF).
    { intros x' Hx'. apply Hall. right. exact Hx'. }
    exists (y :: ys). cbn. rewrite Hy. cbn. rewrite Hys. cbn.
    split; [reflexivity|]. constructor; assumption.
Qed.

Lemma enumerate_fst {A : Type} (l : list A) :
  fst <$> enumerate l = seq 0 (length l).
Proof.
  unfold enumerate.
  assert (H : forall k, fst <$> imap (fun i x => (k + i, x)) l
                        = seq k (length l)).
  { induction l as [|x l IH]; intros k; [reflexivity|].
    rewrite imap_cons. cbn. rewrite Nat.add_0_r. f_equal.
    rewrite <- (IH (S k)). f_equal. apply imap_ext. intros i y _. cbn.
    f_equal. lia. }
  apply (H 0).
Qed.

Lemma enumerate_snd {A : Type} (l : list A) : snd <$> enumerate l = l.
Proof.
  unfold enumerate.
  assert (H : forall k, snd <$> imap (fun i x => (k + i, x)) l = l).
  { induction l as [|x l IH]; intros k; [reflexivity|].
    rewrite imap_cons. cbn. f_equal.
    rewrite <- (IH (S k)) at 2. f_equal. apply imap_ext. intros i y _. cbn.
    f_equal. lia. }
  apply (H 0).
Qed.

Lemma insert_asc_perm (x : nat * float) (l : list (nat * float)) :
  insert_asc x l ≡ₚ x :: l.
Proof.
  induction l as [|y l IH]; cbn; [reflexivity|].
  destruct (np_lt y.2 x.2); [|reflexivity].
  rewrite IH. apply Permutation_swap.
Qed.

Lemma np_argsort_perm (xs : list float) :
  np_argsort xs ≡ₚ seq 0 (length xs).
Proof.
  unfold np_argsort. rewrite <- enumerate_fst.
  apply fmap_Permutation.
  induction (enumerate xs) as [|e l IH]; cbn; [reflexivity|].
  rewrite insert_asc_perm, IH. reflexivity.
Qed.

Lemma slice_to_all {A : Type} (k : Z) (l : list A) :
  (Z.of_nat (length l) < k)%Z -> slice_to k l = l.
Proof.
  intros Hk. unfold slice_to.
  destruct (k <? 0)%Z eqn:E; [apply Z.ltb_lt in E; lia|].
  apply take_ge. lia.
Qed.

(** What the two loops of [build_index] and [search] rely on: the id table
    has an entry for every position of the array. *)
Definition covers (self : builder) (a : list (list float)) : Prop :=
  forall i, i < length a -> is_Some (id_to_data self !! i).

(** The exact search returns every entry once, ranked from 0. *)
Lemma search_exact_returns_all
    (knn_query : hnsw -> list float -> Z -> result (list nat * list float))
    (self : builder) (a : list (list float)) (q : list float) (k : Z) :
  use_hnsw self = false -> index self = Some (ArrayIndex a) ->
  covers self a -> Forall (fun row => length row = length q) a ->
  (Z.of_nat (length a) < k)%Z ->
  exists res,
    search knn_query self q k = Ok res /\
    length res = length a /\
    rank <$> res = seq 0 (length a) /\
    id <$> res ≡ₚ seq 0 (length a).
Proof.
  intros Hmode Hix Hcov Hdim Hk. unfold search. rewrite Hix, Hmode.
  assert (Hdot : np_dot a q = Ok (map (fun row => dot row q) a)).
  { unfold np_dot.
    destruct (forallb (fun row => (length row =? length q)%nat) a) eqn:E;
      [reflexivity|].
    exfalso. apply not_true_iff_false in E. apply E.
    apply forallb_forall. intros row Hrow. apply Nat.eqb_eq.
    rewrite Forall_forall in Hdim. apply Hdim. apply list_elem_of_In.
    exact Hrow. }
  rewrite Hdot. cbn [mbind result_bind].
  set (cos := zip_with PrimFloat.div (map (fun row => dot row q) a)
                (map (fun row => (norm row * norm q)%float) a)).
  assert (Hcos : length cos = length a).
  { unfold cos. rewrite length_zip_with, !length_map. lia. }
  assert (Hperm : np_argsort (map PrimFloat.opp cos) ≡ₚ seq 0 (length a)).
  { rewrite np_argsort_perm, length_map, Hcos. reflexivity. }
  rewrite slice_to_all
    by (rewrite (Permutation_length Hperm), length_seq; exact Hk).
  set (top := np_argsort (map PrimFloat.opp cos)) in *.
  destruct (mapM_ok
              (fun e : nat * nat =>
                 match cos !! e.2 with
                 | Some c =>
                     d ← lookup_data self e.2;
                     Ok {| id := e.2; distance := (1 - c)%float; score := c;
                           rank := e.1; data := d |}
                 | None => Raise IndexError
                 end)
              (fun e h => rank h = e.1 /\ id h = e.2)
              (enumerate top)) as (res & Hres & HF).
  { intros [n i] Hin. cbn [fst snd].
    assert (Hi : i < length a).
    { assert (Hi : i ∈ top).
      { rewrite <- (enumerate_snd top). apply list_elem_of_fmap.
        exists (n, i). split; [reflexivity|exact Hin]. }
      rewrite Hperm in Hi. apply elem_of_seq in Hi. lia. }
    destruct (lookup_lt_is_Some_2 cos i) as [c Hc]; [lia|]. rewrite Hc.
    destruct (Hcov i Hi) as [d Hd]. unfold lookup_data. rewrite Hd.
    eexists. split; [reflexivity|]. split; reflexivity. }
  exists res. split; [exact Hres|].
  assert (Hranks : rank <$> res = fst <$> enumerate top).
  { clear -HF. induction HF as [|e h l ys [Hr _] _ IH]; [reflexivity|].
    cbn. rewrite Hr, IH. reflexivity. }
  assert (Hids : id <$> res = snd <$> enumerate top).
  { clear -HF. induction HF as [|e h l ys [_ Hi] _ IH]; [reflexivity|].
    cbn. rewrite Hi, IH. reflexivity. }
  assert (Hlen : length top = length a)
    by (rewrite (Permutation_length Hperm), length_seq; reflexivity).
  split.
  { rewrite (mapM_length _ _ _ Hres). unfold enumerate.
    rewrite length_imap. exact Hlen. }
  split.
  - rewrite Hranks, enumerate_fst, Hlen. reflexivity.
  - rewrite Hids, enumerate_snd. exact Hperm.
Qed.

Lemma id_table_lookup (m0 : gmap nat chunk_data)
    (embeddings : list embedding_data) (i : nat) :
  foldl (fun m e => <[e.1 := data_of e.2]> m) m0 (enumerate embeddings) !! i
  = match embeddings !! i with
    | Some e => Some (data_of e)
    | None => m0 !! i
    end.
Proof.
  induction embeddings as [|e l IH] using rev_ind; [reflexivity|].
  unfold enumerate. rewrite imap_app, foldl_app. cbn.
  rewrite Nat.add_0_r. rewrite lookup_insert. case_decide as Heq.
  - subst i. rewrite lookup_app_r by lia. rewrite Nat.sub_diag. reflexivity.
  - fold (enumerate l). rewrite IH.
    destruct (decide (i < length l)) as [Hi|Hi].
    + rewrite lookup_app_l by exact Hi. reflexivity.
    + rewrite (lookup_ge_None_2 l i) by lia.
      rewrite lookup_ge_None_2; [reflexivity|]. rewrite length_app. cbn. lia.
Qed.

(** An index built in exact mode from [N] vectors of one dimension returns
    all [N] entries, ranked, when [top_k] exceeds [N]. *)
Lemma exact_index_returns_all (HNSW_AVAILABLE : bool)
    (knn_query : hnsw -> list float -> Z -> result (list nat * list float))
    (embeddings : list embedding_data) (q : list float) (k : Z) :
  embeddings <> [] ->
  Forall (fun e => length (embedding e) = length q) embeddings ->
  (Z.of_nat (length embeddings) < k)%Z ->
  exists res,
    search knn_query
           (build_index (__init__ HNSW_AVAILABLE false) embeddings).1 q k
    = Ok res /\
    length res = length embeddings /\
    rank <$> res = seq 0 (length embeddings) /\
    id <$> res ≡ₚ seq 0 (length embeddings).
Proof.
  intros Hne Hdim Hk.
  assert (Harr : np_array (map embedding embeddings)
                 = Ok (map embedding embeddings)).
  { destruct embeddings as [|e0 r]; [congruence|]. cbn.
    destruct (forallb _ _) eqn:E; [reflexivity|].
    exfalso. apply not_true_iff_false in E. apply E.
    apply forallb_forall. intros w Hw. apply Nat.eqb_eq.
    apply Forall_cons in Hdim. destruct Hdim as [H0 Hr].
    apply in_map_iff in Hw. destruct Hw as (e & <- & He).
    rewrite Forall_forall in Hr. rewrite H0. apply Hr.
    apply list_elem_of_In. exact He. }
  destruct embeddings as [|e0 r] eqn:Eemb; [congruence|].
  rewrite <- Eemb in *.
  assert (Hbuild :
    build_index (__init__ HNSW_AVAILABLE false) embeddings
    = ({| use_hnsw := false; index := Some (ArrayIndex (map embedding embeddings));
          id_to_data := foldl (fun m e => <[e.1 := data_of e.2]> m) ∅
                              (enumerate embeddings);
          embedding_size := Some (length (embedding e0)) |},
       Ok (Some {| b_index := ArrayIndex (map embedding embeddings);
                   b_id_to_data :=
                     foldl (fun m e => <[e.1 := data_of e.2]> m) ∅
                           (enumerate embeddings);
                   b_embedding_size := length (embedding e0);
                   b_index_type := py "brute_force" |}))).
  { unfold build_index. rewrite Eemb. rewrite <- Eemb.
    cbn [__init__ use_hnsw andb index id_to_data]. rewrite Harr.
    reflexivity. }
  rewrite Hbuild. cbn [fst].
  rewrite <- (length_map embedding embeddings).
  apply search_exact_returns_all.
  - reflexivity.
  - reflexivity.
  - intros i Hi. cbn [id_to_data]. rewrite id_table_lookup.
    rewrite length_map in Hi.
    destruct (lookup_lt_is_Some_2 embeddings i Hi) as [e He].
    rewrite He. eauto.
  - apply Forall_fmap. exact Hdim.
  - rewrite length_map. exact Hk.
Qed.

(** The contract of [knn_query]: the arrays it returns have [k] columns. *)
Definition returns_k_columns
    (knn_query : hnsw -> list float -> Z -> result (list nat * list float))
  : Prop :=
  forall h q k r, knn_query h q k = Ok r ->
    length r.1 = Z.to_nat k /\ length r.2 = Z.to_nat k.

(** C5, approximate mode.  [search] hands [top_k] to [knn_query] as it is.
    Whenever [knn_query] returns arrays of [top_k] columns, a search for
    more results than the [N] entries cannot return exactly [N] of them: it
    returns [top_k] results or it raises. *)
Theorem search_hnsw_top_k_above_entries
    (knn_query : hnsw -> list float -> Z -> result (list nat * list float))
    (self : builder) (q : list float) (k : Z) (N : nat) :
  returns_k_columns knn_query ->
  use_hnsw self = true -> is_Some (index self) -> (Z.of_nat N < k)%Z ->
  forall res, search knn_query self q k = Ok res ->
    length res = Z.to_nat k /\ N < length res.
Proof.
  intros Hcontract Hmode [ix Hix] Hk res. unfold search.
  rewrite Hix, Hmode. destruct ix as [h|a]; [|discriminate].
  destruct (knn_query h q k) as [r| |] eqn:Eq; cbn [mbind result_bind];
    try discriminate.
  intros Hres. apply mapM_length in Hres.
  destruct (Hcontract h q k r Eq) as [H1 H2].
  unfold enumerate in Hres. rewrite length_imap, length_zip in Hres.
  lia.
Qed.

Lemma knn_query_exact_columns : returns_k_columns knn_query_exact.
Proof.
  intros h q k r. unfold knn_query_exact.
  destruct (_ || _) eqn:E; [discriminate|].
  apply orb_false_iff in E. destruct E as [E1 E2].
  apply Z.ltb_ge in E1, E2. intros H. injection H as <-. cbn [fst snd].
  rewrite length_map, length_take. lia.
Defined.

(** An index of two entries searched for five. *)
Definition hnsw_builder : builder :=
  (build_index (__init__ true true)
               [chunk_of [0; 1]%float; chunk_of [1; 2]%float]).1.

Lemma search_hnsw_top_k_above_entries_witness :
  search knn_query_exact hnsw_builder [1; 0]%float 5 = Raise RuntimeError /\
  forall res, search knn_query_exact hnsw_builder [1; 0]%float 5 = Ok res ->
    length res = Z.to_nat 5 /\ 2 < length res.
Proof.
  split; [vm_compute; reflexivity|].
  apply (search_hnsw_top_k_above_entries knn_query_exact hnsw_builder
           [1; 0]%float 5 2 knn_query_exact_columns).
  - reflexivity.
  - eexists. reflexivity.
  - lia.
Defined.

End IndexerFacts.

(** ** The query processor *)
Module QueryFacts.
Import Indexer Query LoopFacts.

(** The table ids of the full-table chunks of a list, and its other
    chunks. *)
Definition tidfull (l : list chunk_data) : list (option value) :=
  chunk_table_id <$> filter is_full l.
Definition nonfull (l : list chunk_data) : list chunk_data :=
  filter (fun d => ~ is_full d) l.

(** The [table_type] entry of the metadata, when present, is a string (as
    the chunk generator writes it). *)
Definition table_type_is_str (d : chunk_data) : Prop :=
  forall z, d_metadata d !! py "table_type" <> Some (VInt z).

Lemma tidfull_snoc (l : list chunk_data) (d : chunk_data) :
  tidfull (l ++ [d])
  = tidfull l ++ (if decide (is_full d) then [chunk_table_id d] else []).
Proof.
  unfold tidfull. rewrite filter_app, fmap_app. f_equal.
  destruct (decide (is_full d)) as [Hd|Hd].
  - rewrite filter_cons_True by exact Hd. reflexivity.
  - rewrite filter_cons_False by exact Hd. reflexivity.
Qed.

Lemma tidfull_cons (d : chunk_data) (l : list chunk_data) :
  tidfull (d :: l)
  = (if decide (is_full d) then [chunk_table_id d] else []) ++ tidfull l.
Proof.
  unfold tidfull. destruct (decide (is_full d)) as [Hd|Hd].
  - rewrite filter_cons_True by exact Hd. reflexivity.
  - rewrite filter_cons_False by exact Hd. reflexivity.
Qed.

Lemma nonfull_snoc (l : list chunk_data) (d : chunk_data) :
  nonfull (l ++ [d]) = nonfull l ++ (if decide (is_full d) then [] else [d]).
Proof.
  unfold nonfull. rewrite filter_app. f_equal.
  destruct (decide (is_full d)) as [Hd|Hd].
  - rewrite filter_cons_False by tauto. reflexivity.
  - rewrite filter_cons_True by exact Hd. reflexivity.
Qed.

Lemma nonfull_cons (d : chunk_data) (l : list chunk_data) :
  nonfull (d :: l) = (if decide (is_full d) then [] else [d]) ++ nonfull l.
Proof.
  unfold nonfull. destruct (decide (is_full d)) as [Hd|Hd].
  - rewrite filter_cons_False by tauto. reflexivity.
  - rewrite filter_cons_True by exact Hd. reflexivity.
Qed.

Section PostProcessFacts.
Context {F : Type} `{Score F}.
Variable str_lower : pystr -> pystr.

Lemma adjust_payload (r r' : enhanced_result F) (i : intent) :
  _adjust_by_intent str_lower r i = Ok r' -> payload r' = payload r.
Proof.
  unfold _adjust_by_intent. cbv zeta. intros Hr.
  repeat match type of Hr with
         | context [if ?b then _ else _] => destruct b
         | context [match ?x with _ => _ end] => destruct x
         end;
    try discriminate; injection Hr as <-; reflexivity.
Qed.

Lemma enhance_payload (raw : raw_result F) (i : intent)
    (e : enhanced_result F) :
  enhance str_lower raw i = Ok e -> payload e = raw_data raw.
Proof.
  unfold enhance. cbv zeta. intros He. apply adjust_payload in He.
  rewrite He. destruct (raw_data raw).
  destruct (str_eqb _ _); reflexivity.
Qed.

Lemma extract_table_type_str (r : enhanced_result F) (z : Z) :
  table_type_is_str (payload r) ->
  _extract_table_type str_lower r <> Some (VInt z).
Proof.
  intros Hstr. unfold _extract_table_type.
  destruct (metadata r !! py "table_type") as [v|] eqn:E.
  - intros Hv. injection Hv as ->. exact (Hstr z E).
  - repeat match goal with
           | |- context [if ?b then _ else _] => destruct b
           end; discriminate.
Qed.

Lemma adjust_total (r : enhanced_result F) (i : intent) :
  table_type_is_str (payload r) ->
  exists r', _adjust_by_intent str_lower r i = Ok r'.
Proof.
  intros Hstr. unfold _adjust_by_intent. cbv zeta.
  match goal with
  | |- context [_extract_table_type str_lower ?r2] =>
      assert (Hr2 : table_type_is_str (payload r2));
      [|pose proof (fun z => extract_table_type_str r2 z Hr2) as Hno;
        destruct (_extract_table_type str_lower r2) as [[t|z]|]]
  end.
  - repeat match goal with
           | |- context [if ?b then _ else _] => destruct b
           end; exact Hstr.
  - destruct (negb _); [|eauto]. destruct t; [eauto|].
    destruct (str_in _ _); eauto.
  - exfalso. exact (Hno z eq_refl).
  - destruct (negb _); eauto.
Qed.

Lemma enhance_total (raw : raw_result F) (i : intent) :
  table_type_is_str (raw_data raw) ->
  exists e, enhance str_lower raw i = Ok e.
Proof.
  intros Hstr. unfold enhance. cbv zeta. apply adjust_total.
  destruct (raw_data raw). destruct (str_eqb _ _); exact Hstr.
Qed.

Lemma str_eqb_full (e : enhanced_result F) :
  str_eqb (chunk_type e) (py "table_full") = bool_decide (is_full (payload e)).
Proof. reflexivity. Qed.

(** The three ways the loop body treats a candidate. *)
Lemma process_one_spec (i : intent) (acc acc' : list (enhanced_result F))
    (seen seen' : gset (option value)) (raw : raw_result F) :
  process_one str_lower i (acc, seen) raw = Ok (acc', seen') ->
  exists e, payload e = raw_data raw /\
    ((is_full (raw_data raw) /\ (chunk_table_id (raw_data raw) ∉ seen) /\
      acc' = acc ++ [e] /\ seen' = {[chunk_table_id (raw_data raw)]} ∪ seen)
     \/ (is_full (raw_data raw) /\ (chunk_table_id (raw_data raw) ∈ seen) /\
         acc' = acc /\ seen' = seen)
     \/ (~ is_full (raw_data raw) /\ acc' = acc ++ [e] /\ seen' = seen)).
Proof.
  unfold process_one.
  destruct (enhance str_lower raw i) as [e| |] eqn:Ee; try discriminate.
  pose proof (enhance_payload raw i e Ee) as Hp.
  cbn [mbind result_bind fst snd]. rewrite str_eqb_full, Hp.
  fold (chunk_table_id (raw_data raw)).
  intros Hstep. exists e. split; [exact Hp|].
  destruct (decide (is_full (raw_data raw))) as [Hf|Hf].
  - rewrite (bool_decide_eq_true_2 _ Hf) in Hstep. cbn [negb] in Hstep.
    rewrite orb_false_r in Hstep.
    destruct (decide (chunk_table_id (raw_data raw) ∈ seen)) as [Hin|Hin].
    + rewrite bool_decide_eq_false_2 in Hstep by tauto.
      injection Hstep as <- <-. right. left. auto.
    + rewrite (bool_decide_eq_true_2 _ Hin) in Hstep.
      injection Hstep as <- <-. left. auto.
  - rewrite (bool_decide_eq_false_2 _ Hf) in Hstep. cbn [negb] in Hstep.
    rewrite orb_true_r in Hstep. injection Hstep as <- <-. right. right. auto.
Qed.

Lemma process_one_total (i : intent) (acc : list (enhanced_result F))
    (seen : gset (option value)) (raw : raw_result F) :
  table_type_is_str (raw_data raw) ->
  exists acc', process_one str_lower i (acc, seen) raw = Ok acc'.
Proof.
  intros Hstr. unfold process_one.
  destruct (enhance_total raw i Hstr) as [e He]. rewrite He.
  cbn [mbind result_bind]. destruct (_ || _); eauto.
Qed.

(** The first loop keeps, in retrieval order, every chunk that is not a
    full table and the first full table of each table id. *)
Lemma collect_fold_spec (i : intent) (raw : list (raw_result F)) :
  forall (acc acc' : list (enhanced_result F))
         (seen seen' : gset (option value)),
  foldlM (process_one str_lower i) (acc, seen) raw = Ok (acc', seen') ->
  (forall t, t ∈ seen <-> t ∈ tidfull (payload <$> acc)) ->
  NoDup (tidfull (payload <$> acc)) ->
  (forall t, t ∈ seen' <-> t ∈ tidfull (payload <$> acc')) /\
  NoDup (tidfull (payload <$> acc')) /\
  nonfull (payload <$> acc')
  = nonfull (payload <$> acc) ++ nonfull (raw_data <$> raw) /\
  (forall t, t ∈ seen' <-> t ∈ seen \/ t ∈ tidfull (raw_data <$> raw)).
Proof.
  induction raw as [|r raw IH]; intros acc acc' seen seen' Hfold Hseen Hnd.
  - cbn in Hfold. injection Hfold as <- <-.
    split; [exact Hseen|]. split; [exact Hnd|].
    split; [rewrite app_nil_r; reflexivity|].
    intros t. cbn. split; [auto|]. intros [Ht|Ht]; [exact Ht|].
    inversion Ht.
  - rewrite foldlM_cons in Hfold.
    destruct (process_one str_lower i (acc, seen) r) as [[acc1 seen1]| |]
      eqn:Estep; try discriminate.
    rewrite bind_Ok in Hfold.
    destruct (process_one_spec i acc acc1 seen seen1 r Estep)
      as (e & Hp & Hcase).
    rewrite fmap_cons, tidfull_cons, nonfull_cons.
    destruct Hcase as [(Hf & Hnew & -> & ->)
                      |[(Hf & Hold & -> & ->)|(Hf & -> & ->)]].
    + destruct (IH (acc ++ [e]) acc'
                  ({[chunk_table_id (raw_data r)]} ∪ seen) seen' Hfold)
        as (H1 & H2 & H3 & H4).
      * intros t. rewrite fmap_snoc, tidfull_snoc.
        rewrite Hp. rewrite decide_True by exact Hf.
        rewrite elem_of_union, elem_of_app, elem_of_singleton,
          list_elem_of_singleton, Hseen. tauto.
      * rewrite fmap_snoc, tidfull_snoc. rewrite Hp.
        rewrite decide_True by exact Hf. apply NoDup_app.
        split; [exact Hnd|]. split; [|apply NoDup_singleton].
        intros t Ht Ht'. apply list_elem_of_singleton in Ht'. subst t.
        apply Hnew. apply Hseen. exact Ht.
      * split; [exact H1|]. split; [exact H2|]. split.
        { rewrite H3, fmap_snoc, nonfull_snoc.
          rewrite Hp. rewrite !decide_True by exact Hf.
          rewrite app_nil_r. reflexivity. }
        intros t. rewrite H4. rewrite decide_True by exact Hf.
        rewrite elem_of_union, elem_of_singleton, elem_of_app,
          list_elem_of_singleton. tauto.
    + destruct (IH acc acc' seen seen' Hfold Hseen Hnd)
        as (H1 & H2 & H3 & H4).
      split; [exact H1|]. split; [exact H2|]. split.
      { rewrite H3. rewrite decide_True by exact Hf. reflexivity. }
      intros t. rewrite H4. rewrite decide_True by exact Hf.
      rewrite elem_of_app, list_elem_of_singleton. split; [tauto|].
      intros [Ht|[->|Ht]]; auto.
    + destruct (IH (acc ++ [e]) acc' seen seen' Hfold)
        as (H1 & H2 & H3 & H4).
      * intros t. rewrite fmap_snoc, tidfull_snoc.
        rewrite Hp. rewrite decide_False by exact Hf.
        rewrite app_nil_r. apply Hseen.
      * rewrite fmap_snoc, tidfull_snoc. rewrite Hp.
        rewrite decide_False by exact Hf. rewrite app_nil_r. exact Hnd.
      * split; [exact H1|]. split; [exact H2|]. split.
        { rewrite H3, fmap_snoc, nonfull_snoc.
          rewrite Hp. rewrite !decide_False by exact Hf.
          rewrite <- app_assoc. reflexivity. }
        intros t. rewrite H4. rewrite decide_False by exact Hf.
        reflexivity.
Qed.

Lemma collect_spec (i : intent) (raw : list (raw_result F))
    (processed : list (enhanced_result F)) :
  collect str_lower raw i = Ok processed ->
  NoDup (tidfull (payload <$> processed)) /\
  nonfull (payload <$> processed) = nonfull (raw_data <$> raw) /\
  (forall t, t ∈ tidfull (payload <$> processed)
             <-> t ∈ tidfull (raw_data <$> raw)).
Proof.
  unfold collect.
  destruct (foldlM (process_one str_lower i) ([], ∅) raw)
    as [[acc seen]| |] eqn:Efold; try discriminate.
  rewrite bind_Ok. cbn [fst]. intros Hp. injection Hp as <-.
  destruct (collect_fold_spec i raw [] acc ∅ seen Efold)
    as (H1 & H2 & H3 & H4).
  - intros t. cbn. rewrite elem_of_empty. split; [tauto|].
    intros Ht. inversion Ht.
  - constructor.
  - split; [exact H2|]. split; [exact H3|].
    intros t. rewrite <- H1, H4, elem_of_empty. tauto.
Qed.

Lemma collect_total (i : intent) (raw : list (raw_result F)) :
  Forall (fun r => table_type_is_str (raw_data r)) raw ->
  exists processed, collect str_lower raw i = Ok processed.
Proof.
  intros Hstr. unfold collect.
  destruct (foldlM_invariant (process_one str_lower i) (fun _ => True)
              (fun r => table_type_is_str (raw_data r)) raw ([], ∅))
    as (acc & Hacc & _); [|exact I|exact Hstr|].
  - intros [acc seen] r _ Hr.
    destruct (process_one_total i acc seen r Hr) as [acc' Hacc'].
    exists acc'. split; [exact Hacc'|exact I].
  - rewrite Hacc. eauto.
Qed.

(** The second and third loops sort and number what the first one kept. *)
Lemma ranked_payload (sorted : list (enhanced_result F)) :
  payload <$> imap (fun n r => set_rank (n + 1) r) sorted
  = payload <$> sorted.
Proof.
  rewrite fmap_imap. rewrite <- imap_const. apply imap_ext.
  intros n r _. reflexivity.
Qed.

Lemma post_process_unfold (i : intent) (raw : list (raw_result F))
    (processed : list (enhanced_result F)) :
  collect str_lower raw i = Ok processed ->
  _post_process_results str_lower raw i
  = Ok (imap (fun n r => set_rank (n + 1) r)
             (sort_reverse flt score processed)).
Proof.
  intros Hc. unfold _post_process_results. rewrite Hc. reflexivity.
Qed.

(** C4.  When the [table_type] entries are strings, the post-processing
    returns, and in its output no two full-table chunks share a table id,
    every candidate that is not a full-table chunk is present (as often as
    among the candidates), and every table id with a full-table candidate
    keeps one. *)
Theorem post_process_dedup (i : intent) (raw : list (raw_result F)) :
  Forall (fun r => table_type_is_str (raw_data r)) raw ->
  exists out,
    _post_process_results str_lower raw i = Ok out /\
    NoDup (tidfull (payload <$> out)) /\
    nonfull (payload <$> out) ≡ₚ nonfull (raw_data <$> raw) /\
    (forall t, t ∈ tidfull (payload <$> out)
               <-> t ∈ tidfull (raw_data <$> raw)).
Proof.
  intros Hstr. destruct (collect_total i raw Hstr) as [processed Hc].
  destruct (collect_spec i raw processed Hc) as (Hnd & Hnon & Hids).
  eexists. split; [apply post_process_unfold; exact Hc|].
  assert (Hperm : payload <$> imap (fun n r => set_rank (n + 1) r)
                                   (sort_reverse flt score processed)
                  ≡ₚ payload <$> processed).
  { rewrite ranked_payload. apply fmap_Permutation.
    apply sort_reverse_perm. }
  unfold tidfull, nonfull in *. split; [rewrite Hperm; exact Hnd|].
  split; [rewrite Hperm, Hnon; reflexivity|].
  intros t. rewrite Hperm. apply Hids.
Qed.

(** What is compared for stability: a result without its rank. *)
Definition scored (r : enhanced_result F) : F * chunk_data :=
  (score r, payload r).

Lemma filter_imap_rank {B : Type} (p : enhanced_result F -> bool)
    (g : enhanced_result F -> B)
    (f : nat -> enhanced_result F -> enhanced_result F)
    (l : list (enhanced_result F)) :
  (forall n x, p (f n x) = p x) -> (forall n x, g (f n x) = g x) ->
  g <$> List.filter p (imap f l) = g <$> List.filter p l.
Proof.
  revert f. induction l as [|x l IH]; intros f Hp Hg; [reflexivity|].
  rewrite imap_cons. cbn [List.filter]. rewrite Hp.
  destruct (p x).
  - cbn [fmap list_fmap]. rewrite Hg. f_equal.
    apply IH; intros n y; [apply Hp|apply Hg].
  - apply IH; intros n y; [apply Hp|apply Hg].
Qed.

End PostProcessFacts.

(** *** Examples on exact scores *)

(** [str.lower] on ASCII text. *)
Definition ascii_lower (s : pystr) : pystr :=
  map (fun c => if ((65 <=? c) && (c <=? 90))%N then (c + 32)%N else c) s.

Definition candidate (s : Q) (n : nat) (ct c : pystr) : raw_result Q :=
  {| raw_score := s; raw_rank := n;
     raw_data :=
       {| d_table_idx := 0; d_chunk_type := ct; d_content := c;
          d_metadata := {[ py "table_id" := VStr (py "page_0_table_0") ]} |} |}.

Definition plain_intent : intent :=
  {| data_type := py "unknown"; granularity := py "specific";
     time_focus := Intent.NoFocus; comparison := false;
     calculation := false; original_query := py "" |}.

(** The candidates of the specification's example: two full-table chunks
    and a row chunk of one table. *)
Definition two_full_one_row : list (raw_result Q) :=
  [ candidate 0.9 0 (py "table_full") (py "first");
    candidate 0.8 1 (py "table_full") (py "second");
    candidate 0.5 2 (py "table_row") (py "row") ].

Example two_full_one_row_result :
  match _post_process_results ascii_lower two_full_one_row plain_intent with
  | Ok out => Some (map (fun r => (chunk_type r, content r, rank r)) out)
  | _ => None
  end = Some [(py "table_full", py "first", 1); (py "table_row", py "row", 2)].
Proof. vm_compute. reflexivity. Qed.

Lemma candidates_typed (l : list (raw_result Q)) :
  Forall (fun r => d_metadata (raw_data r) !! py "table_type" = None) l ->
  Forall (fun r => table_type_is_str (raw_data r)) l.
Proof.
  intros Hl. eapply Forall_impl; [exact Hl|].
  intros r Hr z. cbn beta in Hr. rewrite Hr. discriminate.
Qed.

Lemma two_full_one_row_typed :
  Forall (fun r => table_type_is_str (raw_data r)) two_full_one_row.
Proof.
  apply candidates_typed. repeat constructor.
Qed.

Lemma post_process_dedup_witness :
  exists out,
    _post_process_results ascii_lower two_full_one_row plain_intent = Ok out /\
    NoDup (tidfull (payload <$> out)) /\
    nonfull (payload <$> out) ≡ₚ nonfull (raw_data <$> two_full_one_row) /\
    (forall t, t ∈ tidfull (payload <$> out)
               <-> t ∈ tidfull (raw_data <$> two_full_one_row)).
Proof.
  exact (post_process_dedup ascii_lower plain_intent two_full_one_row
           two_full_one_row_typed).
Defined.

(** Three row chunks, the first and the last with one score. *)
Definition tied_rows : list (raw_result Q) :=
  [ candidate 0.5 0 (py "table_row") (py "a");
    candidate 0.7 1 (py "table_row") (py "b");
    candidate 0.5 2 (py "table_row") (py "c") ].

Example tied_rows_result :
  match _post_process_results ascii_lower tied_rows plain_intent with
  | Ok out => Some (map (fun r => (content r, rank r)) out)
  | _ => None
  end = Some [(py "b", 1); (py "a", 2); (py "c", 3)].
Proof. vm_compute. reflexivity. Qed.

(** The same on Python floats, fed by an exact search: the two stored
    chunks are full tables without a table id, so one of them is kept. *)
Example post_process_floats :
  match
    hits ← search knn_query_exact
             (build_index (__init__ false false)
                [IndexerFacts.chunk_of [0; 1]%float;
                 IndexerFacts.chunk_of [1; 2]%float]).1 [1; 0]%float 5;
    _post_process_results ascii_lower (map of_hit hits) plain_intent
  with
  | Ok out => Some (map (fun r => (table_idx r, rank r)) out)
  | _ => None
  end = Some [(0, 1)].
Proof. vm_compute. reflexivity. Qed.

End QueryFacts.

(** * Further properties *)

(** ** The table detector: the containment test and the fixpoint loop *)
Module DetectorMore.
Import Detector LoopFacts DetectorFacts.

Definition valid_rect (r : rect) : Prop :=
  let '(x1, y1, x2, y2) := r in (x1 < x2 /\ y1 < y2)%Q.




(** *** Levels at the fixpoint are depths *)

Lemma levels_are_depths (idx : gmap pystr nat) (st0 : list table)
    (d : nat -> nat) (r : list table) :
  (forall i p, par idx st0 i = Some p -> d i = S (d p)) ->
  (forall i, par idx st0 i = None -> d i = 0) ->
  upper d r -> (forall i, stable idx st0 r i) ->
  forall i, lv r i = d i.
Proof.
  intros Hchild Hroot Hub Hst.
  assert (Hlow : forall m i, d i = m -> m <= lv r i).
  { induction m as [|m IH]; intros i Hd; [lia|].
    destruct (par idx st0 i) as [p|] eqn:Ep.
    - pose proof (Hchild i p Ep) as Hc.
      assert (Hp : d p = m) by lia.
      specialize (IH p Hp). specialize (Hst i p Ep). lia.
    - rewrite (Hroot i Ep) in Hd. discriminate. }
  intros i. specialize (Hub i). specialize (Hlow (d i) i eq_refl). lia.
Qed.

(** The levels the loop leaves: one more than the parent's. *)
Definition exact_levels (n : nat) (r : list table) : Prop :=
  forall t, t ∈ r ->
    nesting_level t < n /\
    match parent_id t with
    | None => nesting_level t = 0
    | Some pid =>
        exists p, p ∈ r /\ table_id p = pid /\
                  nesting_level t = nesting_level p + 1
    end.

Lemma calculate_levels_exact (ts : list table) :
  NoDup (table_id <$> ts) -> parents_larger ts ->
  exists r,
    (forall fuel, Nat.max 1 (length ts) <= fuel ->
       _calculate_nesting_levels fuel ts = Ok r) /\
    exact_levels (length ts) r.
Proof.
  intros Hnd Hpl.
  set (idx := build_table_id_to_index ts).
  set (st0 := set_nesting_level 0 <$> ts).
  set (d := depth idx st0 (length ts)).
  destruct (nesting_loop_spec idx st0 d
              (levels_resolved ts Hnd Hpl) (depth_child ts Hnd Hpl)
              (depth_root ts) (depth_bound ts Hnd Hpl)
              (Nat.max 1 (length ts)) 0 st0)
    as (r & Hloop & [Hlen Hsh] & Hub & _ & Hst).
  - apply shape_refl.
  - intros i. unfold lv, st0. rewrite list_lookup_fmap.
    destruct (ts !! i); cbn; lia.
  - intros i. lia.
  - lia.
  - unfold st0. rewrite length_fmap. lia.
  - unfold st0 in Hlen. rewrite length_fmap in Hlen.
    pose proof (levels_are_depths idx st0 d r (depth_child ts Hnd Hpl)
                  (depth_root ts) Hub Hst) as Hexact.
    exists r. split.
    { intros fuel Hf. unfold _calculate_nesting_levels.
      eapply nesting_loop_fuel_mono; [exact Hf|exact Hloop]. }
    intros t' Hin. apply list_elem_of_lookup_1 in Hin.
    destruct Hin as [i Hi].
    assert (Hin : i < length ts)
      by (rewrite <- Hlen; eapply lookup_lt_Some; exact Hi).
    destruct (Hsh i t' Hi) as (t0 & H0 & Heq).
    assert (Hlvi : lv r i = nesting_level t')
      by (unfold lv; rewrite Hi; reflexivity).
    assert (Hpid : parent_id t' = parent_id t0)
      by (rewrite Heq; reflexivity).
    split.
    { rewrite <- Hlvi, Hexact.
      pose proof (depth_bound ts Hnd Hpl i) as Hb.
      rewrite length_fmap in Hb. exact (Hb Hin). }
    rewrite Hpid. destruct (parent_id t0) as [pid|] eqn:Ep.
    + destruct (levels_resolved ts Hnd Hpl i t0 pid H0 Ep) as (p & Hp & Hpn).
      rewrite length_fmap in Hpn.
      assert (Hpar : par idx st0 i = Some p).
      { unfold par. rewrite H0. cbn. rewrite Ep. cbn. exact Hp. }
      destruct (lookup_lt_is_Some_2 r p) as [tp Htp]; [lia|].
      exists tp. split; [eapply list_elem_of_lookup_2; exact Htp|].
      split.
      * destruct (Hsh p tp Htp) as (tp0 & Htp0 & Heqp).
        destruct (index_lookup_sound _ _ _ Hp) as (q & Hq & Hid).
        unfold st0 in Htp0. rewrite list_lookup_fmap, Hq in Htp0.
        injection Htp0 as <-. rewrite Heqp. cbn. exact Hid.
      * assert (Hlvp : lv r p = nesting_level tp)
          by (unfold lv; rewrite Htp; reflexivity).
        rewrite <- Hlvi, <- Hlvp, !Hexact. unfold d, idx, st0.
        rewrite (depth_child ts Hnd Hpl i p Hpar). lia.
    + assert (Hpar : par idx st0 i = None).
      { unfold par. rewrite H0. cbn. rewrite Ep. reflexivity. }
      rewrite <- Hlvi, Hexact. apply (depth_root ts). exact Hpar.
Qed.

(** C3.  When the ids are unique and every [parent_id] names a table of the
    list with a strictly larger area (what the containment test produces),
    the [while] loop terminates within [max 1 N] passes: run with that
    budget, or any larger one, it returns.  For [N >= 1] the budget is [N]
    passes; the empty list needs one pass, over no region, to see that
    nothing changes.  What the loop returns is the fixpoint: a further pass
    changes nothing, a region without parent has level 0, a region with a
    parent is exactly one level below it (so strictly deeper), every level
    is below [N], and nothing but the levels was written. *)
Theorem nesting_levels_fixpoint_within_max_1_N (ts : list table) :
  NoDup (table_id <$> ts) -> parents_larger ts ->
  exists r,
    (forall fuel, Nat.max 1 (length ts) <= fuel ->
       _calculate_nesting_levels fuel ts = Ok r) /\
    (1 <= length ts -> _calculate_nesting_levels (length ts) ts = Ok r) /\
    nesting_pass (build_table_id_to_index ts) r = Ok (r, false) /\
    nesting_invariant r /\
    exact_levels (length ts) r /\
    length r = length ts /\
    (forall i t', r !! i = Some t' ->
       exists t, ts !! i = Some t /\
                 t' = set_nesting_level (nesting_level t') t).
Proof.
  intros Hnd Hpl.
  destruct (calculate_levels_spec ts Hnd Hpl)
    as (r & Hrun & Hfix & Hinv & Hlen & Hback).
  destruct (calculate_levels_exact ts Hnd Hpl) as (r' & Hrun' & Hexact).
  assert (r' = r) as ->.
  { specialize (Hrun (Nat.max 1 (length ts)) (Nat.le_refl _)).
    specialize (Hrun' (Nat.max 1 (length ts)) (Nat.le_refl _)).
    congruence. }
  exists r. split; [exact Hrun|]. split; [intros Hn; apply Hrun; lia|].
  auto.
Qed.

Lemma nesting_levels_fixpoint_within_max_1_N_witness :
  exists r,
    (forall fuel, Nat.max 1 (length chain3) <= fuel ->
       _calculate_nesting_levels fuel chain3 = Ok r) /\
    (1 <= length chain3 ->
       _calculate_nesting_levels (length chain3) chain3 = Ok r) /\
    nesting_pass (build_table_id_to_index chain3) r = Ok (r, false) /\
    nesting_invariant r /\
    exact_levels (length chain3) r /\
    length r = length chain3 /\
    (forall i t', r !! i = Some t' ->
       exists t, chain3 !! i = Some t /\
                 t' = set_nesting_level (nesting_level t') t).
Proof.
  exact (nesting_levels_fixpoint_within_max_1_N chain3 chain3_ids
           chain3_parents_larger).
Defined.

(** No region, no parent: the hypotheses hold of the empty list, yet zero
    passes do not end the loop, whose body runs before [changed] is tested;
    the first pass ends it. *)
Lemma nesting_levels_empty_needs_a_pass :
  NoDup (table_id <$> @nil table) /\ parents_larger [] /\
  _calculate_nesting_levels (length (@nil table)) [] = Diverge /\
  _calculate_nesting_levels 1 [] = Ok [].
Proof.
  split; [constructor|]. split.
  - intros t pid Hin. inversion Hin.
  - split; reflexivity.
Qed.





(** *** The loop on arbitrary parent ids *)

(** The parent id at position [i] names no table. *)
Definition dangling (idx : gmap pystr nat) (st0 : list table) (i : nat)
  : Prop :=
  exists t pid, st0 !! i = Some t /\ parent_id t = Some pid /\
                idx !! pid = None.

(** The ancestor [k] steps up from position [i]. *)
Definition ancestor (idx : gmap pystr nat) (st0 : list table) (k i : nat)
  : option nat :=
  Nat.iter k (fun o => o ≫= par idx st0) (Some i).

Lemma ancestor_S (idx : gmap pystr nat) (st0 : list table) (k i : nat) :
  ancestor idx st0 (S k) i = ancestor idx st0 k i ≫= par idx st0.
Proof. reflexivity. Qed.

Section AnyParents.
Variables (idx : gmap pystr nat) (st0 : list table).
Hypothesis idx_bound : forall pid p, idx !! pid = Some p -> p < length st0.

Lemma nesting_step_cases (st : list table) (ch : bool) (i : nat) :
  shape st0 st -> i < length st0 ->
  (nesting_step idx (st, ch) i = Raise KeyError /\ dangling idx st0 i) \/
  (exists st' ch',
     nesting_step idx (st, ch) i = Ok (st', ch') /\ shape st0 st' /\
     ~ dangling idx st0 i /\
     ((st' = st /\ ch' = ch /\ stable idx st0 st i) \/ ch' = true)).
Proof.
  intros [Hlen Hsh] Hi. unfold nesting_step.
  destruct (lookup_lt_is_Some_2 st i) as [t Ht]; [lia|]. rewrite Ht.
  destruct (Hsh i t Ht) as (t0 & Ht0 & Heq).
  assert (Hpid : parent_id t = parent_id t0) by (rewrite Heq; reflexivity).
  rewrite Hpid. destruct (parent_id t0) as [pid|] eqn:Ep.
  - destruct (idx !! pid) as [p|] eqn:Eidx.
    + right. pose proof (idx_bound pid p Eidx) as Hp.
      destruct (lookup_lt_is_Some_2 st p) as [tp Htp]; [lia|]. rewrite Htp.
      assert (Hnd : ~ dangling idx st0 i).
      { intros (t1 & pid1 & H1 & H2 & H3). congruence. }
      assert (Hpar : par idx st0 i = Some p).
      { unfold par. rewrite Ht0. cbn. rewrite Ep. cbn. exact Eidx. }
      destruct (nesting_level t <=? nesting_level tp)%nat eqn:Ecmp.
      * eexists _, true. split; [reflexivity|]. split; [|auto].
        split; [rewrite length_insert; exact Hlen|].
        intros j t' Hj. destruct (decide (i = j)) as [<-|Hne].
        -- rewrite list_lookup_insert_eq in Hj by lia. injection Hj as <-.
           exists t0. split; [exact Ht0|]. rewrite Heq. reflexivity.
        -- rewrite list_lookup_insert_ne in Hj by exact Hne. apply Hsh, Hj.
      * apply Nat.leb_gt in Ecmp. exists st, ch.
        split; [reflexivity|]. split; [split; assumption|].
        split; [exact Hnd|]. left. repeat split.
        intros p' Hp'. rewrite Hpar in Hp'. injection Hp' as <-.
        unfold lv. rewrite Ht, Htp. exact Ecmp.
    + left. split; [reflexivity|]. exists t0, pid. auto.
  - right. exists st, ch. split; [reflexivity|].
    split; [split; assumption|]. split.
    { intros (t1 & pid1 & H1 & H2 & H3). congruence. }
    left. repeat split. intros p' Hp'. unfold par in Hp'.
    rewrite Ht0 in Hp'. cbn in Hp'. rewrite Ep in Hp'. discriminate.
Qed.

Lemma nesting_step_flag (st st' : list table) (ch' : bool) (i : nat) :
  nesting_step idx (st, true) i = Ok (st', ch') -> ch' = true.
Proof.
  unfold nesting_step. destruct (st !! i) as [t|]; [|discriminate].
  destruct (parent_id t) as [pid|];
    [|intros H; injection H as _ <-; reflexivity].
  destruct (idx !! pid) as [p|]; [|discriminate].
  destruct (st !! p) as [tp|]; [|discriminate].
  destruct (_ <=? _)%nat; intros H; injection H as _ <-; reflexivity.
Qed.

(** Once set, [changed] stays set to the end of the pass. *)
Lemma nesting_steps_flag (ixs : list nat) (st st' : list table)
    (ch' : bool) :
  foldlM (nesting_step idx) (st, true) ixs = Ok (st', ch') -> ch' = true.
Proof.
  revert st. induction ixs as [|i ixs IH]; intros st H.
  - cbn in H. injection H as _ <-. reflexivity.
  - rewrite foldlM_cons in H.
    destruct (nesting_step idx (st, true) i) as [[s1 c1]| |] eqn:E;
      try discriminate.
    rewrite bind_Ok in H. apply nesting_step_flag in E. subst c1.
    eapply IH. exact H.
Qed.

Lemma nesting_steps_cases (ixs : list nat) (st : list table) (ch : bool) :
  shape st0 st -> Forall (fun i => i < length st0) ixs ->
  (foldlM (nesting_step idx) (st, ch) ixs = Raise KeyError /\
   Exists (dangling idx st0) ixs) \/
  (exists st' ch',
     foldlM (nesting_step idx) (st, ch) ixs = Ok (st', ch') /\
     shape st0 st' /\ Forall (fun i => ~ dangling idx st0 i) ixs /\
     (ch' = false -> st' = st /\ Forall (stable idx st0 st) ixs)).
Proof.
  revert st ch. induction ixs as [|i ixs IH]; intros st ch Hsh His.
  - right. exists st, ch. split; [reflexivity|]. split; [exact Hsh|].
    split; [constructor|]. intros _. split; [reflexivity|constructor].
  - apply Forall_cons in His. destruct His as [Hi His].
    rewrite foldlM_cons.
    destruct (nesting_step_cases st ch i Hsh Hi)
      as [[Hraise Hd]|(st1 & ch1 & Hstep & Hsh1 & Hnd & Hfl)].
    + left. rewrite Hraise. split; [reflexivity|]. left. exact Hd.
    + rewrite Hstep, bind_Ok.
      destruct (IH st1 ch1 Hsh1 His)
        as [[Hraise Hd]|(st' & ch' & Hfold & Hsh' & Hnds & Hfl')].
      * left. split; [exact Hraise|]. right. exact Hd.
      * right. exists st', ch'. split; [exact Hfold|].
        split; [exact Hsh'|]. split; [constructor; assumption|].
        intros Hch. destruct (Hfl' Hch) as [-> Hall].
        destruct Hfl as [(-> & -> & Hs)|Htrue].
        -- split; [reflexivity|]. constructor; assumption.
        -- exfalso. subst ch1.
           rewrite (nesting_steps_flag _ _ _ _ Hfold) in Hch. discriminate.
Qed.

Lemma ancestor_level (st : list table) (k i j : nat) :
  (forall i, stable idx st0 st i) ->
  ancestor idx st0 k i = Some j -> lv st j + k <= lv st i.
Proof.
  intros Hst. revert j. induction k as [|k IH]; intros j.
  - cbn. intros H. injection H as <-. lia.
  - rewrite ancestor_S.
    destruct (ancestor idx st0 k i) as [m|]; [|cbn; discriminate].
    cbn. intros Hj. specialize (IH m eq_refl). specialize (Hst m j Hj). lia.
Qed.

Lemma stable_everywhere (st : list table) :
  length st = length st0 ->
  Forall (stable idx st0 st) (seq 0 (length st)) ->
  forall i, stable idx st0 st i.
Proof.
  intros Hlen Hall i. destruct (decide (i < length st0)) as [Hi|Hi].
  - rewrite Forall_forall in Hall. apply Hall. apply elem_of_seq. lia.
  - intros p Hp. rewrite par_None_ge in Hp by lia. discriminate.
Qed.

(** With a dangling parent id the first pass raises [KeyError]. *)
Lemma nesting_loop_dangling (fuel i : nat) :
  i < length st0 -> dangling idx st0 i ->
  nesting_loop idx (S fuel) st0 = Raise KeyError.
Proof.
  intros Hi Hd. cbn [nesting_loop]. unfold nesting_pass.
  destruct (nesting_steps_cases (seq 0 (length st0)) st0 false)
    as [[Hraise _]|(st' & ch' & _ & _ & Hnds & _)].
  - apply shape_refl.
  - apply Forall_forall. intros j Hj. apply elem_of_seq in Hj. lia.
  - rewrite Hraise. reflexivity.
  - exfalso. rewrite Forall_forall in Hnds. apply (Hnds i); [|exact Hd].
    apply elem_of_seq. lia.
Qed.

(** With every parent id resolved and a cycle among the parents, every pass
    changes a level and the loop does not stop. *)
Lemma nesting_loop_cycle (fuel k i : nat) (st : list table) :
  (forall j, ~ dangling idx st0 j) ->
  0 < k -> ancestor idx st0 k i = Some i ->
  shape st0 st -> nesting_loop idx fuel st = Diverge.
Proof.
  intros Hnd Hk Hcycle. revert st.
  induction fuel as [|fuel IH]; intros st Hsh; [reflexivity|].
  cbn [nesting_loop]. unfold nesting_pass. pose proof Hsh as [Hlen _].
  destruct (nesting_steps_cases (seq 0 (length st)) st false Hsh)
    as [[_ Hd]|(st' & ch' & Hfold & Hsh' & _ & Hfl)].
  - apply Forall_forall. intros j Hj. apply elem_of_seq in Hj. lia.
  - exfalso. apply Exists_exists in Hd. destruct Hd as (j & _ & Hj).
    exact (Hnd j Hj).
  - rewrite Hfold, bind_Ok. cbn [fst snd]. destruct ch'.
    + apply IH. exact Hsh'.
    + exfalso. destruct (Hfl eq_refl) as [_ Hall].
      pose proof (stable_everywhere st Hlen Hall) as Hst.
      pose proof (ancestor_level st k i i Hst Hcycle). lia.
Qed.

End AnyParents.

Lemma build_index_bound (ts : list table) (pid : pystr) (p : nat) :
  build_table_id_to_index ts !! pid = Some p ->
  p < length (set_nesting_level 0 <$> ts).
Proof.
  intros H. destruct (index_lookup_sound _ _ _ H) as (t & Ht & _).
  rewrite length_fmap. eapply lookup_lt_Some. exact Ht.
Qed.

Lemma par_zeroed (idx : gmap pystr nat) (ts : list table) (i : nat) :
  par idx (set_nesting_level 0 <$> ts) i = par idx ts i.
Proof.
  unfold par. rewrite list_lookup_fmap. destruct (ts !! i); reflexivity.
Qed.

Lemma ancestor_zeroed (idx : gmap pystr nat) (ts : list table) (k i : nat) :
  ancestor idx (set_nesting_level 0 <$> ts) k i = ancestor idx ts k i.
Proof.
  induction k as [|k IH]; [reflexivity|].
  rewrite !ancestor_S, IH. destruct (ancestor idx ts k i); [|reflexivity].
  cbn. apply par_zeroed.
Qed.

(** X5.  When some [parent_id] names no table of the list, the level
    computation raises [KeyError] in its first pass. *)
Theorem missing_parent_raises_KeyError (ts : list table) (t : table)
    (pid : pystr) (fuel : nat) :
  t ∈ ts -> parent_id t = Some pid -> pid ∉ (table_id <$> ts) ->
  _calculate_nesting_levels (S fuel) ts = Raise KeyError.
Proof.
  intros Hin Hp Hmiss. apply list_elem_of_lookup_1 in Hin.
  destruct Hin as [i Hi]. unfold _calculate_nesting_levels.
  apply (nesting_loop_dangling _ _ (build_index_bound ts) fuel i).
  - rewrite length_fmap. eapply lookup_lt_Some. exact Hi.
  - exists (set_nesting_level 0 t), pid.
    split; [rewrite list_lookup_fmap, Hi; reflexivity|].
    split; [exact Hp|].
    destruct (build_table_id_to_index ts !! pid) as [p|] eqn:E;
      [|reflexivity].
    exfalso. apply Hmiss.
    destruct (index_lookup_sound _ _ _ E) as (q & Hq & <-).
    apply list_elem_of_fmap_2. eapply list_elem_of_lookup_2. exact Hq.
Qed.

Definition orphan : list table :=
  [set_parent_id (py "nowhere") (region 0 (0, 0, 10, 10)%Q "a")].

Lemma missing_parent_raises_KeyError_witness :
  _calculate_nesting_levels 1 orphan = Raise KeyError.
Proof.
  apply (missing_parent_raises_KeyError orphan
           (set_parent_id (py "nowhere") (region 0 (0, 0, 10, 10)%Q "a"))
           (py "nowhere") 0).
  - apply list_elem_of_In. left. reflexivity.
  - reflexivity.
  - intros H. apply list_elem_of_In in H. vm_compute in H.
    destruct H as [H|[]]. discriminate H.
Defined.

(** X6.  The loop has no bound of its own: when every [parent_id] names a
    table and the parents form a cycle (some position is its own ancestor
    through the id dictionary), the level computation does not terminate,
    whatever the number of passes allowed. *)
Theorem cyclic_parents_diverge (ts : list table) (k i fuel : nat) :
  (forall t pid, t ∈ ts -> parent_id t = Some pid ->
     pid ∈ (table_id <$> ts)) ->
  0 < k -> ancestor (build_table_id_to_index ts) ts k i = Some i ->
  _calculate_nesting_levels fuel ts = Diverge.
Proof.
  intros Hres Hk Hcycle. unfold _calculate_nesting_levels.
  apply (nesting_loop_cycle _ _ (build_index_bound ts) fuel k i).
  - intros j (t0 & pid & H0 & Hp & Hnone).
    rewrite list_lookup_fmap in H0.
    destruct (ts !! j) as [t|] eqn:Et; [|discriminate].
    cbn in H0. injection H0 as <-. cbn in Hp.
    assert (Hin : pid ∈ (table_id <$> ts)).
    { eapply Hres; [eapply list_elem_of_lookup_2; exact Et|exact Hp]. }
    apply list_elem_of_fmap in Hin. destruct Hin as (q & -> & Hq).
    destruct (index_lookup_complete ts q Hq) as [p Hp']. congruence.
  - exact Hk.
  - rewrite ancestor_zeroed. exact Hcycle.
  - apply shape_refl.
Qed.

(** Two tables that name each other as parent. *)
Definition mutual : list table :=
  [ set_parent_id (py "b") (region 0 (0, 0, 10, 10)%Q "a");
    set_parent_id (py "a") (region 0 (0, 0, 10, 10)%Q "b") ].

Lemma cyclic_parents_diverge_witness :
  _calculate_nesting_levels 100 mutual = Diverge.
Proof.
  apply (cyclic_parents_diverge mutual 2 0 100).
  - intros t pid Hin Hp. apply list_elem_of_In in Hin.
    destruct Hin as [<-|[<-|[]]]; injection Hp as <-;
      apply list_elem_of_In; vm_compute; auto.
  - lia.
  - vm_compute. reflexivity.
Defined.

End DetectorMore.

(** ** The table detector: which parent a region gets *)
Module DetectorParents.
Import Detector LoopFacts DetectorFacts DetectorMore.














(** *** The page groups *)










(** *** The writes to one position *)



















(** Three regions of page 0, each inside another, and one of page 1. *)
Definition russian_dolls : list table :=
  [ region 0 (20, 20, 80, 80)%Q "c"; region 0 (0, 0, 100, 100)%Q "a";
    region 1 (30, 30, 70, 70)%Q "d"; region 0 (10, 10, 90, 90)%Q "b" ].

Example russian_dolls_parents :
  match _detect_nested_relationships 4 russian_dolls with
  | Ok r => Some (map (fun t => (parent_id t, nesting_level t)) r)
  | _ => None
  end
  = Some [ (Some (py "b"), 2); (None, 0); (None, 0); (Some (py "a"), 1) ].
Proof. vm_compute. reflexivity. Qed.


End DetectorParents.

(** ** The order of the exact search *)
Module FloatOrder.
Import Indexer.

(** A float as a point of a lexicographic order on integers: NaN above
    everything, the two zeros together. *)
Definition code (x : spec_float) : Z * (Z * Z) :=
  match x with
  | S754_nan => (3, (0, 0))
  | S754_infinity false => (2, (0, 0))
  | S754_infinity true => (-2, (0, 0))
  | S754_zero _ => (0, (0, 0))
  | S754_finite false m e => (1, (e, Z.pos m))
  | S754_finite true m e => (-1, (- e, - Z.pos m))
  end%Z.

Definition lexlt (a b : Z * (Z * Z)) : Prop :=
  (a.1 < b.1 \/
   (a.1 = b.1 /\ (a.2.1 < b.2.1 \/ (a.2.1 = b.2.1 /\ a.2.2 < b.2.2))))%Z.

Lemma SFltb_code (x y : spec_float) :
  x <> S754_nan -> y <> S754_nan ->
  (SFltb x y = true <-> lexlt (code x) (code y)).
Proof.
  intros Hx Hy. unfold SFltb, lexlt.
  destruct x as [sx|sx| |sx mx ex], y as [sy|sy| |sy my ey]; try congruence;
    try destruct sx; try destruct sy; cbn -[Z.compare Pos.compare_cont];
    try (split; [discriminate|lia]); try (split; [lia|reflexivity]).
  all: try rewrite !Pos.compare_cont_spec; cbn [Pos.switch_Eq];
    destruct (Z.compare_spec ex ey); destruct (Pos.compare_spec mx my); cbn;
    split; try discriminate; try reflexivity; try lia.
Qed.

Lemma SFltb_not_nan (x y : spec_float) :
  SFltb x y = true -> x <> S754_nan /\ y <> S754_nan.
Proof.
  unfold SFltb. destruct x, y; cbn; try discriminate; split; discriminate.
Qed.

Lemma is_nan_spec (a : float) :
  PrimFloat.is_nan a = true <-> Prim2SF a = S754_nan.
Proof.
  unfold PrimFloat.is_nan. rewrite FloatAxioms.eqb_spec. unfold SFeqb.
  destruct (Prim2SF a) as [s|s| |s m e]; cbn -[Z.compare Pos.compare_cont].
  - split; discriminate.
  - destruct s; split; discriminate.
  - split; reflexivity.
  - destruct s; rewrite Z.compare_refl, Pos.compare_cont_refl; cbn;
      split; discriminate.
Qed.

Lemma not_nan_spec (a : float) :
  PrimFloat.is_nan a = false <-> Prim2SF a <> S754_nan.
Proof.
  rewrite <- is_nan_spec. destruct (PrimFloat.is_nan a); split; congruence.
Qed.

Lemma np_lt_code (a b : float) :
  np_lt a b = true <-> lexlt (code (Prim2SF a)) (code (Prim2SF b)).
Proof.
  unfold np_lt. rewrite orb_true_iff, andb_true_iff, negb_true_iff.
  rewrite FloatAxioms.ltb_spec.
  destruct (PrimFloat.is_nan a) eqn:Ea; destruct (PrimFloat.is_nan b) eqn:Eb.
  - apply is_nan_spec in Ea, Eb. rewrite Ea, Eb. unfold lexlt. cbn.
    split; [intros [H|[_ H]]; discriminate|lia].
  - apply is_nan_spec in Ea. rewrite Ea. unfold lexlt. cbn.
    split; [intros [H|[H _]]; discriminate|].
    destruct (Prim2SF b) as [s|s| |s m e]; try destruct s; cbn; lia.
  - apply is_nan_spec in Eb. apply not_nan_spec in Ea. rewrite Eb.
    unfold lexlt. cbn. split; [intros _|auto].
    destruct (Prim2SF a) as [s|s| |s m e]; try destruct s; cbn; try lia.
    congruence.
  - apply not_nan_spec in Ea, Eb. rewrite SFltb_code by assumption.
    split; [intros [H|[H _]]; [exact H|discriminate]|auto].
Qed.

Lemma np_lt_false (a b : float) :
  np_lt a b = false <-> ~ lexlt (code (Prim2SF a)) (code (Prim2SF b)).
Proof.
  rewrite <- np_lt_code. destruct (np_lt a b); split; congruence.
Qed.

Lemma np_lt_asym (a b : float) : np_lt a b = true -> np_lt b a = false.
Proof. rewrite np_lt_code, np_lt_false. unfold lexlt. lia. Qed.

Lemma np_lt_neg_trans (a b c : float) :
  np_lt a b = false -> np_lt b c = false -> np_lt a c = false.
Proof. rewrite !np_lt_false. unfold lexlt. lia. Qed.

(** Negation reverses the order and keeps NaN. *)
Lemma code_opp (x y : spec_float) :
  lexlt (code (SFopp x)) (code (SFopp y)) <->
  (x <> S754_nan /\ y <> S754_nan /\ lexlt (code y) (code x)) \/
  (x <> S754_nan /\ y = S754_nan).
Proof.
  unfold lexlt.
  destruct x as [sx|sx| |sx mx ex], y as [sy|sy| |sy my ey];
    try destruct sx; try destruct sy; cbn; split; intros H;
    repeat match goal with
           | H : _ \/ _ |- _ => destruct H
           | H : _ /\ _ |- _ => destruct H
           end;
    try congruence; try lia;
    try (left; split; [discriminate|split; [discriminate|lia]]);
    try (right; split; [discriminate|reflexivity]).
Qed.

(** What the order of the negated scores says about the scores: the
    second is not greater, and is NaN if the first is. *)
Lemma np_lt_opp_false (s t : float) :
  np_lt (- t) (- s) = false ->
  PrimFloat.ltb s t = false /\
  (PrimFloat.is_nan s = true -> PrimFloat.is_nan t = true).
Proof.
  rewrite np_lt_false, !opp_spec, code_opp. intros H. split.
  - destruct (PrimFloat.ltb s t) eqn:E; [|reflexivity]. exfalso.
    rewrite FloatAxioms.ltb_spec in E.
    destruct (SFltb_not_nan _ _ E) as [Hs Ht].
    apply H. left. split; [exact Ht|]. split; [exact Hs|].
    apply SFltb_code; assumption.
  - intros Hs. apply is_nan_spec in Hs.
    destruct (PrimFloat.is_nan t) eqn:Et; [reflexivity|]. exfalso.
    apply not_nan_spec in Et. apply H. right. split; assumption.
Qed.

End FloatOrder.

(** ** The table detector on Python floats *)
Module DetectorFloatFacts.
Import DetectorFloat FloatOrder.
#[local] Set Warnings "-inexact-float".

Lemma SFleb_code (x y : spec_float) :
  x <> S754_nan -> y <> S754_nan ->
  (SFleb x y = true <-> ~ lexlt (code y) (code x)).
Proof.
  intros Hx Hy. unfold SFleb, lexlt.
  destruct x as [sx|sx| |sx mx ex], y as [sy|sy| |sy my ey]; try congruence;
    try destruct sx; try destruct sy; cbn -[Z.compare Pos.compare_cont];
    try (split; [intros _; lia|reflexivity]);
    try (split; [discriminate|intros Hn; exfalso; apply Hn; lia]).
  all: try rewrite !Pos.compare_cont_spec; cbn [Pos.switch_Eq];
    destruct (Z.compare_spec ex ey); destruct (Pos.compare_spec mx my); cbn;
    split; try discriminate; try reflexivity; try lia;
    try (intros Hn; exfalso; apply Hn; lia).
Qed.

Lemma ltb_not_nan (a b : float) :
  PrimFloat.ltb a b = true ->
  PrimFloat.is_nan a = false /\ PrimFloat.is_nan b = false.
Proof.
  rewrite ltb_spec, !not_nan_spec. apply SFltb_not_nan.
Qed.

(** On numbers, [b <= a] is the negation of [a < b]. *)
Lemma leb_negb_ltb (a b : float) :
  PrimFloat.is_nan a = false -> PrimFloat.is_nan b = false ->
  PrimFloat.leb b a = negb (PrimFloat.ltb a b).
Proof.
  rewrite !not_nan_spec, leb_spec, ltb_spec. intros Ha Hb.
  pose proof (SFleb_code _ _ Hb Ha) as Hle.
  pose proof (SFltb_code _ _ Ha Hb) as Hlt.
  destruct (SFleb (Prim2SF b) (Prim2SF a)), (SFltb (Prim2SF a) (Prim2SF b));
    cbn; try reflexivity; exfalso.
  - apply (proj1 Hle eq_refl). apply Hlt. reflexivity.
  - assert (Hn : ~ ~ lexlt (code (Prim2SF a)) (code (Prim2SF b))).
    { intros Hn. apply Hle in Hn. discriminate. }
    apply Hn. intros Hl. apply Hlt in Hl. discriminate.
Qed.

Lemma py_max_not_nan (a b : float) :
  PrimFloat.is_nan a = false -> PrimFloat.is_nan b = false ->
  PrimFloat.is_nan (py_max a b) = false.
Proof. intros Ha Hb. unfold py_max. destruct (PrimFloat.ltb a b); assumption. Qed.

Lemma py_min_not_nan (a b : float) :
  PrimFloat.is_nan a = false -> PrimFloat.is_nan b = false ->
  PrimFloat.is_nan (py_min a b) = false.
Proof. intros Ha Hb. unfold py_min. destruct (PrimFloat.ltb b a); assumption. Qed.


(** On valid rectangles the test of emptiness is the negation of
    [valid_rect] on the intersection rectangle. *)
Lemma intersection_guard (ax1 ax2 bx1 bx2 : float) :
  PrimFloat.ltb ax1 ax2 = true -> PrimFloat.ltb bx1 bx2 = true ->
  PrimFloat.leb (py_min bx2 ax2) (py_max bx1 ax1)
  = negb (PrimFloat.ltb (py_max bx1 ax1) (py_min bx2 ax2)).
Proof.
  intros Ha Hb. apply ltb_not_nan in Ha, Hb.
  apply leb_negb_ltb; [apply py_max_not_nan|apply py_min_not_nan]; tauto.
Qed.

Lemma ltb_leb_false (a b : float) :
  PrimFloat.leb b a = true -> PrimFloat.ltb a b = false.
Proof.
  intros Hle. destruct (PrimFloat.ltb a b) eqn:Hlt; [|reflexivity].
  destruct (ltb_not_nan a b Hlt) as [Ha Hb].
  rewrite (leb_negb_ltb a b Ha Hb), Hlt in Hle. discriminate.
Qed.


Section Containment.
Variables (A B : rect).
Hypothesis valid_A : valid_rect A.
Hypothesis valid_B : valid_rect B.

Let test := _is_contained B A default_threshold.

(** The outcomes of the test on valid rectangles: it raises when the
    divisions fail, answers true on a child, and false otherwise. *)
Lemma is_contained_outcomes :
  (test = Raise ZeroDivisionError <-> spec_divides_by_zero A B) /\
  (test = Ok true
   <-> spec_child_of A B /\ ~ spec_divides_by_zero A B) /\
  (test = Ok false
   <-> ~ spec_child_of A B /\ ~ spec_divides_by_zero A B).
Proof.
  subst test. revert valid_A valid_B.
  destruct A as [[[ax1 ay1] ax2] ay2], B as [[[bx1 by1] bx2] by2].
  intros [Hax Hay] [Hbx Hby].
  unfold spec_divides_by_zero, spec_child_of, _is_contained, py_div.
  cbn [spec_intersection valid_rect _calculate_area].
  rewrite (intersection_guard ax1 ax2 bx1 bx2 Hax Hbx),
    (intersection_guard ay1 ay2 by1 by2 Hay Hby).
  change default_threshold with 0.85%float.
  generalize (PrimFloat.ltb (py_max bx1 ax1) (py_min bx2 ax2)).
  generalize (PrimFloat.ltb (py_max by1 ay1) (py_min by2 ay2)).
  generalize (PrimFloat.eqb ((bx2 - bx1) * (by2 - by1)) 0).
  generalize (PrimFloat.eqb ((ax2 - ax1) * (ay2 - ay1)) 0).
  intros ZA ZB Y X.
  destruct X, Y, ZB, ZA; cbn [negb orb mbind result_bind];
    generalize (PrimFloat.ltb 0.85
                  ((py_min bx2 ax2 - py_max bx1 ax1)
                   * (py_min by2 ay2 - py_max by1 ay1)
                   / ((bx2 - bx1) * (by2 - by1))));
    generalize (PrimFloat.ltb ((bx2 - bx1) * (by2 - by1)
                               / ((ax2 - ax1) * (ay2 - ay1))) 0.9);
    intros R C; destruct C, R; cbn [andb];
    (split; [|split]); (split; [intros Ht|intros Hs]);
    try discriminate Ht; try reflexivity;
    try (exfalso; intuition discriminate);
    try (intuition discriminate).
Qed.

End Containment.


(** X1.  On Python floats the containment test can raise, and it raises
    nothing but [ZeroDivisionError]: whatever the boxes and the threshold
    are, NaN and infinite coordinates included, it either answers, or it
    raises [ZeroDivisionError] and the rounded area of one of the two boxes
    is zero.  When neither area is zero it answers. *)
Theorem contained_raises_only_ZeroDivisionError (inner outer : rect)
    (threshold : float) :
  ((exists c, _is_contained inner outer threshold = Ok c) \/
   (_is_contained inner outer threshold = Raise ZeroDivisionError /\
    (PrimFloat.eqb (_calculate_area inner) 0 = true \/
     PrimFloat.eqb (_calculate_area outer) 0 = true))) /\
  (PrimFloat.eqb (_calculate_area inner) 0 = false /\
   PrimFloat.eqb (_calculate_area outer) 0 = false ->
   exists c, _is_contained inner outer threshold = Ok c).
Proof.
  destruct inner as [[[ix1 iy1] ix2] iy2], outer as [[[ox1 oy1] ox2] oy2].
  unfold _is_contained, py_div. cbn [_calculate_area].
  destruct (PrimFloat.leb _ _ || PrimFloat.leb _ _).
  { split; [left|intros _]; eexists; reflexivity. }
  destruct (PrimFloat.eqb ((ix2 - ix1) * (iy2 - iy1)) 0);
    cbn [mbind result_bind].
  { split; [right; auto|intros [? _]; discriminate]. }
  destruct (PrimFloat.eqb ((ox2 - ox1) * (oy2 - oy1)) 0);
    cbn [mbind result_bind].
  { split; [right; auto|intros [_ ?]; discriminate]. }
  split; [left|intros _]; eexists; reflexivity.
Qed.

(** C2, as the code has it: on Python floats.  For an ordered pair of
    distinct positions [i <> j] of a page list, holding the regions [a]
    (outer) and [b] (inner) with valid rectangles, the containment test has
    three outcomes.  It raises [ZeroDivisionError] exactly when the
    intersection rectangle is non-empty and the rounded area of [b] or of
    [a] is zero, and the loop body raises with it.  Otherwise it answers
    true exactly when [b] is a child of [a] (non-empty intersection
    rectangle, rounded intersection area over rounded area of [b] above
    0.85, rounded area of [b] over rounded area of [a] below 0.9): the loop
    body then writes [a]'s id into [b]'s [parent_id], and leaves the store
    alone when the answer is false.  A pair whose rounded area ratio is at
    least 0.9 is not a child. *)
Theorem containment_test_binary64 (st : list table) (i j ka kb : nat)
    (a b : table) :
  i <> j -> valid_rect (bbox a) -> valid_rect (bbox b) ->
  (_is_contained (bbox b) (bbox a) default_threshold
   = Raise ZeroDivisionError
   <-> spec_divides_by_zero (bbox a) (bbox b)) /\
  (_is_contained (bbox b) (bbox a) default_threshold = Ok true
   <-> spec_child_of (bbox a) (bbox b)
       /\ ~ spec_divides_by_zero (bbox a) (bbox b)) /\
  (_is_contained (bbox b) (bbox a) default_threshold = Ok false
   <-> ~ spec_child_of (bbox a) (bbox b)
       /\ ~ spec_divides_by_zero (bbox a) (bbox b)) /\
  (spec_divides_by_zero (bbox a) (bbox b) ->
   relate st (i, (ka, a)) (j, (kb, b)) = Raise ZeroDivisionError) /\
  (spec_child_of (bbox a) (bbox b)
   /\ ~ spec_divides_by_zero (bbox a) (bbox b) ->
   relate st (i, (ka, a)) (j, (kb, b))
   = Ok (alter (set_parent_id (table_id a)) kb st)) /\
  (~ spec_child_of (bbox a) (bbox b)
   /\ ~ spec_divides_by_zero (bbox a) (bbox b) ->
   relate st (i, (ka, a)) (j, (kb, b)) = Ok st) /\
  (PrimFloat.leb 0.9
     (_calculate_area (bbox b) / _calculate_area (bbox a)) = true ->
   ~ spec_child_of (bbox a) (bbox b) /\
   _is_contained (bbox b) (bbox a) default_threshold <> Ok true).
Proof.
  intros Hij Ha Hb.
  destruct (is_contained_outcomes (bbox a) (bbox b) Ha Hb)
    as (Hraise & Htrue & Hfalse).
  split; [exact Hraise|]. split; [exact Htrue|]. split; [exact Hfalse|].
  unfold relate. rewrite bool_decide_eq_true_2 by exact Hij.
  split; [intros Hs; apply Hraise in Hs; rewrite Hs; reflexivity|].
  split; [intros Hs; apply Htrue in Hs; rewrite Hs; reflexivity|].
  split; [intros Hs; apply Hfalse in Hs; rewrite Hs; reflexivity|].
  intros Hratio.
  assert (Hno : ~ spec_child_of (bbox a) (bbox b)).
  { intros (_ & _ & Hr). apply ltb_leb_false in Hratio. congruence. }
  split; [exact Hno|]. intros Ht. apply Htrue in Ht. tauto.
Qed.

(** The scenario of the specification: [A = (0,0,100,100)] and
    [B = (10,10,90,90)] on page 0. *)
Definition region (p : nat) (b : rect) (id : string) : table :=
  {| page := p; bbox := b; table_id := py id; parent_id := None;
     nesting_level := 0 |}.
Arguments region p b id%_string.

Definition table_A : table := region 0 (0, 0, 100, 100)%float "page_0_table_0".
Definition table_B : table := region 0 (10, 10, 90, 90)%float "page_0_table_1".

Example relate_A_B :
  relate [table_A; table_B] (0, (0, table_A)) (1, (1, table_B))
  = Ok [table_A; set_parent_id (py "page_0_table_0") table_B].
Proof. vm_compute. reflexivity. Qed.

Lemma valid_A : valid_rect (bbox table_A).
Proof. split; reflexivity. Defined.

Lemma valid_B : valid_rect (bbox table_B).
Proof. split; reflexivity. Defined.

Lemma containment_test_binary64_witness :
  (_is_contained (bbox table_B) (bbox table_A) default_threshold
   = Raise ZeroDivisionError
   <-> spec_divides_by_zero (bbox table_A) (bbox table_B)) /\
  (_is_contained (bbox table_B) (bbox table_A) default_threshold = Ok true
   <-> spec_child_of (bbox table_A) (bbox table_B)
       /\ ~ spec_divides_by_zero (bbox table_A) (bbox table_B)) /\
  (_is_contained (bbox table_B) (bbox table_A) default_threshold = Ok false
   <-> ~ spec_child_of (bbox table_A) (bbox table_B)
       /\ ~ spec_divides_by_zero (bbox table_A) (bbox table_B)) /\
  (spec_divides_by_zero (bbox table_A) (bbox table_B) ->
   relate [table_A; table_B] (0, (0, table_A)) (1, (1, table_B))
   = Raise ZeroDivisionError) /\
  (spec_child_of (bbox table_A) (bbox table_B)
   /\ ~ spec_divides_by_zero (bbox table_A) (bbox table_B) ->
   relate [table_A; table_B] (0, (0, table_A)) (1, (1, table_B))
   = Ok (alter (set_parent_id (table_id table_A)) 1 [table_A; table_B])) /\
  (~ spec_child_of (bbox table_A) (bbox table_B)
   /\ ~ spec_divides_by_zero (bbox table_A) (bbox table_B) ->
   relate [table_A; table_B] (0, (0, table_A)) (1, (1, table_B))
   = Ok [table_A; table_B]) /\
  (PrimFloat.leb 0.9
     (_calculate_area (bbox table_B) / _calculate_area (bbox table_A)) = true ->
   ~ spec_child_of (bbox table_A) (bbox table_B) /\
   _is_contained (bbox table_B) (bbox table_A) default_threshold <> Ok true).
Proof.
  exact (containment_test_binary64 [table_A; table_B] 0 1 0 1 table_A table_B
           (O_S 0) valid_A valid_B).
Defined.

(** Two failures of the test as the specification words it.  A box of
    valid width and height whose area rounds to zero makes the division
    raise.  And a box whose area is, in exact arithmetic, more than nine
    tenths of the area of the other is marked as its child, because the
    rounded ratio falls below the double next to 0.9. *)
Definition tiny : rect := (0, 0, 1e-200, 1e-200)%float.
Definition unit_square : rect := (0, 0, 1, 1)%float.
Definition near_inner : rect := (47.4, 8.4, 168.9, 84.5)%float.
Definition near_outer : rect := (47.4, 8.4, 182.4, 84.5)%float.

Lemma containment_test_rounds :
  (valid_rect tiny /\ valid_rect unit_square /\
   _is_contained tiny unit_square default_threshold
   = Raise ZeroDivisionError) /\
  (valid_rect near_inner /\ valid_rect near_outer /\
   _is_contained near_inner near_outer default_threshold = Ok true /\
   (0.9 <= exact_area near_inner / exact_area near_outer)%Q).
Proof.
  split.
  - split; [split; reflexivity|]. split; [split; reflexivity|].
    vm_compute. reflexivity.
  - split; [split; reflexivity|]. split; [split; reflexivity|].
    split; [vm_compute; reflexivity|].
    apply Qle_bool_iff. vm_compute. reflexivity.
Qed.

End DetectorFloatFacts.


(** ** The index builder: the exact search *)
Module IndexerMore.
Import Indexer LoopFacts IndexerFacts FloatOrder.

(** The cosine similarity as [search] computes it for one row. *)
Definition cosine (row q : list float) : float :=
  (dot row q / (norm row * norm q))%float.

(** [x] may stand before [y] in ascending order. *)
Definition asc (x y : nat * float) : Prop := np_lt y.2 x.2 = false.

Definition sorted_pairs (xs : list float) : list (nat * float) :=
  foldr insert_asc [] (enumerate xs).

Lemma insert_asc_sorted (x : nat * float) (l : list (nat * float)) :
  StronglySorted asc l -> StronglySorted asc (insert_asc x l).
Proof.
  induction l as [|y l IH]; cbn; intros Hs.
  - repeat constructor.
  - inversion Hs as [|? ? Hl Hy]; subst. destruct (np_lt y.2 x.2) eqn:E.
    + constructor; [apply IH; exact Hl|].
      apply Forall_forall. intros z Hz. rewrite insert_asc_perm in Hz.
      apply elem_of_cons in Hz. destruct Hz as [->|Hz].
      * unfold asc. apply np_lt_asym. exact E.
      * rewrite Forall_forall in Hy. apply Hy. exact Hz.
    + constructor; [exact Hs|]. constructor; [exact E|].
      eapply Forall_impl; [exact Hy|]. intros z Hz. unfold asc in *.
      eapply np_lt_neg_trans; eassumption.
Qed.

Lemma sorted_pairs_sorted (xs : list float) :
  StronglySorted asc (sorted_pairs xs).
Proof.
  unfold sorted_pairs. induction (enumerate xs) as [|e l IH]; cbn.
  - constructor.
  - apply insert_asc_sorted. exact IH.
Qed.

Lemma sorted_pairs_perm (xs : list float) :
  sorted_pairs xs ≡ₚ enumerate xs.
Proof.
  unfold sorted_pairs. induction (enumerate xs) as [|e l IH]; cbn.
  - reflexivity.
  - rewrite insert_asc_perm, IH. reflexivity.
Qed.

(** [np.argsort] returns the positions in ascending order of their
    values. *)
Lemma np_argsort_order (xs : list float) (i j a b : nat) :
  i < j -> np_argsort xs !! i = Some a -> np_argsort xs !! j = Some b ->
  exists va vb, xs !! a = Some va /\ xs !! b = Some vb /\ np_lt vb va = false.
Proof.
  intros Hij Ha Hb. unfold np_argsort in Ha, Hb.
  change (foldr insert_asc [] (enumerate xs)) with (sorted_pairs xs) in Ha, Hb.
  change (map fst (sorted_pairs xs)) with (fst <$> sorted_pairs xs) in Ha, Hb.
  rewrite list_lookup_fmap in Ha, Hb.
  destruct (sorted_pairs xs !! i) as [[a' va]|] eqn:Ea; [|discriminate].
  destruct (sorted_pairs xs !! j) as [[b' vb]|] eqn:Eb; [|discriminate].
  cbn in Ha, Hb. injection Ha as ->. injection Hb as ->.
  exists va, vb.
  assert (Hin : forall n e, sorted_pairs xs !! n = Some e -> xs !! e.1 = Some e.2).
  { intros n e He. apply elem_of_enumerate. rewrite <- surjective_pairing.
    rewrite <- sorted_pairs_perm. apply list_elem_of_lookup. exists n.
    exact He. }
  split; [exact (Hin i _ Ea)|]. split; [exact (Hin j _ Eb)|].
  exact (strongly_sorted_lookup asc _ i j _ _ (sorted_pairs_sorted xs)
           Hij Ea Eb).
Qed.

(** The length of a slice [l[:k]]. *)
Definition slice_len (k : Z) (n : nat) : nat :=
  if (k <? 0)%Z then n - Z.to_nat (- k) else Nat.min (Z.to_nat k) n.

Lemma slice_to_take {A : Type} (k : Z) (l : list A) :
  slice_to k l = take (slice_len k (length l)) l.
Proof.
  unfold slice_to, slice_len. destruct (k <? 0)%Z; [reflexivity|].
  destruct (Nat.le_ge_cases (Z.to_nat k) (length l)) as [H|H].
  - rewrite Nat.min_l by exact H. reflexivity.
  - rewrite Nat.min_r by exact H. rewrite !take_ge by lia. reflexivity.
Qed.

Lemma slice_to_length {A : Type} (k : Z) (l : list A) :
  length (slice_to k l) = slice_len k (length l).
Proof.
  rewrite slice_to_take, length_take. unfold slice_len.
  destruct (k <? 0)%Z; lia.
Qed.

Lemma zip_with_map {A B C D : Type} (f : B -> C -> D) (g : A -> B)
    (h : A -> C) (l : list A) :
  zip_with f (map g l) (map h l) = map (fun x => f (g x) (h x)) l.
Proof. induction l as [|x l IH]; cbn; [reflexivity|]. rewrite IH. reflexivity. Qed.

Lemma enumerate_lookup {A : Type} (l : list A) (i n : nat) (x : A) :
  enumerate l !! i = Some (n, x) <-> n = i /\ l !! i = Some x.
Proof.
  unfold enumerate. rewrite list_lookup_imap_Some. split.
  - intros (y & Hy & Heq). injection Heq as -> ->. auto.
  - intros [-> Hx]. exists x. auto.
Qed.

(** The positions the exact search returns, best first. *)
Definition top_indices (rows : list (list float)) (q : list float) (k : Z)
  : list nat :=
  slice_to k (np_argsort (map PrimFloat.opp
                            (map (fun row => cosine row q) rows))).

Lemma top_indices_lookup (rows : list (list float)) (q : list float) (k : Z)
    (i n : nat) :
  top_indices rows q k !! i = Some n ->
  np_argsort (map PrimFloat.opp (map (fun row => cosine row q) rows)) !! i
  = Some n /\ i < slice_len k (length rows) /\ n < length rows.
Proof.
  unfold top_indices. rewrite slice_to_take. intros H.
  apply lookup_take_Some in H. destruct H as [H Hi].
  pose proof (np_argsort_perm
                (map PrimFloat.opp (map (fun row => cosine row q) rows)))
    as Hperm.
  rewrite (Permutation_length Hperm), length_seq, !length_map in Hi.
  split; [exact H|]. split; [exact Hi|].
  assert (Hn : n ∈ seq 0 (length rows)).
  { rewrite <- (length_map (fun row => cosine row q)).
    rewrite <- (length_map PrimFloat.opp). rewrite <- Hperm.
    apply list_elem_of_lookup. exists i. exact H. }
  apply elem_of_seq in Hn. lia.
Qed.

Lemma top_indices_length (rows : list (list float)) (q : list float)
    (k : Z) :
  length (top_indices rows q k) = slice_len k (length rows).
Proof.
  unfold top_indices. rewrite slice_to_length.
  rewrite (Permutation_length (np_argsort_perm _)), length_seq, !length_map.
  reflexivity.
Qed.

Lemma top_indices_NoDup (rows : list (list float)) (q : list float) (k : Z) :
  NoDup (top_indices rows q k).
Proof.
  unfold top_indices. rewrite slice_to_take.
  eapply sublist_NoDup; [|apply sublist_take].
  rewrite np_argsort_perm. apply NoDup_seq.
Qed.

(** One result of the exact search, for the entry [e] of the enumeration
    of [top_indices]. *)
Definition exact_hit (self : builder) (rows : list (list float))
    (q : list float) (e : nat * nat) (h : hit) : Prop :=
  rank h = e.1 /\ id h = e.2 /\
  exists row, rows !! e.2 = Some row /\ score h = cosine row q /\
    distance h = (1 - score h)%float /\
    id_to_data self !! e.2 = Some (data h).

Lemma search_exact_spec
    (knn_query : hnsw -> list float -> Z -> result (list nat * list float))
    (self : builder) (rows : list (list float)) (q : list float) (k : Z) :
  use_hnsw self = false -> index self = Some (ArrayIndex rows) ->
  covers self rows -> Forall (fun row => length row = length q) rows ->
  exists res,
    search knn_query self q k = Ok res /\
    Forall2 (exact_hit self rows q) (enumerate (top_indices rows q k)) res.
Proof.
  intros Hmode Hix Hcov Hdim. unfold search. rewrite Hix, Hmode.
  assert (Hdot : np_dot rows q = Ok (map (fun row => dot row q) rows)).
  { unfold np_dot.
    destruct (forallb (fun row => (length row =? length q)%nat) rows) eqn:E;
      [reflexivity|].
    exfalso. apply not_true_iff_false in E. apply E.
    apply forallb_forall. intros row Hrow. apply Nat.eqb_eq.
    rewrite Forall_forall in Hdim. apply Hdim. apply list_elem_of_In.
    exact Hrow. }
  rewrite Hdot. cbn [mbind result_bind].
  rewrite (zip_with_map PrimFloat.div (fun row => dot row q)
             (fun row => (norm row * norm q)%float) rows).
  change (map (fun x => (dot x q / (norm x * norm q))%float) rows)
    with (map (fun row => cosine row q) rows).
  fold (top_indices rows q k).
  apply mapM_ok. intros [n i] Hin. cbn [fst snd].
  apply list_elem_of_lookup in Hin. destruct Hin as [p Hp].
  apply enumerate_lookup in Hp. destruct Hp as [-> Hp].
  destruct (top_indices_lookup _ _ _ _ _ Hp) as (_ & _ & Hi).
  destruct (lookup_lt_is_Some_2 rows i Hi) as [row Hrow].
  change (map (fun row => cosine row q) rows)
    with ((fun row => cosine row q) <$> rows).
  rewrite list_lookup_fmap, Hrow. cbn [fmap option_fmap option_map].
  destruct (Hcov i Hi) as [d Hd]. unfold lookup_data. rewrite Hd.
  eexists. split; [reflexivity|]. unfold exact_hit. cbn.
  split; [reflexivity|]. split; [reflexivity|]. exists row.
  repeat split; try reflexivity; assumption.
Qed.

(** The builder after a build in exact mode. *)
Lemma build_index_exact (self : builder) (embeddings : list embedding_data)
    (d : nat) :
  use_hnsw self = false -> embeddings <> [] ->
  Forall (fun e => length (embedding e) = d) embeddings ->
  use_hnsw (build_index self embeddings).1 = false /\
  index (build_index self embeddings).1
  = Some (ArrayIndex (map embedding embeddings)) /\
  forall i,
    id_to_data (build_index self embeddings).1 !! i
    = match embeddings !! i with
      | Some e => Some (data_of e)
      | None => id_to_data self !! i
      end.
Proof.
  intros Hmode Hne Hdim.
  assert (Harr : np_array (map embedding embeddings)
                 = Ok (map embedding embeddings)).
  { destruct embeddings as [|e0 r]; [congruence|]. cbn.
    destruct (forallb _ _) eqn:E; [reflexivity|].
    exfalso. apply not_true_iff_false in E. apply E.
    apply forallb_forall. intros w Hw. apply Nat.eqb_eq.
    apply Forall_cons in Hdim. destruct Hdim as [H0 Hr].
    apply in_map_iff in Hw. destruct Hw as (e & <- & He).
    rewrite Forall_forall in Hr. rewrite H0. apply Hr.
    apply list_elem_of_In. exact He. }
  destruct embeddings as [|e0 r] eqn:Eemb; [congruence|].
  rewrite <- Eemb in *. unfold build_index. rewrite Eemb. rewrite <- Eemb.
  rewrite Hmode, Harr. cbn [mbind result_bind fst use_hnsw index id_to_data].
  split; [reflexivity|]. split; [reflexivity|].
  intros i. apply id_table_lookup.
Qed.

(** What [search] answers in exact mode on the index built from
    [embeddings]: one result per position of [top_indices], in that
    order. *)
Definition exact_answer (embeddings : list embedding_data) (q : list float)
    (k : Z) (res : list hit) : Prop :=
  Forall2 (fun (e : nat * nat) (h : hit) =>
             rank h = e.1 /\ id h = e.2 /\
             exists em, embeddings !! e.2 = Some em /\
               data h = data_of em /\
               score h = cosine (embedding em) q /\
               distance h = (1 - score h)%float)
          (enumerate (top_indices (map embedding embeddings) q k)) res.

Lemma exact_search_built
    (knn_query : hnsw -> list float -> Z -> result (list nat * list float))
    (self : builder) (embeddings : list embedding_data) (q : list float)
    (k : Z) :
  use_hnsw self = false -> embeddings <> [] ->
  Forall (fun e => length (embedding e) = length q) embeddings ->
  exists res,
    search knn_query (build_index self embeddings).1 q k = Ok res /\
    exact_answer embeddings q k res.
Proof.
  intros Hmode Hne Hdim.
  destruct (build_index_exact self embeddings (length q) Hmode Hne Hdim)
    as (Hmode' & Hix & Htab).
  destruct (search_exact_spec knn_query (build_index self embeddings).1
              (map embedding embeddings) q k Hmode' Hix)
    as (res & Hres & HF).
  { intros i Hi. rewrite Htab. rewrite length_map in Hi.
    destruct (lookup_lt_is_Some_2 embeddings i Hi) as [e He].
    rewrite He. eauto. }
  { apply Forall_fmap. exact Hdim. }
  exists res. split; [exact Hres|]. unfold exact_answer.
  eapply Forall2_impl; [exact HF|].
  intros [n i] h (Hr & Hi & row & Hrow & Hs & Hd & Hdata).
  cbn [fst snd] in *. split; [exact Hr|]. split; [exact Hi|].
  change (map embedding embeddings) with (embedding <$> embeddings) in Hrow.
  rewrite list_lookup_fmap in Hrow.
  destruct (embeddings !! i) as [em|] eqn:Eem; [|discriminate].
  cbn in Hrow. injection Hrow as <-. exists em.
  split; [reflexivity|]. rewrite Htab, Eem in Hdata. injection Hdata as Hdata.
  repeat split; auto.
Qed.

Lemma answer_lookup (embeddings : list embedding_data) (q : list float)
    (k : Z) (res : list hit) (i : nat) (h : hit) :
  exact_answer embeddings q k res -> res !! i = Some h ->
  top_indices (map embedding embeddings) q k !! i = Some (id h) /\
  rank h = i /\
  exists em, embeddings !! id h = Some em /\
    data h = data_of em /\
    score h = cosine (embedding em) q /\
    distance h = (1 - score h)%float.
Proof.
  intros HF Hh. destruct (Forall2_lookup_r _ _ _ _ _ HF Hh)
    as ([n j] & He & Hr & Hi & em & Hem & Hrest).
  cbn [fst snd] in *. apply enumerate_lookup in He. destruct He as [-> Hj].
  rewrite Hi. split; [exact Hj|]. split; [exact Hr|]. exists em.
  split; [exact Hem|exact Hrest].
Qed.

Lemma answer_length (embeddings : list embedding_data) (q : list float)
    (k : Z) (res : list hit) :
  exact_answer embeddings q k res ->
  length res = length (slice_to k embeddings).
Proof.
  intros HF. rewrite <- (Forall2_length _ _ _ HF). unfold enumerate.
  rewrite length_imap, top_indices_length, length_map, slice_to_length.
  reflexivity.
Qed.

Lemma answer_ids (embeddings : list embedding_data) (q : list float)
    (k : Z) (res : list hit) :
  exact_answer embeddings q k res ->
  id <$> res = top_indices (map embedding embeddings) q k.
Proof.
  intros HF. rewrite <- (enumerate_snd (top_indices _ q k)).
  induction HF as [|e h l ys (_ & Hi & _) _ IH]; [reflexivity|].
  cbn. rewrite Hi, IH. reflexivity.
Qed.

Lemma answer_ranks (embeddings : list embedding_data) (q : list float)
    (k : Z) (res : list hit) :
  exact_answer embeddings q k res -> rank <$> res = seq 0 (length res).
Proof.
  intros HF. pose proof (Forall2_length _ _ _ HF) as Hlen.
  unfold enumerate in Hlen. rewrite length_imap in Hlen.
  rewrite <- Hlen, <- enumerate_fst. clear Hlen.
  induction HF as [|e h l ys (Hr & _) _ IH]; [reflexivity|].
  cbn. rewrite Hr, IH. reflexivity.
Qed.

Lemma opp_cosine_lookup (embeddings : list embedding_data) (q : list float)
    (n : nat) (v : float) :
  map PrimFloat.opp
      (map (fun row => cosine row q) (map embedding embeddings)) !! n
  = Some v ->
  exists e, embeddings !! n = Some e /\ v = (- cosine (embedding e) q)%float.
Proof.
  change (map PrimFloat.opp
            (map (fun row => cosine row q) (map embedding embeddings)))
    with (PrimFloat.opp <$>
            ((fun row => cosine row q) <$> (embedding <$> embeddings))).
  rewrite !list_lookup_fmap. destruct (embeddings !! n) as [e|]; cbn.
  - intros H. injection H as <-. exists e. split; reflexivity.
  - discriminate.
Qed.

(** Of two positions of the index in sorted order, the later one has no
    greater score, and a NaN score if the earlier one has. *)
Lemma argsort_scores (embeddings : list embedding_data) (q : list float)
    (i j a b : nat) (ea eb : embedding_data) :
  let order :=
    np_argsort (map PrimFloat.opp
                  (map (fun row => cosine row q) (map embedding embeddings)))
  in
  i < j -> order !! i = Some a -> order !! j = Some b ->
  embeddings !! a = Some ea -> embeddings !! b = Some eb ->
  PrimFloat.ltb (cosine (embedding ea) q) (cosine (embedding eb) q) = false /\
  (PrimFloat.is_nan (cosine (embedding ea) q) = true ->
   PrimFloat.is_nan (cosine (embedding eb) q) = true).
Proof.
  intros order Hij Ha Hb Hea Heb.
  destruct (np_argsort_order _ i j a b Hij Ha Hb) as (va & vb & Hva & Hvb & Hlt).
  apply opp_cosine_lookup in Hva, Hvb.
  destruct Hva as (ea' & Hea' & ->). destruct Hvb as (eb' & Heb' & ->).
  assert (ea' = ea) as -> by congruence.
  assert (eb' = eb) as -> by congruence.
  apply np_lt_opp_false. exact Hlt.
Qed.

(** X8.  The exact search on a freshly built index returns stored entries:
    after [build_index] in exact mode on a non-empty list of vectors of the
    query's dimension, [search] returns without raising, for every [top_k]
    (negative ones included), as many results as the slice
    [embeddings[:top_k]] has elements; they are ranked 0, 1, 2, ..., carry
    pairwise distinct ids, and the result of id [i] holds the chunk data of
    [embeddings[i]], its cosine similarity to the query as score, and
    [1 - score] as distance. *)
Theorem exact_search_returns_stored
    (knn_query : hnsw -> list float -> Z -> result (list nat * list float))
    (self : builder) (embeddings : list embedding_data) (q : list float)
    (top_k : Z) :
  use_hnsw self = false -> embeddings <> [] ->
  Forall (fun e => length (embedding e) = length q) embeddings ->
  exists res,
    search knn_query (build_index self embeddings).1 q top_k = Ok res /\
    length res = length (slice_to top_k embeddings) /\
    rank <$> res = seq 0 (length res) /\
    NoDup (id <$> res) /\
    Forall (fun h => exists e,
              embeddings !! id h = Some e /\ data h = data_of e /\
              score h = cosine (embedding e) q /\
              distance h = (1 - score h)%float) res.
Proof.
  intros Hmode Hne Hdim.
  destruct (exact_search_built knn_query self embeddings q top_k Hmode Hne Hdim)
    as (res & Hres & Hans).
  exists res. split; [exact Hres|].
  split; [exact (answer_length _ _ _ _ Hans)|].
  split; [exact (answer_ranks _ _ _ _ Hans)|].
  split.
  - rewrite (answer_ids _ _ _ _ Hans). apply top_indices_NoDup.
  - apply Forall_lookup. intros i h Hh.
    destruct (answer_lookup _ _ _ _ _ _ Hans Hh) as (_ & _ & Hem).
    exact Hem.
Qed.

Definition compass : list embedding_data :=
  [chunk_of [1; 0]%float; chunk_of [0; 1]%float; chunk_of [1; 1]%float].

Example compass_search :
  summary (search knn_query_exact
             (build_index (__init__ false false) compass).1 [1; 0]%float 2)
  = Some [(0, 0, false, true); (2, 1, false, true)].
Proof. vm_compute. reflexivity. Qed.

Lemma exact_search_returns_stored_witness :
  exists res,
    search knn_query_exact (build_index (__init__ false false) compass).1
           [1; 0]%float 2 = Ok res /\
    length res = length (slice_to 2 compass) /\
    rank <$> res = seq 0 (length res) /\
    NoDup (id <$> res) /\
    Forall (fun h => exists e,
              compass !! id h = Some e /\ data h = data_of e /\
              score h = cosine (embedding e) [1; 0]%float /\
              distance h = (1 - score h)%float) res.
Proof.
  apply (exact_search_returns_stored knn_query_exact (__init__ false false)
           compass [1; 0]%float 2).
  - reflexivity.
  - discriminate.
  - repeat constructor.
Defined.

(** X9.  The exact search returns the best entries, best first: among the
    results no later one has a greater score than an earlier one, and every
    entry of the index that is not returned has a score no greater than
    that of any result.  A NaN score counts as the worst: once a result has
    one, all later results and all entries left out have one too. *)
Theorem exact_search_best_first
    (knn_query : hnsw -> list float -> Z -> result (list nat * list float))
    (self : builder) (embeddings : list embedding_data) (q : list float)
    (top_k : Z) :
  use_hnsw self = false -> embeddings <> [] ->
  Forall (fun e => length (embedding e) = length q) embeddings ->
  exists res,
    search knn_query (build_index self embeddings).1 q top_k = Ok res /\
    (forall i j hi hj,
       i < j -> res !! i = Some hi -> res !! j = Some hj ->
       PrimFloat.ltb (score hi) (score hj) = false /\
       (PrimFloat.is_nan (score hi) = true ->
        PrimFloat.is_nan (score hj) = true)) /\
    (forall n e h,
       embeddings !! n = Some e -> n ∉ id <$> res -> h ∈ res ->
       PrimFloat.ltb (score h) (cosine (embedding e) q) = false /\
       (PrimFloat.is_nan (score h) = true ->
        PrimFloat.is_nan (cosine (embedding e) q) = true)).
Proof.
  intros Hmode Hne Hdim.
  destruct (exact_search_built knn_query self embeddings q top_k Hmode Hne Hdim)
    as (res & Hres & Hans).
  exists res. split; [exact Hres|]. split.
  - intros i j hi hj Hij Hi Hj.
    destruct (answer_lookup _ _ _ _ _ _ Hans Hi)
      as (Hti & _ & ei & Hei & _ & Hsi & _).
    destruct (answer_lookup _ _ _ _ _ _ Hans Hj)
      as (Htj & _ & ej & Hej & _ & Hsj & _).
    apply top_indices_lookup in Hti, Htj.
    destruct Hti as (Hoi & _). destruct Htj as (Hoj & _).
    rewrite Hsi, Hsj.
    exact (argsort_scores embeddings q i j _ _ ei ej Hij Hoi Hoj Hei Hej).
  - intros n e h Hn Hout Hh.
    apply list_elem_of_lookup in Hh. destruct Hh as [i Hi].
    destruct (answer_lookup _ _ _ _ _ _ Hans Hi)
      as (Hti & _ & ei & Hei & _ & Hsi & _).
    pose proof Hti as Hti'. apply top_indices_lookup in Hti'.
    destruct Hti' as (Hoi & Hlt & _).
    set (order := np_argsort
                    (map PrimFloat.opp
                       (map (fun row => cosine row q)
                          (map embedding embeddings)))) in *.
    assert (Hin : n ∈ order).
    { unfold order. rewrite np_argsort_perm, !length_map.
      apply elem_of_seq. apply lookup_lt_Some in Hn. lia. }
    apply list_elem_of_lookup in Hin. destruct Hin as [j Hj].
    assert (Hij : i < j).
    { destruct (Nat.lt_ge_cases j (slice_len top_k
                                     (length (map embedding embeddings))))
        as [Hjl|Hjl]; [|lia].
      exfalso. apply Hout. rewrite (answer_ids _ _ _ _ Hans).
      apply list_elem_of_lookup. exists j. unfold top_indices.
      rewrite slice_to_take. apply lookup_take_Some.
      split; [exact Hj|].
      rewrite (Permutation_length (np_argsort_perm _)), length_seq,
        !length_map.
      rewrite length_map in Hjl. exact Hjl. }
    rewrite Hsi.
    exact (argsort_scores embeddings q i j _ _ ei e Hij Hoi Hj Hei Hn).
Qed.

Lemma exact_search_best_first_witness :
  exists res,
    search knn_query_exact (build_index (__init__ false false) compass).1
           [1; 0]%float 2 = Ok res /\
    (forall i j hi hj,
       i < j -> res !! i = Some hi -> res !! j = Some hj ->
       PrimFloat.ltb (score hi) (score hj) = false /\
       (PrimFloat.is_nan (score hi) = true ->
        PrimFloat.is_nan (score hj) = true)) /\
    (forall n e h,
       compass !! n = Some e -> n ∉ id <$> res -> h ∈ res ->
       PrimFloat.ltb (score h) (cosine (embedding e) [1; 0]%float) = false /\
       (PrimFloat.is_nan (score h) = true ->
        PrimFloat.is_nan (cosine (embedding e) [1; 0]%float) = true)).
Proof.
  apply (exact_search_best_first knn_query_exact (__init__ false false)
           compass [1; 0]%float 2).
  - reflexivity.
  - discriminate.
  - repeat constructor.
Defined.

(** X10.  A query of another dimension than the index is refused: after a
    build in exact mode from vectors of dimension [d], a search with a
    query whose length is not [d] raises [ValueError] (from [np.dot]), for
    every [top_k]. *)
Theorem exact_search_wrong_dimension
    (knn_query : hnsw -> list float -> Z -> result (list nat * list float))
    (self : builder) (embeddings : list embedding_data) (d : nat)
    (q : list float) (top_k : Z) :
  use_hnsw self = false -> embeddings <> [] ->
  Forall (fun e => length (embedding e) = d) embeddings ->
  length q <> d ->
  search knn_query (build_index self embeddings).1 q top_k
  = Raise ValueError.
Proof.
  intros Hmode Hne Hdim Hq.
  destruct (build_index_exact self embeddings d Hmode Hne Hdim)
    as (Hmode' & Hix & _).
  unfold search. rewrite Hix, Hmode'. unfold np_dot.
  destruct (forallb _ (map embedding embeddings)) eqn:E; [|reflexivity].
  exfalso. rewrite forallb_forall in E.
  destruct embeddings as [|e0 r]; [congruence|].
  apply Forall_cons in Hdim. destruct Hdim as [H0 _].
  specialize (E (embedding e0) (or_introl eq_refl)).
  apply Nat.eqb_eq in E. congruence.
Qed.

Lemma exact_search_wrong_dimension_witness :
  search knn_query_exact (build_index (__init__ false false) compass).1
         [1; 0; 0]%float 2
  = Raise ValueError.
Proof.
  apply (exact_search_wrong_dimension knn_query_exact (__init__ false false)
           compass 2 [1; 0; 0]%float 2).
  - reflexivity.
  - discriminate.
  - repeat constructor.
  - cbn. lia.
Defined.

(** X11.  What a successful build leaves behind, in either mode: on a
    non-empty list of vectors of one dimension [d], [build_index] returns a
    dictionary whose index and id table are the builder's own, with
    [embedding_size = d]; the id table maps every position [i] of the list
    to the chunk data of [embeddings[i]], and keeps what the builder held
    before under every other id (the table is never cleared, so entries of
    an earlier, longer build stay). *)
Theorem build_index_postcondition (self : builder)
    (embeddings : list embedding_data) (d : nat) :
  embeddings <> [] ->
  Forall (fun e => length (embedding e) = d) embeddings ->
  exists b,
    (build_index self embeddings).2 = Ok (Some b) /\
    index (build_index self embeddings).1 = Some (b_index b) /\
    id_to_data (build_index self embeddings).1 = b_id_to_data b /\
    embedding_size (build_index self embeddings).1 = Some d /\
    b_embedding_size b = d /\
    use_hnsw (build_index self embeddings).1 = use_hnsw self /\
    b_index_type b
    = (if use_hnsw self then py "hnsw" else py "brute_force") /\
    forall i,
      b_id_to_data b !! i
      = match embeddings !! i with
        | Some e => Some (data_of e)
        | None => id_to_data self !! i
        end.
Proof.
  intros Hne Hdim.
  assert (Harr : np_array (map embedding embeddings)
                 = Ok (map embedding embeddings)).
  { destruct embeddings as [|e0 r]; [congruence|]. cbn.
    destruct (forallb _ _) eqn:E; [reflexivity|].
    exfalso. apply not_true_iff_false in E. apply E.
    apply forallb_forall. intros w Hw. apply Nat.eqb_eq.
    apply Forall_cons in Hdim. destruct Hdim as [H0 Hr].
    apply in_map_iff in Hw. destruct Hw as (e & <- & He).
    rewrite Forall_forall in Hr. rewrite H0. apply Hr.
    apply list_elem_of_In. exact He. }
  destruct embeddings as [|e0 r] eqn:Eemb; [congruence|].
  assert (Hd : length (embedding e0) = d).
  { apply Forall_cons in Hdim. tauto. }
  rewrite <- Eemb in *. unfold build_index, _build_hnsw_index.
  rewrite Eemb. rewrite <- Eemb. rewrite Harr, Hd.
  destruct (use_hnsw self); cbn [mbind result_bind fst snd];
    eexists; (split; [reflexivity|]); cbn;
    repeat (split; [reflexivity|]); intros i; apply id_table_lookup.
Qed.

Lemma build_index_postcondition_witness :
  exists b,
    (build_index (__init__ true true) compass).2 = Ok (Some b) /\
    index (build_index (__init__ true true) compass).1 = Some (b_index b) /\
    id_to_data (build_index (__init__ true true) compass).1
    = b_id_to_data b /\
    embedding_size (build_index (__init__ true true) compass).1 = Some 2 /\
    b_embedding_size b = 2 /\
    use_hnsw (build_index (__init__ true true) compass).1
    = use_hnsw (__init__ true true) /\
    b_index_type b
    = (if use_hnsw (__init__ true true) then py "hnsw"
       else py "brute_force") /\
    forall i,
      b_id_to_data b !! i
      = match compass !! i with
        | Some e => Some (data_of e)
        | None => id_to_data (__init__ true true) !! i
        end.
Proof.
  apply (build_index_postcondition (__init__ true true) compass 2).
  - discriminate.
  - repeat constructor.
Defined.

(** A second, shorter build leaves the entry of id 2 of the first one in
    the id table. *)
Example rebuild_keeps_stale_entry :
  let self := (build_index (__init__ false false) compass).1 in
  let self' := (build_index self [chunk_of [3; 4]%float]).1 in
  index self' = Some (ArrayIndex [[3; 4]%float]) /\
  id_to_data self' !! 2 = Some (data_of (chunk_of [1; 1]%float)).
Proof. split; reflexivity. Qed.

End IndexerMore.

(** ** The query enhancement and the intent analyzer *)
Module AnalyzerFacts.
Import Intent Indexer Query Analyzer.

(** The texts [_enhance_query] appends for an intent. *)
Definition hints (i : intent) : list pystr :=
  (if str_eqb (data_type i) (py "balance_sheet")
   then [py "资产负债表 资产 负债 权益 balance sheet"]
   else if str_eqb (data_type i) (py "income_statement")
   then [py "损益表 收入 利润 盈利 income statement profit revenue"]
   else if str_eqb (data_type i) (py "cash_flow")
   then [py "现金流量表 现金流 经营活动 cash flow statement"]
   else [])
  ++ (if str_eqb (granularity i) (py "overview")
      then [py "整体 概览 总体 summary overview"]
      else if str_eqb (granularity i) (py "specific")
      then [py "具体 详细 明细 specific details"]
      else if str_eqb (granularity i) (py "metric")
      then [py "指标 比率 占比 ratio percentage"]
      else [])
  ++ (if comparison i
      then [py "对比 比较 差异 变化 comparison difference"] else [])
  ++ (if calculation i
      then [py "计算 总计 计算结果 calculation total"] else [])
  ++ (if time_focus_truthy (time_focus i) then
        match time_focus i with
        | Years years => [py "年份 " ++ str_join (py " ") years ++ py " year"]
        | Relative t => [py "时间 " ++ t ++ py " time period"]
        | NoFocus => []
        end
      else []).

(** An intent for which nothing is appended. *)
Definition plain (i : intent) : Prop :=
  (data_type i
     ∉ [py "balance_sheet"; py "income_statement"; py "cash_flow"]) /\
  (granularity i ∉ [py "overview"; py "specific"; py "metric"]) /\
  comparison i = false /\ calculation i = false /\
  time_focus_truthy (time_focus i) = false.

Lemma enhance_query_parts (query : pystr) (i : intent) :
  _enhance_query query i = str_join (py " ") (query :: hints i).
Proof.
  unfold _enhance_query, hints. cbv zeta. f_equal.
  destruct (str_eqb (data_type i) (py "balance_sheet"));
    [|destruct (str_eqb (data_type i) (py "income_statement"));
      [|destruct (str_eqb (data_type i) (py "cash_flow"))]];
    (destruct (str_eqb (granularity i) (py "overview"));
     [|destruct (str_eqb (granularity i) (py "specific"));
       [|destruct (str_eqb (granularity i) (py "metric"))]]);
    destruct (comparison i); destruct (calculation i);
    destruct (time_focus_truthy (time_focus i));
    try destruct (time_focus i); reflexivity.
Qed.

Lemma str_join_cons (sep p : pystr) (rest : list pystr) :
  str_join sep (p :: rest) = p ++ (rest ≫= fun x => sep ++ x).
Proof.
  revert p. induction rest as [|x rest IH]; intros p.
  - cbn. rewrite app_nil_r. reflexivity.
  - change (str_join sep (p :: x :: rest))
      with (p ++ sep ++ str_join sep (x :: rest)).
    rewrite IH, bind_cons, <- app_assoc. reflexivity.
Qed.

Lemma str_eqb_eq (a b : pystr) : str_eqb a b = true <-> a = b.
Proof. unfold str_eqb. apply bool_decide_eq_true. Qed.

Lemma str_eqb_ne (a b : pystr) : str_eqb a b = false <-> a <> b.
Proof. unfold str_eqb. apply bool_decide_eq_false. Qed.

Lemma hints_nil (i : intent) : hints i = [] <-> plain i.
Proof.
  unfold hints, plain. rewrite !not_elem_of_cons.
  destruct (str_eqb (data_type i) (py "balance_sheet")) eqn:D1;
    [split; [discriminate|]; apply str_eqb_eq in D1; tauto|].
  destruct (str_eqb (data_type i) (py "income_statement")) eqn:D2;
    [split; [discriminate|]; apply str_eqb_eq in D2; tauto|].
  destruct (str_eqb (data_type i) (py "cash_flow")) eqn:D3;
    [split; [discriminate|]; apply str_eqb_eq in D3; tauto|].
  destruct (str_eqb (granularity i) (py "overview")) eqn:G1;
    [split; [discriminate|]; apply str_eqb_eq in G1; tauto|].
  destruct (str_eqb (granularity i) (py "specific")) eqn:G2;
    [split; [discriminate|]; apply str_eqb_eq in G2; tauto|].
  destruct (str_eqb (granularity i) (py "metric")) eqn:G3;
    [split; [discriminate|]; apply str_eqb_eq in G3; tauto|].
  apply str_eqb_ne in D1, D2, D3, G1, G2, G3.
  destruct (comparison i); [split; [discriminate|intuition discriminate]|].
  destruct (calculation i); [split; [discriminate|intuition discriminate]|].
  destruct (time_focus i) as [[|y ys]|[|c t]|];
    cbn [time_focus_truthy app].
  - split; [intros _|reflexivity].
    repeat split; solve [assumption | apply not_elem_of_nil].
  - split; [discriminate|]. intros (_ & _ & _ & _ & H). discriminate.
  - split; [intros _|reflexivity].
    repeat split; solve [assumption | apply not_elem_of_nil].
  - split; [discriminate|]. intros (_ & _ & _ & _ & H). discriminate.
  - split; [intros _|reflexivity].
    repeat split; solve [assumption | apply not_elem_of_nil].
Qed.

Lemma joined_nil (sep : pystr) (parts : list pystr) :
  sep <> [] -> (parts ≫= (fun x => sep ++ x)) = [] <-> parts = [].
Proof.
  intros Hsep. destruct parts as [|p parts]; [tauto|].
  rewrite bind_cons. split; [|discriminate].
  intros H. apply app_eq_nil in H. destruct H as [H _].
  apply app_eq_nil in H. tauto.
Qed.

(** X12.  [_enhance_query] only appends: the enhanced query is the query
    itself followed by a text that depends on the intent alone, and that
    text is empty exactly for an intent whose data type and granularity are
    none of the known labels, whose comparison and calculation flags are
    off and whose time focus is empty or [None]. *)
Theorem enhance_query_appends (i : intent) :
  exists hint,
    (forall query, _enhance_query query i = query ++ hint) /\
    (hint = [] <-> plain i).
Proof.
  exists (hints i ≫= (fun x => py " " ++ x)). split.
  - intros query. rewrite enhance_query_parts. apply str_join_cons.
  - rewrite joined_nil by discriminate. apply hints_nil.
Qed.

Lemma first_label_in (table : list (pystr * list pystr)) (text l : pystr) :
  first_label table text = Some l -> l ∈ table.*1.
Proof.
  unfold first_label.
  destruct (List.find _ table) as [e|] eqn:E; [|discriminate].
  intros H. injection H as <-. apply find_some in E. destruct E as [E _].
  apply list_elem_of_fmap. exists e. split; [reflexivity|].
  apply list_elem_of_In. exact E.
Qed.

Lemma detect_data_type_range (query_lower : pystr) :
  _detect_data_type query_lower
  ∈ [py "balance_sheet"; py "income_statement"; py "cash_flow";
     py "unknown"].
Proof.
  unfold _detect_data_type.
  destruct (first_label financial_terms query_lower) as [l|] eqn:E.
  - apply first_label_in in E. cbn [fmap list_fmap financial_terms fst] in E.
    rewrite !elem_of_cons in *. tauto.
  - rewrite !elem_of_cons. tauto.
Qed.

Lemma detect_granularity_range (query_lower : pystr) :
  _detect_granularity query_lower
  ∈ [py "overview"; py "specific"; py "metric"].
Proof.
  unfold _detect_granularity.
  destruct (first_label granularity_terms query_lower) as [l|] eqn:E.
  - apply first_label_in in E. cbn [fmap list_fmap granularity_terms fst] in E.
    exact E.
  - destruct (any_in _ _); rewrite !elem_of_cons; tauto.
Qed.

Lemma detect_time_focus_truthy (unicode_digit : N -> bool) (query : pystr) :
  _detect_time_focus unicode_digit query = NoFocus \/
  (time_focus_truthy (_detect_time_focus unicode_digit query) = true /\
   forall t, _detect_time_focus unicode_digit query = Relative t ->
     t ∈ [py "current"; py "previous"; py "next"; py "recent"]).
Proof.
  unfold _detect_time_focus.
  destruct (findall_year unicode_digit 0 query) as [|y ys].
  - destruct (List.find _ relative_time_terms) as [e|] eqn:E; [|left; reflexivity].
    right. apply find_some in E. destruct E as [E _].
    assert (He : e.1 ∈ relative_time_terms.*1).
    { apply list_elem_of_fmap. exists e. split; [reflexivity|].
      apply list_elem_of_In. exact E. }
    cbn [fmap list_fmap relative_time_terms fst] in He. split.
    + rewrite !elem_of_cons in He.
      destruct He as [->|[->|[->|[->|He]]]]; try reflexivity. inversion He.
    + intros t Ht. injection Ht as <-. exact He.
  - right. split; [reflexivity|]. intros t Ht. discriminate.
Qed.

(** X13.  The analyzer speaks the vocabulary the query processor
    understands: for every query, the data type of the analyzed intent is
    one of balance_sheet, income_statement, cash_flow and unknown, the
    granularity is one of overview, specific and metric, a time focus other
    than [None] is true as a condition (a non-empty list of years or one of
    the four relative labels), and enhancing the query with its own intent
    always appends something to it. *)
Theorem analyzed_intent_is_understood (unicode_digit : N -> bool)
    (str_lower : pystr -> pystr) (query : pystr) :
  data_type (analyze_intent unicode_digit str_lower query)
  ∈ [py "balance_sheet"; py "income_statement"; py "cash_flow";
     py "unknown"] /\
  granularity (analyze_intent unicode_digit str_lower query)
  ∈ [py "overview"; py "specific"; py "metric"] /\
  original_query (analyze_intent unicode_digit str_lower query) = query /\
  (time_focus (analyze_intent unicode_digit str_lower query) = NoFocus \/
   (time_focus_truthy
      (time_focus (analyze_intent unicode_digit str_lower query)) = true /\
    forall t,
      time_focus (analyze_intent unicode_digit str_lower query) = Relative t ->
      t ∈ [py "current"; py "previous"; py "next"; py "recent"])) /\
  exists hint,
    hint <> [] /\
    _enhance_query query (analyze_intent unicode_digit str_lower query)
    = query ++ hint.
Proof.
  split; [apply detect_data_type_range|].
  split; [apply detect_granularity_range|].
  split; [reflexivity|].
  split; [apply detect_time_focus_truthy|].
  exists (hints (analyze_intent unicode_digit str_lower query)
          ≫= (fun x => py " " ++ x)).
  split.
  - rewrite joined_nil by discriminate. rewrite hints_nil.
    intros (_ & Hg & _). apply Hg. apply detect_granularity_range.
  - rewrite enhance_query_parts. apply str_join_cons.
Qed.

(** The query of the specification, analyzed and enhanced. *)
Example analyze_total_assets :
  let i := analyze_intent (fun _ => false) QueryFacts.ascii_lower
             (py "2022年的总资产是多少?") in
  (data_type i, granularity i, time_focus i, comparison i, calculation i)
  = (py "balance_sheet", py "metric", Years [py "20"], false, true) /\
  _enhance_query (py "2022年的总资产是多少?") i
  = py "2022年的总资产是多少? 资产负债表 资产 负债 权益 balance sheet 指标 比率 占比 ratio percentage 计算 总计 计算结果 calculation total 年份 20 year".
Proof. vm_compute. split; reflexivity. Qed.

End AnalyzerFacts.

(** ** The query processor: which candidates survive, and their scores *)
Module QueryMore.
Import Indexer Query LoopFacts QueryFacts.

(** The chunks the first loop keeps, in retrieval order: every chunk that
    is not a full table, and a full table unless an earlier full table had
    its table id. *)
Fixpoint first_full (seen : gset (option value)) (l : list chunk_data)
  : list chunk_data :=
  match l with
  | [] => []
  | d :: rest =>
      if decide (is_full d) then
        if decide (chunk_table_id d ∈ seen) then first_full seen rest
        else d :: first_full ({[chunk_table_id d]} ∪ seen) rest
      else d :: first_full seen rest
  end.

Lemma first_full_sublist (seen : gset (option value)) (l : list chunk_data) :
  first_full seen l `sublist_of` l.
Proof.
  revert seen. induction l as [|d l IH]; intros seen; cbn; [constructor|].
  destruct (decide (is_full d)).
  - destruct (decide (chunk_table_id d ∈ seen)).
    + apply sublist_cons. apply IH.
    + apply sublist_skip. apply IH.
  - apply sublist_skip. apply IH.
Qed.

Section Survivors.
Context {F : Type} `{Score F}.
Variable str_lower : pystr -> pystr.

Fixpoint keep_first (seen : gset (option value)) (raw : list (raw_result F))
  : list (raw_result F) :=
  match raw with
  | [] => []
  | r :: rest =>
      if decide (is_full (raw_data r)) then
        if decide (chunk_table_id (raw_data r) ∈ seen)
        then keep_first seen rest
        else r :: keep_first ({[chunk_table_id (raw_data r)]} ∪ seen) rest
      else r :: keep_first seen rest
  end.

Lemma keep_first_data (seen : gset (option value))
    (raw : list (raw_result F)) :
  raw_data <$> keep_first seen raw = first_full seen (raw_data <$> raw).
Proof.
  revert seen. induction raw as [|r raw IH]; intros seen; [reflexivity|].
  cbn [keep_first]. rewrite fmap_cons. cbn [first_full].
  destruct (decide (is_full (raw_data r))).
  - destruct (decide (chunk_table_id (raw_data r) ∈ seen)).
    + apply IH.
    + rewrite fmap_cons, IH. reflexivity.
  - rewrite fmap_cons, IH. reflexivity.
Qed.

Lemma keep_first_sublist (seen : gset (option value))
    (raw : list (raw_result F)) :
  keep_first seen raw `sublist_of` raw.
Proof.
  revert seen. induction raw as [|r raw IH]; intros seen; cbn; [constructor|].
  destruct (decide (is_full (raw_data r))).
  - destruct (decide (chunk_table_id (raw_data r) ∈ seen)).
    + apply sublist_cons. apply IH.
    + apply sublist_skip. apply IH.
  - apply sublist_skip. apply IH.
Qed.

(** The loop body either keeps the enhanced candidate or drops it, as
    [keep_first] says. *)
Lemma process_one_keeps (i : intent) (acc acc' : list (enhanced_result F))
    (seen seen' : gset (option value)) (r : raw_result F) :
  process_one str_lower i (acc, seen) r = Ok (acc', seen') ->
  exists e, enhance str_lower r i = Ok e /\
    if decide (is_full (raw_data r)) then
      if decide (chunk_table_id (raw_data r) ∈ seen)
      then acc' = acc /\ seen' = seen
      else acc' = acc ++ [e] /\
           seen' = {[chunk_table_id (raw_data r)]} ∪ seen
    else acc' = acc ++ [e] /\ seen' = seen.
Proof.
  unfold process_one.
  destruct (enhance str_lower r i) as [e| |] eqn:Ee; try discriminate.
  pose proof (enhance_payload str_lower r i e Ee) as Hp.
  cbn [mbind result_bind fst snd]. rewrite str_eqb_full, Hp.
  fold (chunk_table_id (raw_data r)).
  intros Hstep. exists e. split; [reflexivity|].
  destruct (decide (is_full (raw_data r))) as [Hf|Hf].
  - rewrite (bool_decide_eq_true_2 _ Hf) in Hstep. cbn [negb] in Hstep.
    rewrite orb_false_r in Hstep.
    destruct (decide (chunk_table_id (raw_data r) ∈ seen)) as [Hin|Hin].
    + rewrite bool_decide_eq_false_2 in Hstep by tauto.
      injection Hstep as <- <-. auto.
    + rewrite (bool_decide_eq_true_2 _ Hin) in Hstep.
      injection Hstep as <- <-. auto.
  - rewrite (bool_decide_eq_false_2 _ Hf) in Hstep. cbn [negb] in Hstep.
    rewrite orb_true_r in Hstep. injection Hstep as <- <-. auto.
Qed.

Lemma fold_keeps (i : intent) (raw : list (raw_result F)) :
  forall (acc acc' : list (enhanced_result F))
         (seen seen' : gset (option value)),
  foldlM (process_one str_lower i) (acc, seen) raw = Ok (acc', seen') ->
  exists kept,
    acc' = acc ++ kept /\
    Forall2 (fun r e => enhance str_lower r i = Ok e)
            (keep_first seen raw) kept.
Proof.
  induction raw as [|r raw IH]; intros acc acc' seen seen' Hfold.
  - cbn in Hfold. injection Hfold as <- <-. exists [].
    rewrite app_nil_r. split; [reflexivity|constructor].
  - rewrite foldlM_cons in Hfold.
    destruct (process_one str_lower i (acc, seen) r) as [[acc1 seen1]| |]
      eqn:Estep; try discriminate.
    rewrite bind_Ok in Hfold.
    destruct (process_one_keeps i acc acc1 seen seen1 r Estep)
      as (e & He & Hcase).
    destruct (IH acc1 acc' seen1 seen' Hfold) as (kept & -> & HF).
    cbn [keep_first].
    destruct (decide (is_full (raw_data r))).
    + destruct (decide (chunk_table_id (raw_data r) ∈ seen)).
      * destruct Hcase as [-> ->]. exists kept. split; [reflexivity|exact HF].
      * destruct Hcase as [-> ->]. exists (e :: kept).
        rewrite <- app_assoc. split; [reflexivity|].
        constructor; [exact He|exact HF].
    + destruct Hcase as [-> ->]. exists (e :: kept).
      rewrite <- app_assoc. split; [reflexivity|].
      constructor; [exact He|exact HF].
Qed.

Lemma collect_keeps (i : intent) (raw : list (raw_result F))
    (processed : list (enhanced_result F)) :
  collect str_lower raw i = Ok processed ->
  Forall2 (fun r e => enhance str_lower r i = Ok e)
          (keep_first ∅ raw) processed.
Proof.
  unfold collect.
  destruct (foldlM (process_one str_lower i) ([], ∅) raw)
    as [[acc seen]| |] eqn:Efold; try discriminate.
  rewrite bind_Ok. cbn [fst]. intros Hp. injection Hp as <-.
  destruct (fold_keeps i raw [] acc ∅ seen Efold) as (kept & -> & HF).
  exact HF.
Qed.

Lemma kept_payloads (i : intent) (kept : list (raw_result F))
    (processed : list (enhanced_result F)) :
  Forall2 (fun r e => enhance str_lower r i = Ok e) kept processed ->
  payload <$> processed = raw_data <$> kept.
Proof.
  induction 1 as [|r e kept processed He _ IH]; [reflexivity|].
  rewrite !fmap_cons, IH, (enhance_payload str_lower r i e He). reflexivity.
Qed.

Lemma first_full_nil (l : list chunk_data) : first_full ∅ l = [] <-> l = [].
Proof.
  split; [|intros ->; reflexivity].
  destruct l as [|d l]; [reflexivity|]. cbn.
  destruct (decide (is_full d)); [|discriminate].
  destruct (decide (chunk_table_id d ∈ ∅)) as [Hin|Hin]; [|discriminate].
  apply elem_of_empty in Hin. contradiction.
Qed.

(** The output of the post-processing is what the first loop kept, sorted
    and numbered. *)
Lemma post_process_output (i : intent) (raw : list (raw_result F)) :
  Forall (fun r => table_type_is_str (raw_data r)) raw ->
  exists processed out,
    collect str_lower raw i = Ok processed /\
    _post_process_results str_lower raw i = Ok out /\
    Forall2 (fun r e => enhance str_lower r i = Ok e)
            (keep_first ∅ raw) processed /\
    (forall n e, out !! n = Some e ->
       rank e = n + 1 /\
       exists e0, e0 ∈ processed /\ score e = score e0 /\
                  payload e = payload e0) /\
    payload <$> out ≡ₚ payload <$> processed.
Proof.
  intros Hstr. destruct (collect_total str_lower i raw Hstr) as [processed Hc].
  exists processed. eexists. split; [exact Hc|].
  split; [apply post_process_unfold; exact Hc|].
  split; [exact (collect_keeps i raw processed Hc)|].
  pose proof (sort_reverse_perm flt score processed) as Hperm.
  split.
  - intros n e Hn. apply list_lookup_imap_Some in Hn.
    destruct Hn as (e0 & He0 & ->). split; [reflexivity|].
    exists e0. split; [|split; reflexivity].
    rewrite <- Hperm. apply list_elem_of_lookup. exists n. exact He0.
  - rewrite ranked_payload. apply fmap_Permutation. exact Hperm.
Qed.

(** X14.  Which candidates survive the post-processing is decided by their
    chunk types and table ids alone, in retrieval order: when the
    [table_type] entries are strings, the output holds exactly the chunks
    that are not full tables and, of the full tables of one table id, the
    one retrieved first, whatever the scores and the intent are.  The
    output is never longer than the candidate list, and it is empty only
    when there are no candidates. *)
Theorem post_process_keeps_first_full (i : intent)
    (raw : list (raw_result F)) :
  Forall (fun r => table_type_is_str (raw_data r)) raw ->
  exists out,
    _post_process_results str_lower raw i = Ok out /\
    payload <$> out ≡ₚ first_full ∅ (raw_data <$> raw) /\
    length out <= length raw /\
    (out = [] <-> raw = []).
Proof.
  intros Hstr.
  destruct (post_process_output i raw Hstr)
    as (processed & out & _ & Hout & Hkept & _ & Hperm).
  exists out. split; [exact Hout|].
  assert (Hpay : payload <$> out ≡ₚ first_full ∅ (raw_data <$> raw)).
  { rewrite Hperm, (kept_payloads i _ _ Hkept). rewrite keep_first_data.
    reflexivity. }
  split; [exact Hpay|]. split.
  - rewrite <- (length_fmap payload), (Permutation_length Hpay).
    rewrite <- (length_fmap raw_data raw).
    apply sublist_length. apply first_full_sublist.
  - split.
    + intros ->. cbn in Hpay. symmetry in Hpay.
      apply Permutation_nil_r in Hpay.
      apply (proj1 (first_full_nil _)) in Hpay.
      apply fmap_nil_inv in Hpay. exact Hpay.
    + intros ->. cbn in Hpay. apply Permutation_nil_r in Hpay.
      apply fmap_nil_inv in Hpay. exact Hpay.
Qed.

End Survivors.

Lemma post_process_keeps_first_full_witness :
  exists out,
    _post_process_results ascii_lower two_full_one_row plain_intent = Ok out /\
    payload <$> out ≡ₚ first_full ∅ (raw_data <$> two_full_one_row) /\
    length out <= length two_full_one_row /\
    (out = [] <-> two_full_one_row = []).
Proof.
  apply (post_process_keeps_first_full ascii_lower plain_intent
           two_full_one_row).
  exact two_full_one_row_typed.
Defined.

End QueryMore.

(** ** The query processor: order of the results on Python floats *)
Module QueryOrder.
Import Indexer Query LoopFacts QueryFacts QueryMore FloatOrder.
#[local] Set Warnings "-inexact-float".

(** *** The sort looks only at the keys it is given *)

Lemma insert_desc_ext {A K : Type} (lt lt' : K -> K -> bool) (key : A -> K)
    (x : A) (l : list A) :
  (forall y, y ∈ l -> lt (key x) (key y) = lt' (key x) (key y)) ->
  insert_desc lt key x l = insert_desc lt' key x l.
Proof.
  induction l as [|y l IH]; intros Hxy; cbn; [reflexivity|].
  rewrite <- (Hxy y) by left. rewrite IH; [reflexivity|].
  intros z Hz. apply Hxy. right. exact Hz.
Qed.

Lemma sort_reverse_ext {A K : Type} (lt lt' : K -> K -> bool) (key : A -> K)
    (l : list A) :
  (forall x y, x ∈ l -> y ∈ l -> lt (key x) (key y) = lt' (key x) (key y)) ->
  sort_reverse lt key l = sort_reverse lt' key l.
Proof.
  induction l as [|x l IH]; intros Hl; [reflexivity|].
  unfold sort_reverse. cbn [foldr].
  change (foldr (insert_desc lt key) [] l) with (sort_reverse lt key l).
  change (foldr (insert_desc lt' key) [] l) with (sort_reverse lt' key l).
  rewrite <- IH.
  - apply insert_desc_ext. intros y Hy. apply Hl; [left|right].
    rewrite <- (sort_reverse_perm lt key l). exact Hy.
  - intros y z Hy Hz. apply Hl; right; assumption.
Qed.

Section Order.
Context {F : Type} `{Score F}.
Variable str_lower : pystr -> pystr.

(** The output is sorted by any strict weak order that agrees with the
    comparison of scores on the scores at hand. *)
Lemma post_process_order (lt' : F -> F -> bool) (i : intent)
    (raw : list (raw_result F)) (processed : list (enhanced_result F)) :
  strict_weak lt' ->
  collect str_lower raw i = Ok processed ->
  (forall a b, a ∈ processed -> b ∈ processed ->
     flt (score a) (score b) = lt' (score a) (score b)) ->
  exists out,
    _post_process_results str_lower raw i = Ok out /\
    (forall n r, out !! n = Some r ->
       rank r = n + 1 /\ exists r0, r0 ∈ processed /\ score r = score r0) /\
    (forall n m a b, n < m -> out !! n = Some a -> out !! m = Some b ->
       lt' (score a) (score b) = false) /\
    (forall s, scored <$> List.filter (tied lt' score s) out
               = scored <$> List.filter (tied lt' score s) processed).
Proof.
  intros Hord Hc Hagree. eexists.
  split; [apply post_process_unfold; exact Hc|].
  rewrite (sort_reverse_ext flt lt' score processed Hagree).
  set (sorted := sort_reverse lt' score processed).
  assert (Hlook : forall n r,
            imap (fun n r => set_rank (n + 1) r) sorted !! n = Some r ->
            exists r0, sorted !! n = Some r0 /\ r = set_rank (n + 1) r0).
  { intros n r. rewrite list_lookup_imap.
    destruct (sorted !! n) as [r0|]; [|discriminate].
    cbn. intros Hr. injection Hr as <-. eauto. }
  split.
  { intros n r Hn. destruct (Hlook n r Hn) as (r0 & Hr0 & ->).
    split; [reflexivity|]. exists r0. split; [|reflexivity].
    rewrite <- (sort_reverse_perm lt' score processed).
    eapply list_elem_of_lookup_2. exact Hr0. }
  split.
  { intros n m a b Hnm Ha Hb.
    destruct (Hlook n a Ha) as (a0 & Ha0 & ->).
    destruct (Hlook m b Hb) as (b0 & Hb0 & ->). cbn [score set_rank].
    apply (strongly_sorted_lookup (desc lt' score) sorted n m a0 b0);
      [|assumption|assumption|assumption].
    apply sort_reverse_sorted. exact Hord. }
  intros s.
  rewrite (filter_imap_rank (tied lt' score s) scored);
    [|reflexivity|reflexivity].
  unfold sorted. rewrite (sort_reverse_stable lt' score Hord). reflexivity.
Qed.

(** *** The factors a score is multiplied by *)

(** The factor of the granularity, for a chunk of type [ct]. *)
Definition granularity_boost (i : intent) (ct : pystr) : list F :=
  if str_eqb (granularity i) (py "overview")
     && (str_eqb ct (py "table_full") || str_eqb ct (py "table_description"))
  then [lit_1_2]
  else if str_eqb (granularity i) (py "specific")
          && (str_eqb ct (py "table_row") || str_eqb ct (py "table_column"))
  then [lit_1_2]
  else if str_eqb (granularity i) (py "metric")
          && str_eqb ct (py "table_metric")
  then [lit_1_3]
  else [].

(** The factors [_adjust_by_intent] applies before it looks at the type of
    the table. *)
Definition adjust_boosts (i : intent) (ct : pystr) : list F :=
  granularity_boost i ct
  ++ (if calculation i && str_eqb ct (py "table_metric")
      then [lit_1_2] else []).

(** The same for a candidate, from the first loop on. *)
Definition boosts (i : intent) (ct : pystr) : list F :=
  (if str_eqb ct (py "table_full") then [lit_1_1] else [])
  ++ adjust_boosts i ct.

Lemma adjust_factors (res e : enhanced_result F) (i : intent) :
  _adjust_by_intent str_lower res i = Ok e ->
  score e = foldl fmul (score res) (adjust_boosts i (chunk_type res)) \/
  (data_type i <> py "unknown" /\
   score e = foldl fmul (score res)
               (adjust_boosts i (chunk_type res) ++ [lit_1_15])).
Proof.
  unfold _adjust_by_intent, adjust_boosts, granularity_boost. cbv zeta.
  destruct (str_eqb (data_type i) (py "unknown")) eqn:Ed; cbn [negb].
  - repeat match goal with
           | |- context [if ?b then _ else _] => destruct b
           end;
      intros He; injection He as <-; left; reflexivity.
  - apply AnalyzerFacts.str_eqb_ne in Ed.
    repeat match goal with
           | |- context [if ?b then _ else _] => destruct b
           end;
      (destruct (_extract_table_type str_lower _) as [[t|z]|];
       [destruct t; [|destruct (str_in _ _)]|destruct (z =? 0)%Z|]);
      intros He; try discriminate He; injection He as <-;
      cbn [score scale foldl app];
      first [left; reflexivity|right; split; [exact Ed|reflexivity]].
Qed.

Lemma enhance_factors (r : raw_result F) (e : enhanced_result F)
    (i : intent) :
  enhance str_lower r i = Ok e ->
  score e = foldl fmul (raw_score r) (boosts i (d_chunk_type (raw_data r))) \/
  (data_type i <> py "unknown" /\
   score e = foldl fmul (raw_score r)
               (boosts i (d_chunk_type (raw_data r)) ++ [lit_1_15])).
Proof.
  unfold enhance, boosts. cbv zeta. intros He. apply adjust_factors in He.
  destruct (str_eqb (d_chunk_type (raw_data r)) (py "table_full"));
    cbn [chunk_type scale score] in He; cbn [app foldl]; exact He.
Qed.

(** Every result carries the chunk of a candidate, and the candidate's
    score multiplied by the factors of its chunk type, one after the
    other. *)
Lemma post_process_factors (i : intent) (raw : list (raw_result F)) :
  Forall (fun r => table_type_is_str (raw_data r)) raw ->
  exists out,
    _post_process_results str_lower raw i = Ok out /\
    Forall (fun e => exists r,
              r ∈ raw /\ payload e = raw_data r /\
              (score e
               = foldl fmul (raw_score r)
                       (boosts i (d_chunk_type (raw_data r))) \/
               (data_type i <> py "unknown" /\
                score e
                = foldl fmul (raw_score r)
                        (boosts i (d_chunk_type (raw_data r))
                         ++ [lit_1_15])))) out.
Proof.
  intros Hstr.
  destruct (post_process_output str_lower i raw Hstr)
    as (processed & out & _ & Hout & Hkept & Hlook & _).
  exists out. split; [exact Hout|].
  apply Forall_lookup. intros n e Hn.
  destruct (Hlook n e Hn) as (_ & e0 & He0 & Hs & Hp).
  apply list_elem_of_lookup in He0. destruct He0 as [m Hm].
  destruct (Forall2_lookup_r _ _ _ _ _ Hkept Hm) as (r & Hr & He).
  exists r. split.
  { eapply elem_of_sublist; [|apply keep_first_sublist].
    eapply list_elem_of_lookup_2. exact Hr. }
  split; [rewrite Hp; exact (enhance_payload str_lower r i e0 He)|].
  rewrite Hs. exact (enhance_factors r e0 i He).
Qed.

End Order.

(** *** Scores that are not NaN *)

Lemma shr_1_nonneg (mrs : shr_record) :
  (0 <= shr_m mrs)%Z -> (0 <= shr_m (shr_1 mrs))%Z.
Proof.
  destruct mrs as [m r s]. cbn. destruct m as [|[p|p|]|[p|p|]]; cbn; lia.
Qed.

Lemma iter_pos_invariant {A : Type} (f : A -> A) (P : A -> Prop) :
  (forall x, P x -> P (f x)) ->
  forall n x, P x -> P (SpecFloat.iter_pos f n x).
Proof.
  intros Hf. induction n as [n IH|n IH|]; intros x Hx; cbn; auto.
Qed.

Lemma shr_nonneg (mrs : shr_record) (e n : Z) :
  (0 <= shr_m mrs)%Z -> (0 <= shr_m (shr mrs e n).1)%Z.
Proof.
  intros Hm. unfold shr. destruct n; cbn; try exact Hm.
  apply (iter_pos_invariant shr_1 (fun x => (0 <= shr_m x)%Z));
    [exact shr_1_nonneg|exact Hm].
Qed.

Lemma shr_fexp_nonneg (prec emax m e : Z) (l : location) :
  (0 <= m)%Z -> (0 <= shr_m (shr_fexp prec emax m e l).1)%Z.
Proof.
  intros Hm. unfold shr_fexp. apply shr_nonneg.
  destruct l as [|[ | | ]]; exact Hm.
Qed.

Lemma round_nearest_even_nonneg (m : Z) (l : location) :
  (0 <= m)%Z -> (0 <= round_nearest_even m l)%Z.
Proof.
  intros Hm. unfold round_nearest_even.
  destruct l as [|[ | | ]]; try destruct (Z.even m); lia.
Qed.

(** Rounding a non-negative mantissa gives a zero, a finite number or an
    infinity. *)
Lemma binary_round_aux_not_nan (prec emax : Z) (s : bool) (m e : Z)
    (l : location) :
  (0 <= m)%Z -> binary_round_aux prec emax s m e l <> S754_nan.
Proof.
  intros Hm. unfold binary_round_aux.
  pose proof (shr_fexp_nonneg prec emax m e l Hm) as H1.
  destruct (shr_fexp prec emax m e l) as [mrs' e']. cbn [fst] in H1.
  pose proof (shr_fexp_nonneg prec emax _ e' loc_Exact
                (round_nearest_even_nonneg _ (loc_of_shr_record mrs') H1))
    as H2.
  destruct (shr_fexp prec emax _ e' loc_Exact) as [mrs'' e''].
  cbn [fst] in H2. destruct (shr_m mrs''); [discriminate| |lia].
  destruct (Z.leb _ _); discriminate.
Qed.

(** A float that is neither a zero, nor an infinity, nor NaN. *)
Definition finite_nonzero (c : float) : bool :=
  match Prim2SF c with S754_finite _ _ _ => true | _ => false end.

(** The product of a number with a finite number other than zero is NaN
    only if the number is. *)
Lemma mul_not_nan (x c : float) :
  finite_nonzero c = true -> PrimFloat.is_nan x = false ->
  PrimFloat.is_nan (x * c) = false.
Proof.
  unfold finite_nonzero. rewrite !not_nan_spec, mul_spec.
  unfold SF64mul.
  destruct (Prim2SF c) as [sc|sc| |sc mc ec]; try discriminate.
  intros _ Hx. destruct (Prim2SF x) as [sx|sx| |sx mx ex]; cbn [SFmul];
    try discriminate; [congruence|].
  apply binary_round_aux_not_nan. lia.
Qed.

Lemma mul_is_nan (x c : float) :
  finite_nonzero c = true ->
  PrimFloat.is_nan (x * c) = PrimFloat.is_nan x.
Proof.
  intros Hc. destruct (PrimFloat.is_nan x) eqn:Hx.
  - apply is_nan_spec. apply is_nan_spec in Hx. rewrite mul_spec, Hx.
    destruct (Prim2SF c); reflexivity.
  - apply mul_not_nan; assumption.
Qed.

Lemma foldl_mul_is_nan (cs : list float) (x : float) :
  Forall (fun c => finite_nonzero c = true) cs ->
  PrimFloat.is_nan (foldl PrimFloat.mul x cs) = PrimFloat.is_nan x.
Proof.
  intros Hcs. revert x. induction Hcs as [|c cs Hc _ IH]; intros x;
    [reflexivity|].
  cbn [foldl]. rewrite IH. apply mul_is_nan. exact Hc.
Qed.

Lemma foldl_mul_not_nan (cs : list float) (x : float) :
  Forall (fun c => finite_nonzero c = true) cs ->
  PrimFloat.is_nan x = false ->
  PrimFloat.is_nan (foldl PrimFloat.mul x cs) = false.
Proof.
  intros Hcs. revert x. induction Hcs as [|c cs Hc _ IH]; intros x Hx;
    [exact Hx|].
  cbn [foldl]. apply IH. apply mul_not_nan; assumption.
Qed.

Lemma boosts_finite (i : intent) (ct : pystr) :
  Forall (fun c => finite_nonzero c = true)
         (boosts (F := float) i ct ++ [lit_1_15]).
Proof.
  unfold boosts, adjust_boosts, granularity_boost.
  repeat match goal with
         | |- context [if ?b then _ else _] => destruct b
         end;
    cbn [app]; repeat constructor.
Qed.

Section FloatScores.
Variable str_lower : pystr -> pystr.

Lemma enhance_not_nan (r : raw_result float) (e : enhanced_result float)
    (i : intent) :
  enhance str_lower r i = Ok e ->
  PrimFloat.is_nan (raw_score r) = false ->
  PrimFloat.is_nan (score e) = false.
Proof.
  intros He Hr.
  pose proof (boosts_finite i (d_chunk_type (raw_data r))) as Hfin.
  destruct (enhance_factors str_lower r e i He) as [->|[_ ->]].
  - apply foldl_mul_not_nan; [|exact Hr].
    apply Forall_app in Hfin. apply Hfin.
  - apply foldl_mul_not_nan; [exact Hfin|exact Hr].
Qed.

Lemma processed_not_nan (i : intent) (raw : list (raw_result float))
    (processed : list (enhanced_result float)) :
  collect str_lower raw i = Ok processed ->
  Forall (fun r => PrimFloat.is_nan (raw_score r) = false) raw ->
  forall e, e ∈ processed -> PrimFloat.is_nan (score e) = false.
Proof.
  intros Hc Hraw e He. apply collect_keeps in Hc.
  apply list_elem_of_lookup in He. destruct He as [m Hm].
  destruct (Forall2_lookup_r _ _ _ _ _ Hc Hm) as (r & Hr & Hre).
  apply (enhance_not_nan r e i Hre).
  rewrite Forall_forall in Hraw. apply Hraw.
  eapply elem_of_sublist; [|apply keep_first_sublist].
  eapply list_elem_of_lookup_2. exact Hr.
Qed.

End FloatScores.

(** The order of [np.argsort] is a strict weak order on all floats, and it
    is [<] when the right-hand side is not NaN. *)
Lemma np_lt_order : strict_weak np_lt.
Proof.
  split; [|split].
  - intros a. apply np_lt_false. unfold lexlt. lia.
  - intros a b c. rewrite !np_lt_code. unfold lexlt. lia.
  - exact np_lt_neg_trans.
Qed.

Lemma np_lt_ltb (a b : float) :
  PrimFloat.is_nan b = false -> PrimFloat.ltb a b = np_lt a b.
Proof.
  intros Hb. unfold np_lt. rewrite Hb. cbn [andb]. rewrite orb_false_r.
  reflexivity.
Qed.

Lemma tied_ltb (s : float) (x : enhanced_result float) :
  PrimFloat.is_nan s = false -> PrimFloat.is_nan (score x) = false ->
  tied PrimFloat.ltb score s x = tied np_lt score s x.
Proof.
  intros Hs Hx. unfold tied. rewrite (np_lt_ltb s _ Hx), (np_lt_ltb _ s Hs).
  reflexivity.
Qed.

Lemma filter_tied_ltb (s : float) (l : list (enhanced_result float)) :
  PrimFloat.is_nan s = false ->
  (forall e, e ∈ l -> PrimFloat.is_nan (score e) = false) ->
  List.filter (tied PrimFloat.ltb score s) l
  = List.filter (tied np_lt score s) l.
Proof.
  intros Hs Hl. apply List.filter_ext_in. intros x Hx.
  apply tied_ltb; [exact Hs|]. apply Hl. apply list_elem_of_In. exact Hx.
Qed.

Section FloatRanks.
Variable str_lower : pystr -> pystr.

(** C7, as the code has it, on Python floats.  When the [table_type]
    entries are strings the post-processing returns, what it sorts are
    the candidates the first loop kept, in retrieval order and with their
    adjusted scores, and the rank of each result is its position in the
    output counted from 1.  When moreover no
    candidate's score is NaN, no adjusted score is NaN either, the output
    is in descending order of adjusted score, and the results of one
    adjusted score stand in the order in which the first loop kept them,
    which is retrieval order. *)
Theorem post_process_ranks_from_one (i : intent)
    (raw : list (raw_result float)) :
  Forall (fun r => table_type_is_str (raw_data r)) raw ->
  exists processed out,
    collect str_lower raw i = Ok processed /\
    Forall2 (fun r e => enhance str_lower r i = Ok e)
            (keep_first ∅ raw) processed /\
    _post_process_results str_lower raw i = Ok out /\
    (forall n r, out !! n = Some r -> rank r = n + 1) /\
    (Forall (fun r => PrimFloat.is_nan (raw_score r) = false) raw ->
     (forall n r, out !! n = Some r ->
        PrimFloat.is_nan (score r) = false) /\
     (forall n m a b, n < m -> out !! n = Some a -> out !! m = Some b ->
        PrimFloat.ltb (score a) (score b) = false) /\
     (forall s, PrimFloat.is_nan s = false ->
        scored <$> List.filter (tied PrimFloat.ltb score s) out
        = scored <$> List.filter (tied PrimFloat.ltb score s) processed)).
Proof.
  intros Hstr.
  destruct (post_process_output str_lower i raw Hstr)
    as (processed & out & Hc & Hout & Hkept & Hlook & _).
  exists processed, out. split; [exact Hc|]. split; [exact Hkept|].
  split; [exact Hout|].
  split; [intros n r Hn; apply (Hlook n r Hn)|].
  intros Hraw.
  pose proof (processed_not_nan str_lower i raw processed Hc Hraw) as Hnan.
  destruct (post_process_order str_lower np_lt i raw processed np_lt_order Hc)
    as (out' & Hout' & Hfrom & Hsorted & Hstable).
  { intros a b _ Hb. apply (np_lt_ltb (score a) (score b)).
    apply Hnan. exact Hb. }
  assert (out' = out) as -> by congruence.
  assert (Hnan' : forall e, e ∈ out -> PrimFloat.is_nan (score e) = false).
  { intros e He. apply list_elem_of_lookup in He. destruct He as [n Hn].
    destruct (Hfrom n e Hn) as (_ & e0 & He0 & ->). apply Hnan. exact He0. }
  split; [|split].
  - intros n r Hn. apply Hnan'. eapply list_elem_of_lookup_2. exact Hn.
  - intros n m a b Hnm Ha Hb.
    rewrite np_lt_ltb
      by (apply Hnan'; eapply list_elem_of_lookup_2; exact Hb).
    exact (Hsorted n m a b Hnm Ha Hb).
  - intros s Hs.
    rewrite (filter_tied_ltb s out Hs Hnan').
    rewrite (filter_tied_ltb s processed Hs Hnan). apply Hstable.
Qed.

End FloatRanks.

Section FloatFactors.
Variable str_lower : pystr -> pystr.

(** X15.  On Python floats, the post-processing multiplies and does
    nothing else to a score: when the [table_type] entries are strings,
    every result carries the chunk of a candidate, and its score is the
    candidate's score multiplied, one factor after the other and each
    product rounded, by 1.1 for a full table, by the factor of the
    granularity (1.2 or 1.3), by 1.2 for a metric chunk of a calculation
    query, and possibly by 1.15 when the intent names a data type.  The
    score of a result is NaN exactly when the candidate's is. *)
Theorem post_process_score_factors (i : intent)
    (raw : list (raw_result float)) :
  Forall (fun r => table_type_is_str (raw_data r)) raw ->
  exists out,
    _post_process_results str_lower raw i = Ok out /\
    Forall (fun e => exists r,
              r ∈ raw /\ payload e = raw_data r /\
              (score e
               = foldl PrimFloat.mul (raw_score r)
                       (boosts i (d_chunk_type (raw_data r))) \/
               (data_type i <> py "unknown" /\
                score e
                = foldl PrimFloat.mul (raw_score r)
                        (boosts i (d_chunk_type (raw_data r))
                         ++ [1.15%float]))) /\
              PrimFloat.is_nan (score e) = PrimFloat.is_nan (raw_score r))
           out.
Proof.
  intros Hstr.
  destruct (post_process_factors str_lower i raw Hstr) as (out & Hout & Hall).
  exists out. split; [exact Hout|].
  eapply Forall_impl; [exact Hall|]. cbn beta.
  intros e (r & Hr & Hp & Hs). exists r.
  split; [exact Hr|]. split; [exact Hp|]. split; [exact Hs|].
  pose proof (boosts_finite i (d_chunk_type (raw_data r))) as Hfin.
  destruct Hs as [->|[_ ->]].
  - apply foldl_mul_is_nan. apply Forall_app in Hfin. apply Hfin.
  - apply foldl_mul_is_nan. exact Hfin.
Qed.

End FloatFactors.

(** Three row chunks retrieved with scores 0.5, 0.75 and 0.5. *)
Definition float_candidate (s : float) (n : nat) (ct c : pystr)
  : raw_result float :=
  {| raw_score := s; raw_rank := n;
     raw_data :=
       {| d_table_idx := 0; d_chunk_type := ct; d_content := c;
          d_metadata := {[ py "table_id" := VStr (py "page_0_table_0") ]} |} |}.

Definition tied_float_rows : list (raw_result float) :=
  [ float_candidate 0.5 0 (py "table_row") (py "a");
    float_candidate 0.75 1 (py "table_row") (py "b");
    float_candidate 0.5 2 (py "table_row") (py "c") ].

Example tied_float_rows_result :
  match _post_process_results ascii_lower tied_float_rows plain_intent with
  | Ok out => Some (map (fun r => (content r, rank r)) out)
  | _ => None
  end = Some [(py "b", 1); (py "a", 2); (py "c", 3)].
Proof. vm_compute. reflexivity. Qed.

Lemma tied_float_rows_typed :
  Forall (fun r => table_type_is_str (raw_data r)) tied_float_rows.
Proof.
  repeat constructor; intros z Hz; vm_compute in Hz; discriminate Hz.
Defined.

Lemma tied_float_rows_not_nan :
  Forall (fun r => PrimFloat.is_nan (raw_score r) = false) tied_float_rows.
Proof. repeat constructor. Defined.

Lemma post_process_ranks_from_one_witness :
  exists processed out,
    collect ascii_lower tied_float_rows plain_intent = Ok processed /\
    Forall2 (fun r e => enhance ascii_lower r plain_intent = Ok e)
            (keep_first ∅ tied_float_rows) processed /\
    _post_process_results ascii_lower tied_float_rows plain_intent = Ok out /\
    (forall n r, out !! n = Some r -> rank r = n + 1) /\
    (forall n r, out !! n = Some r -> PrimFloat.is_nan (score r) = false) /\
    (forall n m a b, n < m -> out !! n = Some a -> out !! m = Some b ->
       PrimFloat.ltb (score a) (score b) = false) /\
    (forall s, PrimFloat.is_nan s = false ->
       scored <$> List.filter (tied PrimFloat.ltb score s) out
       = scored <$> List.filter (tied PrimFloat.ltb score s) processed).
Proof.
  destruct (post_process_ranks_from_one ascii_lower plain_intent
              tied_float_rows tied_float_rows_typed)
    as (processed & out & Hc & Hkept & Hout & Hrank & Hrest).
  exists processed, out. split; [exact Hc|]. split; [exact Hkept|].
  split; [exact Hout|].
  split; [exact Hrank|]. exact (Hrest tied_float_rows_not_nan).
Defined.

(** A metric chunk and a full table of score 0.75, for a calculation query
    about metrics. *)
Definition metric_intent : intent :=
  {| data_type := py "unknown"; granularity := py "metric";
     time_focus := Intent.NoFocus; comparison := false;
     calculation := true; original_query := py "" |}.

Definition boosted_rows : list (raw_result float) :=
  [ float_candidate 0.75 0 (py "table_metric") (py "ratio");
    float_candidate 0.75 1 (py "table_full") (py "table") ].

Lemma boosted_rows_typed :
  Forall (fun r => table_type_is_str (raw_data r)) boosted_rows.
Proof.
  repeat constructor; intros z Hz; vm_compute in Hz; discriminate Hz.
Defined.

Lemma post_process_score_factors_witness :
  exists out,
    _post_process_results ascii_lower boosted_rows metric_intent = Ok out /\
    Forall (fun e => exists r,
              r ∈ boosted_rows /\ payload e = raw_data r /\
              (score e
               = foldl PrimFloat.mul (raw_score r)
                       (boosts metric_intent (d_chunk_type (raw_data r))) \/
               (data_type metric_intent <> py "unknown" /\
                score e
                = foldl PrimFloat.mul (raw_score r)
                        (boosts metric_intent (d_chunk_type (raw_data r))
                         ++ [1.15%float]))) /\
              PrimFloat.is_nan (score e) = PrimFloat.is_nan (raw_score r))
           out.
Proof.
  exact (post_process_score_factors ascii_lower metric_intent boosted_rows
           boosted_rows_typed).
Defined.

(** The products are rounded one by one: the metric chunk ends with
    [(0.75 * 1.3) * 1.2], which is above [0.75 * 1.56]. *)
Example boosted_rows_result :
  match _post_process_results ascii_lower boosted_rows metric_intent with
  | Ok out =>
      Some (map (fun r => (content r, rank r,
                           PrimFloat.eqb (score r) (0.75 * 1.3 * 1.2),
                           PrimFloat.eqb (score r) (0.75 * 1.1)))
                out)
  | _ => None
  end = Some [(py "ratio", 1, true, false); (py "table", 2, false, true)].
Proof. vm_compute. reflexivity. Qed.

(** The rank of a lone result is 1, not 0. *)
Lemma post_process_rank_of_first :
  exists r,
    _post_process_results ascii_lower
      [float_candidate 0.5 0 (py "table_row") (py "a")] plain_intent
    = Ok [r] /\ rank r = 1.
Proof. eexists. split; [vm_compute; reflexivity|reflexivity]. Qed.

End QueryOrder.

(** ** The query processor on an exact index *)
Module PipelineFacts.
Import Indexer Query LoopFacts IndexerFacts QueryFacts IndexerMore QueryMore.

(** X16.  [process_query] end to end, in exact mode: on an index built
    from a non-empty list of vectors of the dimension the embedder returns
    for the enhanced query, whose [table_type] entries are strings, the
    query is answered without raising; there are at most as many results as
    the slice [embeddings[:top_k]] has elements, they are ranked 1, 2, 3,
    ... in output order, each carries the chunk of a stored entry, and no
    two full-table results share a table id. *)
Theorem process_query_exact
    (knn_query : hnsw -> list float -> Z -> result (list nat * list float))
    (encode : pystr -> list float) (str_lower : pystr -> pystr)
    (self : builder) (embeddings : list embedding_data) (query : pystr)
    (i : intent) (top_k : Z) :
  use_hnsw self = false -> embeddings <> [] ->
  Forall (fun e => length (embedding e)
                   = length (encode (_enhance_query query i))) embeddings ->
  Forall (fun e => table_type_is_str (data_of e)) embeddings ->
  exists out,
    process_query knn_query encode str_lower
                  (build_index self embeddings).1 query i top_k = Ok out /\
    length out <= length (slice_to top_k embeddings) /\
    (forall n r, out !! n = Some r -> Query.rank r = n + 1) /\
    Forall (fun r => exists e, e ∈ embeddings /\ payload r = data_of e) out /\
    NoDup (tidfull (payload <$> out)).
Proof.
  intros Hmode Hne Hdim Hstr. unfold process_query. cbv zeta.
  destruct (exact_search_built knn_query self embeddings
              (encode (_enhance_query query i)) top_k Hmode Hne Hdim)
    as (res & Hres & Hans).
  rewrite Hres, bind_Ok.
  assert (Hdata : Forall (fun h => exists e, e ∈ embeddings
                                   /\ Indexer.data h = data_of e) res).
  { apply Forall_lookup. intros n h Hh.
    destruct (answer_lookup _ _ _ _ _ _ Hans Hh)
      as (_ & _ & e & He & Hd & _).
    exists e. split; [|exact Hd].
    apply list_elem_of_lookup. exists (Indexer.id h). exact He. }
  assert (Hraw : Forall (fun r : raw_result float =>
                           table_type_is_str (raw_data r)) (of_hit <$> res)).
  { apply Forall_fmap. eapply Forall_impl; [exact Hdata|].
    intros h (e & He & Hd). cbn. rewrite Hd.
    rewrite Forall_forall in Hstr. apply Hstr. exact He. }
  destruct (post_process_output str_lower i (of_hit <$> res) Hraw)
    as (processed & out & Hc & Hout & Hkept & Hlook & Hperm).
  exists out. split; [exact Hout|].
  assert (Hpay : payload <$> out
                 ≡ₚ first_full ∅ (raw_data <$> (of_hit <$> res))).
  { rewrite Hperm, (kept_payloads str_lower i _ _ Hkept), keep_first_data.
    reflexivity. }
  split.
  { rewrite <- (answer_length _ _ _ _ Hans).
    rewrite <- (length_fmap payload), (Permutation_length Hpay).
    etransitivity; [apply sublist_length, first_full_sublist|].
    rewrite !length_fmap. reflexivity. }
  split; [intros n r Hn; exact (proj1 (Hlook n r Hn))|].
  split.
  - apply Forall_forall. intros r Hr.
    assert (Hin : payload r ∈ payload <$> out).
    { apply list_elem_of_fmap. exists r. split; [reflexivity|exact Hr]. }
    rewrite Hpay in Hin.
    apply (fun H => elem_of_sublist _ _ _ H (first_full_sublist _ _)) in Hin.
    apply list_elem_of_fmap in Hin. destruct Hin as (r0 & Hr0 & Hin).
    apply list_elem_of_fmap in Hin. destruct Hin as (h & -> & Hh).
    rewrite Forall_forall in Hdata. destruct (Hdata h Hh) as (e & He & Hd).
    exists e. split; [exact He|]. rewrite Hr0. exact Hd.
  - destruct (collect_spec str_lower i _ _ Hc) as (Hnd & _).
    unfold tidfull in *. rewrite Hperm. exact Hnd.
Qed.

Definition typed_compass : list embedding_data :=
  [chunk_of [1; 0]%float; chunk_of [0; 1]%float].

Lemma process_query_exact_witness :
  exists out,
    process_query knn_query_exact (fun _ => [1; 0]%float) ascii_lower
                  (build_index (__init__ false false) typed_compass).1
                  (py "assets") plain_intent 5 = Ok out /\
    length out <= length (slice_to 5 typed_compass) /\
    (forall n r, out !! n = Some r -> Query.rank r = n + 1) /\
    Forall (fun r => exists e, e ∈ typed_compass /\ payload r = data_of e)
           out /\
    NoDup (tidfull (payload <$> out)).
Proof.
  apply (process_query_exact knn_query_exact (fun _ => [1; 0]%float)
           ascii_lower (__init__ false false) typed_compass (py "assets")
           plain_intent 5).
  - reflexivity.
  - discriminate.
  - repeat constructor.
  - repeat constructor; intros z; cbn; rewrite lookup_empty; discriminate.
Defined.

End PipelineFacts.

(** ** The index builder: what a brute-force builder can raise *)
Module IndexerReach.
Import Indexer LoopFacts IndexerFacts IndexerMore.

(** The builder after a sequence of calls of [build_index], whatever they
    returned or raised. *)
Definition after_builds (self : builder)
    (builds : list (list embedding_data)) : builder :=
  foldl (fun s embeddings => (build_index s embeddings).1) self builds.

(** What holds of a brute-force builder at all times: its index, if any, is
    an array, and the id table has an entry for each of its rows. *)
Definition exact_ok (self : builder) : Prop :=
  use_hnsw self = false /\
  match index self with
  | None => True
  | Some (ArrayIndex a) => covers self a
  | Some (HnswIndex _) => False
  end.

Lemma np_array_cases (vectors : list (list float)) :
  np_array vectors = Ok vectors \/ np_array vectors = Raise ValueError.
Proof.
  destruct vectors as [|v r]; [left; reflexivity|]. cbn.
  destruct (forallb _ r); auto.
Qed.

Lemma build_index_exact_ok (self : builder)
    (embeddings : list embedding_data) :
  exact_ok self -> exact_ok (build_index self embeddings).1.
Proof.
  intros [Hmode Hix]. destruct embeddings as [|e0 r] eqn:Eemb.
  - split; assumption.
  - rewrite <- Eemb. unfold build_index. rewrite Eemb. rewrite <- Eemb.
    rewrite Hmode.
    destruct (np_array_cases (map embedding embeddings)) as [Harr|Harr];
      rewrite Harr; cbn [mbind result_bind fst].
    + split; [reflexivity|]. cbn [index]. intros n Hn. cbn [id_to_data].
      rewrite id_table_lookup. rewrite length_map in Hn.
      destruct (lookup_lt_is_Some_2 embeddings n Hn) as [e He].
      rewrite He. eauto.
    + split; [reflexivity|]. cbn [index].
      destruct (index self) as [[h|a]|]; [contradiction| |exact I].
      intros n Hn. cbn [id_to_data]. apply Hix. exact Hn.
Qed.

Lemma after_builds_exact_ok (self : builder)
    (builds : list (list embedding_data)) :
  exact_ok self -> exact_ok (after_builds self builds).
Proof.
  unfold after_builds. revert self.
  induction builds as [|es builds IH]; intros self Hok; [exact Hok|].
  cbn [foldl]. apply IH. apply build_index_exact_ok. exact Hok.
Qed.

Lemma search_exact_ok
    (knn_query : hnsw -> list float -> Z -> result (list nat * list float))
    (self : builder) (q : list float) (k : Z) :
  exact_ok self ->
  (exists res, search knn_query self q k = Ok res) \/
  search knn_query self q k = Raise ValueError.
Proof.
  intros [Hmode Hix].
  destruct (index self) as [[h|a]|] eqn:Eix; [contradiction| |].
  - destruct (forallb (fun row => (length row =? length q)%nat) a) eqn:E.
    + left.
      destruct (search_exact_spec knn_query self a q k Hmode Eix Hix)
        as (res & Hres & _).
      { apply Forall_forall. intros row Hrow. apply Nat.eqb_eq.
        rewrite forallb_forall in E. apply E. apply list_elem_of_In.
        exact Hrow. }
      exists res. exact Hres.
    + right. unfold search. rewrite Eix, Hmode. unfold np_dot. rewrite E.
      reflexivity.
  - left. exists []. unfold search. rewrite Eix. reflexivity.
Qed.

(** X17.  A brute-force builder raises nothing but [ValueError] from
    [search]: when the builder was created without the graph index (the
    flag off, or [hnswlib] missing), then after any sequence of calls of
    [build_index], failed and empty ones included, every search either
    returns a list or raises [ValueError] (a query of the wrong dimension);
    [KeyError], [IndexError], [TypeError] and [AttributeError] cannot
    occur. *)
Theorem exact_search_raises_only_ValueError
    (knn_query : hnsw -> list float -> Z -> result (list nat * list float))
    (HNSW_AVAILABLE flag : bool) (builds : list (list embedding_data))
    (q : list float) (top_k : Z) :
  flag && HNSW_AVAILABLE = false ->
  (exists res,
     search knn_query (after_builds (__init__ HNSW_AVAILABLE flag) builds)
            q top_k = Ok res) \/
  search knn_query (after_builds (__init__ HNSW_AVAILABLE flag) builds)
         q top_k = Raise ValueError.
Proof.
  intros Hflag. apply search_exact_ok. apply after_builds_exact_ok.
  split; [exact Hflag|exact I].
Qed.

Lemma exact_search_raises_only_ValueError_witness :
  (exists res,
     search knn_query_exact
            (after_builds (__init__ false true) [compass; ragged; []])
            [1; 0]%float 5 = Ok res) \/
  search knn_query_exact
         (after_builds (__init__ false true) [compass; ragged; []])
         [1; 0]%float 5 = Raise ValueError.
Proof.
  apply (exact_search_raises_only_ValueError knn_query_exact false true
           [compass; ragged; []] [1; 0]%float 5).
  reflexivity.
Defined.

End IndexerReach.

(** ** The query processor: what the post-processing can raise *)
Module QueryErrors.
Import Indexer Query LoopFacts QueryFacts.

(** A candidate on which [_adjust_by_intent] fails: the intent names a data
    type, and the [table_type] entry of the chunk is a non-zero integer,
    which is true as a condition and cannot be searched with [in]. *)
Definition bad_candidate {F : Type} (i : intent) (r : raw_result F) : Prop :=
  data_type i <> py "unknown" /\
  exists z, z <> 0%Z /\
    d_metadata (raw_data r) !! py "table_type" = Some (VInt z).

Section Errors.
Context {F : Type} `{Score F}.
Variable str_lower : pystr -> pystr.

Lemma extract_table_type_meta (r : enhanced_result F) :
  match metadata r !! py "table_type" with
  | Some v => _extract_table_type str_lower r = Some v
  | None => forall z, _extract_table_type str_lower r <> Some (VInt z)
  end.
Proof.
  unfold _extract_table_type.
  destruct (metadata r !! py "table_type") as [v|]; [reflexivity|].
  intros z.
  repeat match goal with
         | |- context [if ?b then _ else _] => destruct b
         end; discriminate.
Qed.

Lemma adjust_cases (r : enhanced_result F) (i : intent) :
  (exists e, _adjust_by_intent str_lower r i = Ok e /\
     ~ (data_type i <> py "unknown" /\
        exists z, z <> 0%Z /\
          metadata r !! py "table_type" = Some (VInt z))) \/
  (_adjust_by_intent str_lower r i = Raise TypeError /\
   data_type i <> py "unknown" /\
   exists z, z <> 0%Z /\ metadata r !! py "table_type" = Some (VInt z)).
Proof.
  unfold _adjust_by_intent. cbv zeta.
  match goal with
  | |- context [_extract_table_type str_lower ?r2] =>
      pose proof (extract_table_type_meta r2) as Hx;
      assert (Hm : metadata r2 = metadata r)
        by (repeat match goal with
                   | |- context [if ?b then _ else _] => destruct b
                   end; reflexivity);
      rewrite Hm in Hx; clear Hm;
      destruct (_extract_table_type str_lower r2) as [[t|z]|] eqn:Ex
  end.
  - left. destruct (str_eqb (data_type i) (py "unknown")) eqn:Eu; cbn [negb].
    + eexists. split; [reflexivity|]. intros [Hu _].
      apply AnalyzerFacts.str_eqb_eq in Eu. contradiction.
    + assert (Hno : forall z, metadata r !! py "table_type" <> Some (VInt z)).
      { intros z Hz. rewrite Hz in Hx. discriminate. }
      destruct t; [|destruct (str_in _ _)]; eexists;
        (split; [reflexivity|]); intros (_ & z & _ & Hz);
        exact (Hno z Hz).
  - destruct (metadata r !! py "table_type") as [v|] eqn:Em;
      [|exfalso; exact (Hx z eq_refl)].
    injection Hx as <-.
    destruct (str_eqb (data_type i) (py "unknown")) eqn:Eu; cbn [negb].
    + left. eexists. split; [reflexivity|]. intros [Hu _].
      apply AnalyzerFacts.str_eqb_eq in Eu. contradiction.
    + destruct (z =? 0)%Z eqn:Ez.
      * left. eexists. split; [reflexivity|]. intros (_ & z' & Hz' & Heq).
        injection Heq as <-. apply Z.eqb_eq in Ez. contradiction.
      * right. split; [reflexivity|]. split.
        { apply AnalyzerFacts.str_eqb_ne. exact Eu. }
        exists z. split; [apply Z.eqb_neq; exact Ez|reflexivity].
  - left. assert (Hno : forall z, metadata r !! py "table_type" <> Some (VInt z)).
    { intros z Hz. rewrite Hz in Hx. discriminate. }
    destruct (negb _); eexists; (split; [reflexivity|]);
      intros (_ & z & _ & Hz); exact (Hno z Hz).
Qed.

Lemma enhance_cases (r : raw_result F) (i : intent) :
  (exists e, enhance str_lower r i = Ok e /\ ~ bad_candidate i r) \/
  (enhance str_lower r i = Raise TypeError /\ bad_candidate i r).
Proof.
  unfold enhance, bad_candidate. cbv zeta.
  match goal with
  | |- context [_adjust_by_intent str_lower ?r1 i] =>
      assert (Hm : metadata r1 = d_metadata (raw_data r))
        by (destruct (str_eqb _ _); reflexivity);
      destruct (adjust_cases r1 i) as [(e & He & Hok)|(He & Hbad)];
      rewrite Hm in *
  end.
  - left. exists e. split; [exact He|exact Hok].
  - right. split; [exact He|exact Hbad].
Qed.

Lemma process_one_cases (i : intent)
    (acc : list (enhanced_result F) * gset (option value))
    (r : raw_result F) :
  (exists acc', process_one str_lower i acc r = Ok acc' /\
     ~ bad_candidate i r) \/
  (process_one str_lower i acc r = Raise TypeError /\ bad_candidate i r).
Proof.
  unfold process_one.
  destruct (enhance_cases r i) as [(e & He & Hok)|(He & Hbad)]; rewrite He;
    cbn [mbind result_bind].
  - left. destruct (_ || _); eexists; (split; [reflexivity|exact Hok]).
  - right. split; [reflexivity|exact Hbad].
Qed.

Lemma fold_cases (i : intent) (raw : list (raw_result F)) :
  forall acc,
    (exists acc', foldlM (process_one str_lower i) acc raw = Ok acc' /\
       Forall (fun r => ~ bad_candidate i r) raw) \/
    (foldlM (process_one str_lower i) acc raw = Raise TypeError /\
     Exists (bad_candidate i) raw).
Proof.
  induction raw as [|r raw IH]; intros acc.
  - left. exists acc. split; [reflexivity|constructor].
  - rewrite foldlM_cons.
    destruct (process_one_cases i acc r) as [(acc1 & H1 & Hok)|(H1 & Hbad)];
      rewrite H1; cbn [mbind result_bind].
    + destruct (IH acc1) as [(acc' & Hf & Hall)|(Hf & Hex)].
      * left. exists acc'. split; [exact Hf|]. constructor; assumption.
      * right. split; [exact Hf|]. apply Exists_cons_tl. exact Hex.
    + right. split; [reflexivity|]. apply Exists_cons_hd. exact Hbad.
Qed.

(** X18.  The post-processing raises nothing but [TypeError], and that
    exactly when the intent names a data type (anything but unknown) and
    some candidate's [table_type] entry is a non-zero integer; in every
    other case it returns.  One such candidate aborts the processing of
    all candidates, and with the data type unknown the entry is never
    looked at. *)
Theorem post_process_raises_only_TypeError (i : intent)
    (raw : list (raw_result F)) :
  ((exists out, _post_process_results str_lower raw i = Ok out) /\
   Forall (fun r => ~ bad_candidate i r) raw) \/
  (_post_process_results str_lower raw i = Raise TypeError /\
   Exists (bad_candidate i) raw).
Proof.
  unfold _post_process_results, collect.
  destruct (fold_cases i raw ([], ∅)) as [(acc' & Hf & Hall)|(Hf & Hex)];
    rewrite Hf; cbn [mbind result_bind].
  - left. split; [eexists; reflexivity|exact Hall].
  - right. split; [reflexivity|exact Hex].
Qed.

End Errors.

End QueryErrors.

(** ** The table detector: the threshold of the containment test *)
Module DetectorThreshold.
Import Detector LoopFacts DetectorFacts.



End DetectorThreshold.

(** ** The table detector: running the resolver again *)
Module DetectorIdem.
Import Detector LoopFacts DetectorFacts DetectorMore DetectorParents.

















End DetectorIdem.

(** ** The index builder: searching the graph index *)
Module IndexerGraph.
Import Indexer LoopFacts IndexerFacts IndexerMore.

(** The builder after a build in graph mode. *)
Lemma build_index_graph (self : builder) (embeddings : list embedding_data)
    (d : nat) :
  use_hnsw self = true -> embeddings <> [] ->
  Forall (fun e => length (embedding e) = d) embeddings ->
  use_hnsw (build_index self embeddings).1 = true /\
  index (build_index self embeddings).1
  = Some (HnswIndex {| hnsw_dim := d;
                       hnsw_items := map embedding embeddings |}) /\
  forall i,
    id_to_data (build_index self embeddings).1 !! i
    = match embeddings !! i with
      | Some e => Some (data_of e)
      | None => id_to_data self !! i
      end.
Proof.
  intros Hmode Hne Hdim.
  assert (Harr : np_array (map embedding embeddings)
                 = Ok (map embedding embeddings)).
  { destruct embeddings as [|e0 r]; [congruence|]. cbn.
    destruct (forallb _ _) eqn:E; [reflexivity|].
    exfalso. apply not_true_iff_false in E. apply E.
    apply forallb_forall. intros w Hw. apply Nat.eqb_eq.
    apply Forall_cons in Hdim. destruct Hdim as [H0 Hr].
    apply in_map_iff in Hw. destruct Hw as (e & <- & He).
    rewrite Forall_forall in Hr. rewrite H0. apply Hr.
    apply list_elem_of_In. exact He. }
  destruct embeddings as [|e0 r] eqn:Eemb; [congruence|].
  assert (Hd : length (embedding e0) = d).
  { apply Forall_cons in Hdim. tauto. }
  rewrite <- Eemb in *. unfold build_index, _build_hnsw_index.
  rewrite Eemb. rewrite <- Eemb.
  rewrite Hmode, Harr, Hd.
  cbn [mbind result_bind fst use_hnsw index id_to_data].
  split; [reflexivity|]. split; [reflexivity|].
  intros i. apply id_table_lookup.
Qed.

(** X21.  In graph mode [search] relays what [knn_query] answers on the
    index built from the vectors: an exception of the library is raised
    unchanged, and when the library returns labels that are positions of
    the list, the search returns one result per label and distance, in the
    library's order, ranked from 0, with the label as id, [1 - distance] as
    score and the chunk data of [embeddings[label]]. *)
Theorem graph_search_relays
    (knn_query : hnsw -> list float -> Z -> result (list nat * list float))
    (self : builder) (embeddings : list embedding_data) (d : nat)
    (q : list float) (top_k : Z) :
  use_hnsw self = true -> embeddings <> [] ->
  Forall (fun e => length (embedding e) = d) embeddings ->
  (forall e,
     knn_query {| hnsw_dim := d; hnsw_items := map embedding embeddings |}
               q top_k = Raise e ->
     search knn_query (build_index self embeddings).1 q top_k = Raise e) /\
  (forall ids distances,
     knn_query {| hnsw_dim := d; hnsw_items := map embedding embeddings |}
               q top_k = Ok (ids, distances) ->
     Forall (fun label => label < length embeddings) ids ->
     exists res,
       search knn_query (build_index self embeddings).1 q top_k = Ok res /\
       length res = Nat.min (length ids) (length distances) /\
       forall n h, res !! n = Some h ->
         exists dist e,
           ids !! n = Some (id h) /\ distances !! n = Some dist /\
           embeddings !! id h = Some e /\
           rank h = n /\ distance h = dist /\
           score h = (1 - dist)%float /\ data h = data_of e).
Proof.
  intros Hmode Hne Hdim.
  destruct (build_index_graph self embeddings d Hmode Hne Hdim)
    as (Hmode' & Hix & Htab).
  unfold search. rewrite Hix, Hmode'. split.
  { intros e He. rewrite He. reflexivity. }
  intros ids distances Hknn Hlabels. rewrite Hknn.
  cbn [mbind result_bind fst snd].
  destruct (mapM_ok
              (fun e : nat * (nat * float) =>
                 d0 ← lookup_data (build_index self embeddings).1 e.2.1;
                 Ok {| id := e.2.1; distance := e.2.2;
                       score := (1 - e.2.2)%float; rank := e.1;
                       data := d0 |})
              (fun e h => rank h = e.1 /\ id h = e.2.1 /\
                          distance h = e.2.2 /\
                          score h = (1 - e.2.2)%float /\
                          exists em, embeddings !! e.2.1 = Some em /\
                                     data h = data_of em)
              (enumerate (zip ids distances))) as (res & Hres & HF).
  { intros [n [label dist]] Hin. cbn [fst snd].
    apply list_elem_of_lookup in Hin. destruct Hin as [p Hp].
    apply enumerate_lookup in Hp. destruct Hp as [-> Hp].
    apply lookup_zip_with_Some in Hp.
    destruct Hp as (l' & d' & Heq & Hl & Hd'). injection Heq as <- <-.
    rewrite Forall_forall in Hlabels.
    assert (Hlt : label < length embeddings).
    { apply Hlabels. apply list_elem_of_lookup. exists p. exact Hl. }
    destruct (lookup_lt_is_Some_2 embeddings label Hlt) as [em Hem].
    unfold lookup_data. rewrite Htab, Hem. cbn [mbind result_bind].
    eexists. split; [reflexivity|]. cbn.
    repeat (split; [reflexivity|]). exists em. split; reflexivity. }
  exists res. split; [exact Hres|]. split.
  - rewrite (mapM_length _ _ _ Hres). unfold enumerate.
    rewrite length_imap, length_zip. reflexivity.
  - intros n h Hh.
    destruct (Forall2_lookup_r _ _ _ _ _ HF Hh)
      as ([m [label dist]] & He & Hr & Hi & Hdist & Hs & em & Hem & Hdata).
    cbn [fst snd] in *. apply enumerate_lookup in He. destruct He as [-> Hz].
    apply lookup_zip_with_Some in Hz.
    destruct Hz as (l' & d' & Heq & Hl & Hd'). injection Heq as <- <-.
    exists dist, em. rewrite Hi.
    repeat (split; [assumption|]). exact Hdata.
Qed.

Lemma graph_search_relays_witness :
  (forall e,
     knn_query_exact {| hnsw_dim := 2; hnsw_items := map embedding compass |}
                     [1; 0]%float 2 = Raise e ->
     search knn_query_exact (build_index (__init__ true true) compass).1
            [1; 0]%float 2 = Raise e) /\
  (forall ids distances,
     knn_query_exact {| hnsw_dim := 2; hnsw_items := map embedding compass |}
                     [1; 0]%float 2 = Ok (ids, distances) ->
     Forall (fun label => label < length compass) ids ->
     exists res,
       search knn_query_exact (build_index (__init__ true true) compass).1
              [1; 0]%float 2 = Ok res /\
       length res = Nat.min (length ids) (length distances) /\
       forall n h, res !! n = Some h ->
         exists dist e,
           ids !! n = Some (id h) /\ distances !! n = Some dist /\
           compass !! id h = Some e /\
           rank h = n /\ distance h = dist /\
           score h = (1 - dist)%float /\ data h = data_of e).
Proof.
  apply (graph_search_relays knn_query_exact (__init__ true true) compass 2
           [1; 0]%float 2).
  - reflexivity.
  - discriminate.
  - repeat constructor.
Defined.

End IndexerGraph.

(** ** The intent analyzer: what the detectors react to *)
Module IntentMore.
Import Intent Indexer Query Analyzer.

(** [needle] is a substring of [hay]. *)
Definition occurs (needle hay : pystr) : Prop :=
  exists a b, hay = a ++ needle ++ b.

Lemma starts_with_iff (p s : pystr) :
  starts_with p s = true <-> exists b, s = p ++ b.
Proof.
  revert s. induction p as [|c p IH]; intros s.
  - cbn. split; [intros _; exists s; reflexivity|reflexivity].
  - destruct s as [|x s]; cbn.
    + split; [discriminate|]. intros [b Hb]. discriminate.
    + rewrite andb_true_iff, N.eqb_eq, IH. split.
      * intros [-> [b ->]]. exists b. reflexivity.
      * intros [b Hb]. injection Hb as -> ->. split; [reflexivity|eauto].
Qed.

Lemma str_in_iff (needle hay : pystr) :
  str_in needle hay = true <-> occurs needle hay.
Proof.
  unfold occurs. induction hay as [|x hay IH].
  - cbn. rewrite orb_false_r, starts_with_iff. split.
    + intros [b Hb]. exists [], b. exact Hb.
    + intros (a & b & H). destruct a as [|y a]; [|discriminate].
      exists b. exact H.
  - cbn [str_in]. rewrite orb_true_iff, starts_with_iff, IH. split.
    + intros [[b Hb]|(a & b & ->)].
      * exists [], b. exact Hb.
      * exists (x :: a), b. reflexivity.
    + intros (a & b & H). destruct a as [|y a].
      * left. exists b. exact H.
      * right. injection H as -> ->. exists a, b. reflexivity.
Qed.

Lemma occurs_context (needle q a b : pystr) :
  occurs needle q -> occurs needle (a ++ q ++ b).
Proof.
  intros (a' & b' & ->). exists (a ++ a'), (b' ++ b).
  rewrite <- !app_assoc. reflexivity.
Qed.

Lemma any_in_iff (terms : list pystr) (text : pystr) :
  any_in terms text = true <-> exists t, t ∈ terms /\ occurs t text.
Proof.
  unfold any_in. rewrite existsb_exists. split.
  - intros (t & Ht & Hin). exists t. split; [apply list_elem_of_In; exact Ht|].
    apply str_in_iff. exact Hin.
  - intros (t & Ht & Hin). exists t. split; [apply list_elem_of_In; exact Ht|].
    apply str_in_iff. exact Hin.
Qed.

Lemma any_in_context (terms : list pystr) (q a b : pystr) :
  any_in terms q = true -> any_in terms (a ++ q ++ b) = true.
Proof.
  rewrite !any_in_iff. intros (t & Ht & Hin). exists t.
  split; [exact Ht|]. apply occurs_context. exact Hin.
Qed.

Lemma on_line_app (c : N) (s t : pystr) :
  on_line c s = true -> on_line c (s ++ t) = true.
Proof.
  induction s as [|x s IH]; cbn; [discriminate|].
  rewrite !orb_true_iff, !andb_true_iff. intros [H|[H1 H2]]; auto.
Qed.

Lemma search_dot_star_context (a b : N) (q p t : pystr) :
  search_dot_star a b q = true -> search_dot_star a b (p ++ q ++ t) = true.
Proof.
  intros H. induction p as [|x p IH]; cbn.
  - induction q as [|y q IHq]; cbn in *; [discriminate|].
    rewrite orb_true_iff, andb_true_iff in *.
    destruct H as [[H1 H2]|H]; [left|right; auto].
    split; [exact H1|]. apply on_line_app. exact H2.
  - rewrite IH. apply orb_true_r.
Qed.

Lemma re_search_context (pat : pattern) (q a b : pystr) :
  re_search pat q = true -> re_search pat (a ++ q ++ b) = true.
Proof.
  destruct pat as [t|x y]; cbn [re_search].
  - rewrite !str_in_iff. apply occurs_context.
  - apply search_dot_star_context.
Qed.

Lemma patterns_context (pats : list pattern) (q a b : pystr) :
  existsb (fun p => re_search p q) pats = true ->
  existsb (fun p => re_search p (a ++ q ++ b)) pats = true.
Proof.
  rewrite !existsb_exists. intros (p & Hp & H). exists p.
  split; [exact Hp|]. apply re_search_context. exact H.
Qed.

Lemma first_label_context (table : list (pystr * list pystr))
    (q a b l : pystr) :
  first_label table q = Some l ->
  exists l', first_label table (a ++ q ++ b) = Some l' /\ l' ∈ table.*1.
Proof.
  unfold first_label. induction table as [|e table IH]; [discriminate|].
  cbn [List.find].
  destruct (any_in e.2 (a ++ q ++ b)) eqn:E.
  - intros _. exists e.1. split; [reflexivity|]. cbn. left.
  - destruct (any_in e.2 q) eqn:Eq.
    + apply (any_in_context _ _ a b) in Eq. congruence.
    + intros H. destruct (IH H) as (l' & Hl' & Hin). exists l'.
      split; [exact Hl'|]. cbn. right. exact Hin.
Qed.

Lemma first_label_head (e : pystr * list pystr)
    (table : list (pystr * list pystr)) (text : pystr) :
  e.1 ∉ table.*1 ->
  (first_label (e :: table) text = Some e.1 <-> any_in e.2 text = true).
Proof.
  intros Hfresh. unfold first_label. cbn [List.find].
  destruct (any_in e.2 text); [tauto|]. split; [|discriminate].
  intros H. exfalso. apply Hfresh.
  apply (AnalyzerFacts.first_label_in table text). exact H.
Qed.

(** X22.  What the keyword detectors find in a text they find in every
    text that contains it: a comparison or a calculation once detected
    stays detected when words are added before or after, a data type other
    than unknown stays other than unknown, and the labels tested first,
    balance_sheet and overview, are kept. *)
Theorem detections_survive_context (q a b : pystr) :
  (_detect_comparison q = true ->
   _detect_comparison (a ++ q ++ b) = true) /\
  (_detect_calculation q = true ->
   _detect_calculation (a ++ q ++ b) = true) /\
  (_detect_data_type q <> py "unknown" ->
   _detect_data_type (a ++ q ++ b) <> py "unknown") /\
  (_detect_data_type q = py "balance_sheet" ->
   _detect_data_type (a ++ q ++ b) = py "balance_sheet") /\
  (_detect_granularity q = py "overview" ->
   _detect_granularity (a ++ q ++ b) = py "overview").
Proof.
  split; [|split; [|split; [|split]]].
  - unfold _detect_comparison.
    destruct (any_in comparison_terms q) eqn:E.
    + rewrite (any_in_context _ _ a b E). reflexivity.
    + intros H. rewrite (patterns_context _ _ a b H).
      destruct (any_in comparison_terms (a ++ q ++ b)); reflexivity.
  - unfold _detect_calculation.
    destruct (any_in calculation_terms q) eqn:E.
    + rewrite (any_in_context _ _ a b E). reflexivity.
    + intros H. rewrite (patterns_context _ _ a b H).
      destruct (any_in calculation_terms (a ++ q ++ b)); reflexivity.
  - unfold _detect_data_type.
    destruct (first_label financial_terms q) as [l|] eqn:E; [|congruence].
    intros _. destruct (first_label_context _ q a b l E) as (l' & -> & Hin).
    cbn [fmap list_fmap financial_terms fst] in Hin.
    rewrite !elem_of_cons in Hin.
    destruct Hin as [->|[->|[->|Hin]]]; [discriminate..|inversion Hin].
  - unfold _detect_data_type.
    pose proof (first_label_head (List.hd (py "", []) financial_terms)
                  (List.tl financial_terms)) as Hhead.
    change (List.hd (py "", []) financial_terms :: List.tl financial_terms)
      with financial_terms in Hhead.
    change ((List.hd (py "", []) financial_terms).1)
      with (py "balance_sheet") in Hhead.
    change ((List.tl financial_terms).*1)
      with [py "income_statement"; py "cash_flow"] in Hhead.
    assert (Hfresh : py "balance_sheet"
                     ∉ [py "income_statement"; py "cash_flow"]).
    { rewrite !not_elem_of_cons. repeat split; try discriminate.
      apply not_elem_of_nil. }
    intros H.
    destruct (first_label financial_terms q) as [l|] eqn:E;
      [|discriminate]. subst l.
    apply (proj1 (Hhead q Hfresh)) in E. apply (any_in_context _ _ a b) in E.
    apply (proj2 (Hhead (a ++ q ++ b) Hfresh)) in E. rewrite E. reflexivity.
  - unfold _detect_granularity.
    pose proof (first_label_head (List.hd (py "", []) granularity_terms)
                  (List.tl granularity_terms)) as Hhead.
    change (List.hd (py "", []) granularity_terms
            :: List.tl granularity_terms)
      with granularity_terms in Hhead.
    change ((List.hd (py "", []) granularity_terms).1)
      with (py "overview") in Hhead.
    change ((List.tl granularity_terms).*1)
      with [py "specific"; py "metric"] in Hhead.
    assert (Hfresh : py "overview" ∉ [py "specific"; py "metric"]).
    { rewrite !not_elem_of_cons. repeat split; try discriminate.
      apply not_elem_of_nil. }
    intros H.
    destruct (first_label granularity_terms q) as [l|] eqn:E.
    + subst l. apply (proj1 (Hhead q Hfresh)) in E.
      apply (any_in_context _ _ a b) in E.
      apply (proj2 (Hhead (a ++ q ++ b) Hfresh)) in E. rewrite E. reflexivity.
    + destruct (any_in _ q); discriminate.
Qed.

(** *** The time focus *)

Section Years.
Variable unicode_digit : N -> bool.

(** [s] begins with 19 or 20 and two further digits. *)
Definition year_at (s : pystr) : Prop :=
  exists p c3 c4 rest,
    (p = py "19" \/ p = py "20") /\ s = p ++ c3 :: c4 :: rest /\
    is_digit unicode_digit c3 = true /\ is_digit unicode_digit c4 = true.

(** [query] holds a year somewhere. *)
Definition holds_year (query : pystr) : Prop :=
  exists a s, query = a ++ s /\ year_at s.

Lemma match_year_some (s : pystr) :
  is_Some (match_year unicode_digit s) <-> year_at s.
Proof.
  split.
  - intros [g Hg]. destruct s as [|c1 [|c2 [|c3 [|c4 rest]]]];
      try discriminate.
    unfold match_year in Hg.
    destruct (starts_with (py "19") (c1 :: c2 :: c3 :: c4 :: rest)) eqn:E19;
      [|destruct (starts_with (py "20") (c1 :: c2 :: c3 :: c4 :: rest))
          eqn:E20; [|discriminate]];
      cbn [orb andb] in Hg;
      destruct (is_digit unicode_digit c3) eqn:D3; try discriminate;
      destruct (is_digit unicode_digit c4) eqn:D4; try discriminate.
    + apply starts_with_iff in E19. destruct E19 as [b Hb].
      change (py "19") with [49; 57]%N in Hb. injection Hb as -> -> _.
      exists (py "19"), c3, c4, rest. split; [auto|].
      split; [reflexivity|auto].
    + apply starts_with_iff in E20. destruct E20 as [b Hb].
      change (py "20") with [50; 48]%N in Hb. injection Hb as -> -> _.
      exists (py "20"), c3, c4, rest. split; [auto|].
      split; [reflexivity|auto].
  - intros (p & c3 & c4 & rest & Hp & -> & D3 & D4).
    destruct Hp as [->| ->].
    + change (py "19" ++ c3 :: c4 :: rest)
        with (49 :: 57 :: c3 :: c4 :: rest)%N.
      unfold match_year. rewrite D3, D4.
      change (starts_with (py "19") (49 :: 57 :: c3 :: c4 :: rest)%N)
        with true.
      cbn. eauto.
    + change (py "20" ++ c3 :: c4 :: rest)
        with (50 :: 48 :: c3 :: c4 :: rest)%N.
      unfold match_year. rewrite D3, D4.
      change (starts_with (py "20") (50 :: 48 :: c3 :: c4 :: rest)%N)
        with true.
      rewrite orb_true_r. cbn. eauto.
Qed.

Lemma year_at_nil : ~ year_at [].
Proof.
  intros (p & c3 & c4 & rest & Hp & H & _).
  destruct Hp as [->| ->]; discriminate.
Qed.

Lemma findall_year_nonempty (query : pystr) :
  findall_year unicode_digit 0 query <> [] <-> holds_year query.
Proof.
  unfold holds_year. induction query as [|c rest IH].
  - cbn. split; [congruence|]. intros (a & s & Heq & Hs).
    symmetry in Heq. apply app_eq_nil in Heq. destruct Heq as [_ ->].
    exfalso. exact (year_at_nil Hs).
  - cbn [findall_year].
    destruct (match_year unicode_digit (c :: rest)) as [g|] eqn:E.
    + split; [intros _|discriminate].
      exists [], (c :: rest). split; [reflexivity|].
      apply match_year_some. rewrite E. eauto.
    + rewrite IH. split.
      * intros (a & s & -> & Hs). exists (c :: a), s. auto.
      * intros (a & s & Heq & Hs). destruct a as [|x a].
        -- cbn in Heq. subst s. apply match_year_some in Hs.
           rewrite E in Hs. destruct Hs as [? Hs]. discriminate.
        -- injection Heq as -> ->. exists a, s. auto.
Qed.

(** X23.  Which kind of time focus a query gets: a list of years exactly
    when the query holds, anywhere (also inside a longer number), the
    characters 19 or 20 followed by two digits, whatever relative terms it
    holds besides; and [None] exactly when it holds no such year and none
    of the relative time terms. *)
Theorem time_focus_kinds (query : pystr) :
  ((exists years, _detect_time_focus unicode_digit query = Years years)
   <-> holds_year query) /\
  (_detect_time_focus unicode_digit query = NoFocus
   <-> ~ holds_year query /\
       forall e t, e ∈ relative_time_terms -> t ∈ e.2 -> ~ occurs t query).
Proof.
  unfold _detect_time_focus.
  pose proof (findall_year_nonempty query) as Hy.
  destruct (findall_year unicode_digit 0 query) as [|y ys].
  - assert (Hno : ~ holds_year query) by (rewrite <- Hy; congruence).
    split.
    + split; [|intros H; contradiction].
      intros [years H]. destruct (List.find _ _); discriminate.
    + destruct (List.find _ relative_time_terms) as [e|] eqn:E.
      * split; [discriminate|]. intros [_ Hnone]. exfalso.
        apply find_some in E. destruct E as [Hin Hex].
        apply existsb_exists in Hex. destruct Hex as (t & Ht & Hocc).
        apply (Hnone e t).
        -- apply list_elem_of_In. exact Hin.
        -- apply list_elem_of_In. exact Ht.
        -- apply str_in_iff. exact Hocc.
      * split; [intros _|reflexivity]. split; [exact Hno|].
        intros e t He Ht Hocc.
        pose proof (find_none _ _ E e (proj1 (list_elem_of_In _ _) He))
          as Hf.
        cbn beta in Hf. apply not_true_iff_false in Hf. apply Hf.
        apply existsb_exists. exists t.
        split; [apply list_elem_of_In; exact Ht|].
        apply str_in_iff. exact Hocc.
  - assert (Hyes : holds_year query) by (apply Hy; discriminate).
    split.
    + split; [intros _; exact Hyes|]. intros _. eauto.
    + split; [discriminate|]. intros [Hno _]. contradiction.
Qed.

End Years.

(** An amount is taken for a year. *)
Example amount_is_a_year :
  _detect_time_focus (fun _ => false) (py "revenue above 120000 last year")
  = Years [py "20"].
Proof. vm_compute. reflexivity. Qed.

End IntentMore.

(** ** The table detector: from the region providers to the resolver *)
Module DetectorProviders.
Import Detector LoopFacts DetectorFacts.

Lemma uint_codes_inj (u v : Decimal.uint) :
  uint_codes u = uint_codes v -> u = v.
Proof.
  revert v. induction u as [|u IH|u IH|u IH|u IH|u IH|u IH|u IH|u IH|u IH|u IH];
    intros [|v|v|v|v|v|v|v|v|v|v] H; cbn in H; try discriminate;
    try reflexivity; injection H as H; f_equal; apply IH; exact H.
Qed.

Lemma str_of_nat_inj (n m : nat) : str_of_nat n = str_of_nat m -> n = m.
Proof.
  unfold str_of_nat. intros H. apply uint_codes_inj in H.
  apply Unsigned.to_uint_inj. exact H.
Qed.

(** The digits hold no underscore. *)
Lemma uint_codes_digits (u : Decimal.uint) :
  Forall (fun c => c <> 95%N) (uint_codes u).
Proof.
  induction u; cbn; constructor; try assumption; discriminate.
Qed.

Lemma digits_split (ds ds' r r' : pystr) :
  Forall (fun c => c <> 95%N) ds -> Forall (fun c => c <> 95%N) ds' ->
  ds ++ 95%N :: r = ds' ++ 95%N :: r' -> ds = ds' /\ r = r'.
Proof.
  intros Hds. revert ds'. induction Hds as [|c ds Hc Hds IH];
    intros ds' Hds' Heq.
  - destruct Hds' as [|c' ds' Hc' Hds']; cbn in Heq.
    + injection Heq as ->. auto.
    + injection Heq as <- _. congruence.
  - destruct Hds' as [|c' ds' Hc' Hds']; cbn in Heq.
    + injection Heq as -> _. congruence.
    + injection Heq as -> Heq. destruct (IH ds' Hds' Heq) as [-> ->]. auto.
Qed.

Lemma detected_id_inj (p i p' i' : nat) (b b' : rect) :
  table_id (detected_table p i b) = table_id (detected_table p' i' b') ->
  p = p' /\ i = i'.
Proof.
  cbn [table_id detected_table]. intros H. apply app_inv_head in H.
  change (py "_table_") with (95%N :: py "table_") in H.
  rewrite <- !app_comm_cons in H.
  apply digits_split in H; try apply uint_codes_digits.
  destruct H as [Hp Hi]. apply app_inv_head in Hi.
  split; apply str_of_nat_inj; assumption.
Qed.

(** The regions of the pages from number [k] on. *)
Definition detected_from (k : nat) (pages : list (list rect)) : list table :=
  mjoin (imap (fun page_num tables =>
                 imap (fun i b => detected_table (k + page_num) i b) tables)
              pages).

Lemma detected_from_cons (k : nat) (tables : list rect)
    (pages : list (list rect)) :
  detected_from k (tables :: pages)
  = imap (fun i b => detected_table k i b) tables
    ++ detected_from (S k) pages.
Proof.
  unfold detected_from. rewrite imap_cons. cbn [mjoin list_join].
  rewrite Nat.add_0_r. f_equal. f_equal. apply imap_ext.
  intros p ts _. cbn. apply imap_ext. intros i b _.
  rewrite Nat.add_succ_r. reflexivity.
Qed.

Lemma detected_from_elem (k : nat) (pages : list (list rect)) (t : table) :
  t ∈ detected_from k pages ->
  exists p i b, k <= p /\ t = detected_table p i b.
Proof.
  revert k. induction pages as [|tables pages IH]; intros k.
  - intros H. inversion H.
  - rewrite detected_from_cons, elem_of_app. intros [H|H].
    + apply elem_of_lookup_imap in H. destruct H as (i & b & -> & _).
      exists k, i, b. split; [lia|reflexivity].
    + destruct (IH (S k) H) as (p & i & b & Hp & ->).
      exists p, i, b. split; [lia|reflexivity].
Qed.

Lemma detected_from_ids (k : nat) (pages : list (list rect)) :
  NoDup (table_id <$> detected_from k pages).
Proof.
  revert k. induction pages as [|tables pages IH]; intros k.
  - constructor.
  - rewrite detected_from_cons, fmap_app. apply NoDup_app.
    split; [|split; [|apply IH]].
    + apply NoDup_alt. intros i j x Hi Hj.
      rewrite list_lookup_fmap, list_lookup_imap in Hi, Hj.
      destruct (tables !! i) as [b|]; [|discriminate].
      destruct (tables !! j) as [b'|]; [|discriminate].
      cbn [fmap option_fmap option_map] in Hi, Hj.
      rewrite <- Hi in Hj. apply (inj Some) in Hj.
      apply detected_id_inj in Hj. lia.
    + intros x Hx Hx'.
      apply list_elem_of_fmap in Hx. destruct Hx as (t & -> & Ht).
      apply elem_of_lookup_imap in Ht. destruct Ht as (i & b & -> & _).
      apply list_elem_of_fmap in Hx'. destruct Hx' as (t' & Heq & Ht').
      destruct (detected_from_elem _ _ _ Ht') as (p & i' & b' & Hp & ->).
      apply detected_id_inj in Heq. lia.
Qed.

Lemma detected_fresh (pages : list (list rect)) :
  Forall (fun t => parent_id t = None) (detected pages).
Proof.
  apply Forall_forall. intros t Ht.
  destruct (detected_from_elem 0 pages t Ht) as (p & i & b & _ & ->).
  reflexivity.
Qed.

Lemma elem_of_detected (pages : list (list rect)) (t : table) :
  t ∈ detected pages <->
  exists p tables i b,
    pages !! p = Some tables /\ tables !! i = Some b /\
    t = detected_table p i b.
Proof.
  unfold detected. rewrite list_elem_of_join. split.
  - intros (l & Ht & Hl). apply elem_of_lookup_imap in Hl.
    destruct Hl as (p & tables & -> & Hp).
    apply elem_of_lookup_imap in Ht. destruct Ht as (i & b & -> & Hi).
    exists p, tables, i, b. auto.
  - intros (p & tables & i & b & Hp & Hi & ->).
    exists (imap (fun i b => detected_table p i b) tables). split.
    + apply (elem_of_lookup_imap_2
               (fun i b => detected_table p i b) tables b i Hi).
    + apply (elem_of_lookup_imap_2
               (fun page_num tables =>
                  imap (fun i b => detected_table page_num i b) tables)
               pages tables p Hp).
Qed.

(** X24.  The ids the region providers give are pairwise distinct.
    Whatever boxes are found on the pages, the regions handed to the
    resolver are the boxes, box [i] of page [p] under the id
    [page_p_table_i]; two regions never share an id, since the decimal
    numerals of two different pairs of numbers differ; and every region
    starts without a parent at level 0. *)
Theorem detected_ids_distinct (pages : list (list rect)) :
  NoDup (table_id <$> detected pages) /\
  Forall (fun t => parent_id t = None /\ nesting_level t = 0)
         (detected pages) /\
  (forall t, t ∈ detected pages <->
     exists p tables i b,
       pages !! p = Some tables /\ tables !! i = Some b /\
       t = detected_table p i b) /\
  (forall p i p' i' b b',
     table_id (detected_table p i b) = table_id (detected_table p' i' b')
     <-> p = p' /\ i = i').
Proof.
  split; [apply (detected_from_ids 0)|]. split.
  - apply Forall_forall. intros t Ht.
    destruct (detected_from_elem 0 pages t Ht) as (p & i & b & _ & ->).
    split; reflexivity.
  - split; [apply elem_of_detected|]. intros p i p' i' b b'. split.
    + apply detected_id_inj.
    + intros [-> ->]. reflexivity.
Qed.

(** Two pages: a box inside another on the first, one box on the second. *)
Example detect_two_pages :
  match detect_tables 3 [ [(0, 0, 100, 100)%Q; (10, 10, 90, 90)%Q];
                          [(0, 0, 50, 50)%Q] ] with
  | Ok r => Some (map (fun t => (table_id t, parent_id t, nesting_level t)) r)
  | _ => None
  end
  = Some [ (py "page_0_table_0", None, 0);
           (py "page_0_table_1", Some (py "page_0_table_0"), 1);
           (py "page_1_table_0", None, 0) ].
Proof. vm_compute. reflexivity. Qed.

End DetectorProviders.
